(** * The chunked download engine of Vortex

    A shallow embedding of
    [src/extensions/download_management/DownloadManager.ts]: the classes
    [DownloadWorker] and [DownloadManager], with the properties of the
    specification that concern them.

    Conventions of the embedding.
    - A JavaScript [number] that holds a byte count, an offset, a status
      code or a time stamp is a [Z]; [undefined] is [None].
    - Objects that are shared by reference (a running download, its chunk
      jobs, a worker) live in a store inside the manager state and are
      named by a reference; a chunk job is named by the reference of its
      download and its index in [download.chunks], which only ever grows.
    - Every method is a computation in a state monad over the manager
      state, with failure for an uncaught [TypeError].  What the code hands
      to the outside (caller callbacks, requests, the assembler, timers and
      promise continuations) is appended to a trace of events; the
      continuation of each deferred step is a method of its own. *)

From Stdlib Require Import ZArith Lia Bool Ascii String.
From stdpp Require Import base option list gmap strings pretty.

Local Open Scope Z_scope.

(** ** Data model *)

(** [IDownloadJob.state]: 'init' | 'running' | 'paused' | 'finished'. *)
Inductive ChunkState := Init | Running | Paused | Finished.

(** [RedownloadMode]: 'always' | 'never' | 'ask' | 'replace'. *)
Inductive RedownloadMode := Always | Never | Ask | Replace.

#[global] Instance ChunkState_eq_dec : EqDecision ChunkState.
Proof. solve_decision. Defined.
#[global] Instance RedownloadMode_eq_dec : EqDecision RedownloadMode.
Proof. solve_decision. Defined.

(** The errors the file constructs or inspects.  [JsError msg code] is a
    plain [Error] with an optional [code] property (socket and file system
    errors carry one). *)
Inductive Err :=
| JsError (message : string) (code : option string)
| DataInvalid (message : string)
| ProcessCanceled (message : string)
| UserCanceled
| HTTPError (statusCode : Z) (statusMessage : string) (url : string)
| AlreadyDownloaded (fileName : string)
| DownloadIsHTML (inputUrl : string).

(** [err.code] *)
Definition code (err : Err) : option string :=
  match err with
  | JsError _ c => c
  | _ => None
  end.

(** [job.url] is a function.  Two closures are ever stored there: the one
    that takes the first resolved url of the download (initChunk, toJob,
    updateDownload) and, after a redirect, the constant one. *)
Inductive UrlProducer :=
| FirstResolved
| ConstUrl (newUrl : string).

(** [job.responseCB]: the closures that are ever stored call
    [updateDownload] or [updateDownloadSize].  The former may fall back on
    [fileNameFromURL], a variable of the closure that [job.url()] assigns;
    it is kept with the callback ([None] in the closure without it). *)
Inductive ResponseCB :=
| UpdateDownload (fileNameFromURL : option string)
| UpdateDownloadSize.

(** [job.errorCB]: the only closure ever stored is
    [(err) => this.cancelDownload(download, err)]. *)
Inductive ErrorCB := CancelDownload.

Module IDownloadJob.
Record t := mk {
  url : UrlProducer;
  confirmedOffset : Z;
  confirmedSize : Z;
  confirmedReceived : Z;
  offset : Z;
  state : ChunkState;
  received : Z;
  size : Z;
  workerId : option nat;
  errorCB : option ErrorCB;
  responseCB : option ResponseCB;
}.

Definition set_url v j :=
  mk v (confirmedOffset j) (confirmedSize j) (confirmedReceived j) (offset j)
     (state j) (received j) (size j) (workerId j) (errorCB j) (responseCB j).
Definition set_confirmedOffset v j :=
  mk (url j) v (confirmedSize j) (confirmedReceived j) (offset j)
     (state j) (received j) (size j) (workerId j) (errorCB j) (responseCB j).
Definition set_confirmedSize v j :=
  mk (url j) (confirmedOffset j) v (confirmedReceived j) (offset j)
     (state j) (received j) (size j) (workerId j) (errorCB j) (responseCB j).
Definition set_confirmedReceived v j :=
  mk (url j) (confirmedOffset j) (confirmedSize j) v (offset j)
     (state j) (received j) (size j) (workerId j) (errorCB j) (responseCB j).
Definition set_offset v j :=
  mk (url j) (confirmedOffset j) (confirmedSize j) (confirmedReceived j) v
     (state j) (received j) (size j) (workerId j) (errorCB j) (responseCB j).
Definition set_state v j :=
  mk (url j) (confirmedOffset j) (confirmedSize j) (confirmedReceived j) (offset j)
     v (received j) (size j) (workerId j) (errorCB j) (responseCB j).
Definition set_received v j :=
  mk (url j) (confirmedOffset j) (confirmedSize j) (confirmedReceived j) (offset j)
     (state j) v (size j) (workerId j) (errorCB j) (responseCB j).
Definition set_size v j :=
  mk (url j) (confirmedOffset j) (confirmedSize j) (confirmedReceived j) (offset j)
     (state j) (received j) v (workerId j) (errorCB j) (responseCB j).
Definition set_workerId v j :=
  mk (url j) (confirmedOffset j) (confirmedSize j) (confirmedReceived j) (offset j)
     (state j) (received j) (size j) v (errorCB j) (responseCB j).
End IDownloadJob.

(** The persisted checkpoint of a chunk. *)
Module IChunk.
Record t := mk {
  url : UrlProducer;
  received : Z;
  offset : Z;
  size : Z;
}.
End IChunk.

(** The response headers the file reads.  [content_length] and
    [content_range] hold the header after [parseInt] (the latter the total
    of [bytes a-b/total]); the other fields hold the header text. *)
Record Headers := {
  content_type : option string;
  content_length : option Z;
  content_range : option Z;
  content_disposition : option string;
  location : option string;
}.

(** [http.IncomingMessage], as far as [handleResponse] reads it. *)
Record IncomingMessage := {
  statusCode : Z;
  statusMessage : string;
  headers : Headers;
}.

(** [FileAssembler] is not part of this file: the manager only calls it.
    The state keeps whether the handle was closed. *)
Record FileAssembler := { isClosed : bool }.

Module IRunningDownload.
Record t := mk {
  id : string;
  error : bool;
  urls : list string;
  origName : string;
  tempName : string;
  finalName : option string;
  received : Z;
  started : option Z;
  size : option Z;
  headers : option Headers;
  assembler : option FileAssembler;
  assemblerProm : bool;
  redownload : RedownloadMode;
  chunks : list IDownloadJob.t;
  chunkable : option bool;
}.

Definition set_error v d :=
  mk (id d) v (urls d) (origName d) (tempName d) (finalName d) (received d)
     (started d) (size d) (headers d) (assembler d) (assemblerProm d)
     (redownload d) (chunks d) (chunkable d).
Definition set_size v d :=
  mk (id d) (error d) (urls d) (origName d) (tempName d) (finalName d) (received d)
     (started d) v (headers d) (assembler d) (assemblerProm d)
     (redownload d) (chunks d) (chunkable d).
Definition set_headers v d :=
  mk (id d) (error d) (urls d) (origName d) (tempName d) (finalName d) (received d)
     (started d) (size d) v (assembler d) (assemblerProm d)
     (redownload d) (chunks d) (chunkable d).
Definition set_assembler v d :=
  mk (id d) (error d) (urls d) (origName d) (tempName d) (finalName d) (received d)
     (started d) (size d) (headers d) v (assemblerProm d)
     (redownload d) (chunks d) (chunkable d).
Definition set_assemblerProm v d :=
  mk (id d) (error d) (urls d) (origName d) (tempName d) (finalName d) (received d)
     (started d) (size d) (headers d) (assembler d) v
     (redownload d) (chunks d) (chunkable d).
Definition set_chunks v d :=
  mk (id d) (error d) (urls d) (origName d) (tempName d) (finalName d) (received d)
     (started d) (size d) (headers d) (assembler d) (assemblerProm d)
     (redownload d) v (chunkable d).
Definition set_chunkable v d :=
  mk (id d) (error d) (urls d) (origName d) (tempName d) (finalName d) (received d)
     (started d) (size d) (headers d) (assembler d) (assemblerProm d)
     (redownload d) (chunks d) v.
End IRunningDownload.

(** What [finishCB] receives. [size] is [None] when [Math.max] yields
    [NaN], which happens when [download.size] is still [undefined]. *)
Module IDownloadResult.
Record t := mk {
  filePath : string;
  headers : option Headers;
  unfinishedChunks : list IChunk.t;
  hadErrors : bool;
  size : option Z;
}.
End IDownloadResult.

(** A reference to a chunk job: its download and its index there. *)
Definition JobRef : Type := nat * nat.

(** The fields of [DownloadWorker].  A [Buffer] is represented by its
    length, the only thing the worker reads of it.  [mRequest] and
    [mResponse] hold the flags the worker sets on them ([aborted],
    respectively [isPaused]); the callbacks given to the constructor are
    determined by [mJob] (see [startJob]). *)
Record DownloadWorker := {
  mJob : JobRef;
  mRequest : option bool;
  mBuffers : list Z;
  mDataHistory : list (Z * Z);
  mEnded : bool;
  mResponse : option bool;
  mWriting : bool;
  mRestart : bool;
  mRedirected : bool;
  mRedirectsFollowed : Z;
}.

Definition set_mRequest v (w : DownloadWorker) : DownloadWorker :=
  Build_DownloadWorker (mJob w) v (mBuffers w) (mDataHistory w) (mEnded w)
    (mResponse w) (mWriting w) (mRestart w) (mRedirected w) (mRedirectsFollowed w).
Definition set_mBuffers v (w : DownloadWorker) : DownloadWorker :=
  Build_DownloadWorker (mJob w) (mRequest w) v (mDataHistory w) (mEnded w)
    (mResponse w) (mWriting w) (mRestart w) (mRedirected w) (mRedirectsFollowed w).
Definition set_mDataHistory v (w : DownloadWorker) : DownloadWorker :=
  Build_DownloadWorker (mJob w) (mRequest w) (mBuffers w) v (mEnded w)
    (mResponse w) (mWriting w) (mRestart w) (mRedirected w) (mRedirectsFollowed w).
Definition set_mEnded v (w : DownloadWorker) : DownloadWorker :=
  Build_DownloadWorker (mJob w) (mRequest w) (mBuffers w) (mDataHistory w) v
    (mResponse w) (mWriting w) (mRestart w) (mRedirected w) (mRedirectsFollowed w).
Definition set_mResponse v (w : DownloadWorker) : DownloadWorker :=
  Build_DownloadWorker (mJob w) (mRequest w) (mBuffers w) (mDataHistory w) (mEnded w)
    v (mWriting w) (mRestart w) (mRedirected w) (mRedirectsFollowed w).
Definition set_mWriting v (w : DownloadWorker) : DownloadWorker :=
  Build_DownloadWorker (mJob w) (mRequest w) (mBuffers w) (mDataHistory w) (mEnded w)
    (mResponse w) v (mRestart w) (mRedirected w) (mRedirectsFollowed w).
Definition set_mRestart v (w : DownloadWorker) : DownloadWorker :=
  Build_DownloadWorker (mJob w) (mRequest w) (mBuffers w) (mDataHistory w) (mEnded w)
    (mResponse w) (mWriting w) v (mRedirected w) (mRedirectsFollowed w).
Definition set_mRedirected v (w : DownloadWorker) : DownloadWorker :=
  Build_DownloadWorker (mJob w) (mRequest w) (mBuffers w) (mDataHistory w) (mEnded w)
    (mResponse w) (mWriting w) (mRestart w) v (mRedirectsFollowed w).
Definition set_mRedirectsFollowed v (w : DownloadWorker) : DownloadWorker :=
  Build_DownloadWorker (mJob w) (mRequest w) (mBuffers w) (mDataHistory w) (mEnded w)
    (mResponse w) (mWriting w) (mRestart w) (mRedirected w) v.

(** ** Events

    What a method hands to its collaborators, in the order of the calls.
    The [Call...] events record that a callback of a worker was invoked (its
    body, a method of the manager, runs right after); the [Defer...] events
    stand for a promise continuation or a timer, which runs in a later turn
    of the event loop. *)
Inductive Event :=
| Request (w : nat) (url : string) (referer : option string) (first last : Z)
| RequestAbort (w : nat)
| ResponsePause (w : nat)
| ResponseResume (w : nat)
| RemoveErrorListeners (w : nat)
| SpeedInitCounter (w : nat)
| SpeedStopCounter (w : option nat)
| AssemblerCreate (d : nat) (name : string)
| AssemblerSetTotalSize (d : nat) (total : Z)
| AssemblerClose (d : nat)
| DataCB (d : nat) (offset len : Z)
| CallFinishCB (w : nat) (paused : bool)
| CallErrorCB (w : nat) (err : Err)
| CallHeadersCB (w : nat)
| CallResponseCB (w : nat) (fileSize : Z) (fileName : option string) (chunkable : bool)
| CallProgressCB (w : nat) (bytes : Z)
| ProgressCB (d : nat) (received : Z) (total : option Z)
    (chunks : option (list IChunk.t)) (chunkable : option bool)
    (filePath : option string)
| FinishCB (d : nat) (res : IDownloadResult.t)
| FailedCB (d : nat) (err : Err)
| FsRename (from to : string)
| FsRemove (path : string)
| DeferAssignJob (w : nat)
| DeferRedirect (w : nat) (newUrl : string) (ms : Z)
| DeferStartDownload (w : nat) (jobUrl : string)
| DeferStartJob (d j : nat)
| DeferFinish (d : nat) (finalPath : string)
| DeferAck (w : nat) (len : Z)
| DeferCompleted (w : nat)
| DeferWritten (w : nat)
| DeferRename (d : nat) (fileName : string).

(** What the promise of [mFileExistsCB] settles to. *)
Inductive FileExistsAnswer := Continue (cont : bool) | Fails (err : Err).

(** ** The manager state *)

(** [mMinChunkSize] is hard coded by the constructor. *)
Definition mMinChunkSize : Z := 20 * 1024 * 1024.

(** The fields of [DownloadManager], followed by the object store.
    [mBusyWorkers] maps a worker id to a worker object: the table holds the
    ids and [workers] the objects, which stay alive (their request's
    listeners refer to them) after [stopWorker] deleted the id.  A worker is
    stored under the worker id of its job, which is fresh for every worker
    (see [startWorker]). *)
Record DownloadManager := {
  mMaxWorkers : Z;
  mMaxChunks : Z;
  mDownloadPath : string;
  mBusyWorkers : gset nat;
  mSlowWorkers : gmap nat Z;
  mQueue : list nat;
  mNextId : nat;
  mFileExistsCB : option (string → FileExistsAnswer);
  downloads : gmap nat IRunningDownload.t;
  workers : gmap nat DownloadWorker;
  trace : list Event;
}.

Definition set_mBusyWorkers v (m : DownloadManager) : DownloadManager :=
  Build_DownloadManager (mMaxWorkers m) (mMaxChunks m) (mDownloadPath m) v
    (mSlowWorkers m) (mQueue m) (mNextId m) (mFileExistsCB m) (downloads m)
    (workers m) (trace m).
Definition set_mSlowWorkers v (m : DownloadManager) : DownloadManager :=
  Build_DownloadManager (mMaxWorkers m) (mMaxChunks m) (mDownloadPath m)
    (mBusyWorkers m) v (mQueue m) (mNextId m) (mFileExistsCB m) (downloads m)
    (workers m) (trace m).
Definition set_mQueue v (m : DownloadManager) : DownloadManager :=
  Build_DownloadManager (mMaxWorkers m) (mMaxChunks m) (mDownloadPath m)
    (mBusyWorkers m) (mSlowWorkers m) v (mNextId m) (mFileExistsCB m) (downloads m)
    (workers m) (trace m).
Definition set_mNextId v (m : DownloadManager) : DownloadManager :=
  Build_DownloadManager (mMaxWorkers m) (mMaxChunks m) (mDownloadPath m)
    (mBusyWorkers m) (mSlowWorkers m) (mQueue m) v (mFileExistsCB m) (downloads m)
    (workers m) (trace m).
Definition set_downloads v (m : DownloadManager) : DownloadManager :=
  Build_DownloadManager (mMaxWorkers m) (mMaxChunks m) (mDownloadPath m)
    (mBusyWorkers m) (mSlowWorkers m) (mQueue m) (mNextId m) (mFileExistsCB m) v
    (workers m) (trace m).
Definition set_workers v (m : DownloadManager) : DownloadManager :=
  Build_DownloadManager (mMaxWorkers m) (mMaxChunks m) (mDownloadPath m)
    (mBusyWorkers m) (mSlowWorkers m) (mQueue m) (mNextId m) (mFileExistsCB m)
    (downloads m) v (trace m).
Definition set_trace v (m : DownloadManager) : DownloadManager :=
  Build_DownloadManager (mMaxWorkers m) (mMaxChunks m) (mDownloadPath m)
    (mBusyWorkers m) (mSlowWorkers m) (mQueue m) (mNextId m) (mFileExistsCB m)
    (downloads m) (workers m) v.

(** [new DownloadManager(downloadPath, maxWorkers, maxChunks, ...)] *)
Definition newDownloadManager (downloadPath : string) (maxWorkers maxChunks : Z)
    : DownloadManager :=
  {| mMaxWorkers := maxWorkers; mMaxChunks := maxChunks; mDownloadPath := downloadPath;
     mBusyWorkers := ∅; mSlowWorkers := ∅; mQueue := []; mNextId := 0;
     mFileExistsCB := None; downloads := ∅; workers := ∅; trace := [] |}.

(** [setFileExistsCB(cb)] *)
Definition setFileExistsCB (cb : string → FileExistsAnswer) (m : DownloadManager)
    : DownloadManager :=
  Build_DownloadManager (mMaxWorkers m) (mMaxChunks m) (mDownloadPath m)
    (mBusyWorkers m) (mSlowWorkers m) (mQueue m) (mNextId m) (Some cb) (downloads m)
    (workers m) (trace m).

(** ** The monad of methods

    A method takes the manager state to a result and a new state, or to
    [None] when it throws (an uncaught [TypeError] on [undefined]). *)
Definition M (A : Type) : Type := DownloadManager → option (A * DownloadManager).

#[global] Instance M_ret : MRet M := λ A a m, Some (a, m).
#[global] Instance M_bind : MBind M := λ A B f c m,
  match c m with
  | Some (a, m') => f a m'
  | None => None
  end.

Definition get : M DownloadManager := λ m, Some (m, m).
Definition modify (f : DownloadManager → DownloadManager) : M unit :=
  λ m, Some (tt, f m).
Definition throw {A} : M A := λ _, None.

(** The state after an event was handed out. *)
Definition logged (e : Event) (m : DownloadManager) : DownloadManager :=
  set_trace (trace m ++ [e]) m.
Definition emit (e : Event) : M unit := modify (logged e).

(** Reading and updating the objects of the store.  A reference always
    names an object in JavaScript; on a reference the store does not hold,
    an update leaves the store as it is. *)
Definition withDownload (d : nat) (f : IRunningDownload.t → IRunningDownload.t)
    (m : DownloadManager) : DownloadManager :=
  set_downloads (alter f d (downloads m)) m.
Definition withJob (r : JobRef) (f : IDownloadJob.t → IDownloadJob.t)
    (m : DownloadManager) : DownloadManager :=
  withDownload r.1 (λ dl,
    IRunningDownload.set_chunks (alter f r.2 (IRunningDownload.chunks dl)) dl) m.
Definition withWorker (w : nat) (f : DownloadWorker → DownloadWorker)
    (m : DownloadManager) : DownloadManager :=
  set_workers (alter f w (workers m)) m.

(** [jobAt m r] is the job that the reference [r] names. *)
Definition jobAt (m : DownloadManager) (r : JobRef) : option IDownloadJob.t :=
  downloads m !! r.1 ≫= λ dl, IRunningDownload.chunks dl !! r.2.

Definition getDownload (d : nat) : M IRunningDownload.t :=
  λ m, match downloads m !! d with Some dl => Some (dl, m) | None => None end.
Definition updDownload (d : nat) (f : IRunningDownload.t → IRunningDownload.t) : M unit :=
  modify (withDownload d f).
Definition getJob (r : JobRef) : M IDownloadJob.t :=
  λ m, match jobAt m r with Some j => Some (j, m) | None => None end.
Definition updJob (r : JobRef) (f : IDownloadJob.t → IDownloadJob.t) : M unit :=
  modify (withJob r f).
Definition getWorker (w : nat) : M DownloadWorker :=
  λ m, match workers m !! w with Some wk => Some (wk, m) | None => None end.
Definition updWorker (w : nat) (f : DownloadWorker → DownloadWorker) : M unit :=
  modify (withWorker w f).

(** [this.mBusyWorkers[id]] *)
Definition busyWorker (m : DownloadManager) (id : option nat) : option nat :=
  match id with
  | Some w => if decide (w ∈ mBusyWorkers m) then Some w else None
  | None => None
  end.

(** ** DownloadManager: releasing a slot, scheduling *)

(** [stopWorker(id)] *)
Definition stopWorker (id : option nat) : M unit :=
  emit (SpeedStopCounter id);;
  match id with
  | Some w =>
      modify (λ m, set_mBusyWorkers (mBusyWorkers m ∖ {[w]}) m);;
      modify (λ m, set_mSlowWorkers (delete w (mSlowWorkers m)) m)
  | None => mret tt
  end.

(** [startJob(download, job)], up to the promise it returns: the worker is
    constructed by [startJob_then] once the assembler is there. *)
Definition startJob (d j : nat) : M unit :=
  dl ← getDownload d;
  (if IRunningDownload.assemblerProm dl then mret tt
   else emit (AssemblerCreate d (IRunningDownload.tempName dl));;
        updDownload d (IRunningDownload.set_assemblerProm true));;
  emit (DeferStartJob d j).

(** [forEach] over a snapshot of indices or elements. *)
Fixpoint forEach {A} (l : list A) (f : A → M unit) : M unit :=
  match l with
  | [] => mret tt
  | a :: l' => f a;; forEach l' f
  end.

(** [startWorker(download)] *)
Definition startWorker (d : nat) : M unit :=
  m ← get;
  let workerId := mNextId m in
  modify (set_mNextId (S workerId));;
  emit (SpeedInitCounter workerId);;
  dl ← getDownload d;
  match list_find (λ ele, IDownloadJob.state ele = Init) (IRunningDownload.chunks dl) with
  | None => throw
  | Some (j, _) =>
      updJob (d, j) (IDownloadJob.set_state Running);;
      updJob (d, j) (IDownloadJob.set_workerId (Some workerId));;
      startJob d j
  end.

(** [countIf(chunks, value => value.state === 'init')] *)
Definition unstarted (dl : IRunningDownload.t) : nat :=
  length (filter (λ value, IDownloadJob.state value = Init) (IRunningDownload.chunks dl)).

(** The inner loop of [tickQueue]:
    [while ((freeSpots > 0) && (unstartedChunks > 0))]. *)
Fixpoint tickQueue_download (d : nat) (unstartedChunks : nat) (freeSpots : Z) : M Z :=
  match unstartedChunks with
  | O => mret freeSpots
  | S n =>
      if decide (0 < freeSpots)
      then startWorker d;; tickQueue_download d n (freeSpots - 1)
      else mret freeSpots
  end.

(** The outer loop: [while ((freeSpots > 0) && (idx < this.mQueue.length))].
    Nothing that runs inside the loop changes [mQueue] (the handlers of the
    promise of [startWorker] run later), so the loop walks the queue as it
    is on entry. *)
Fixpoint tickQueue_loop (queue : list nat) (freeSpots : Z) : M unit :=
  match queue with
  | [] => mret tt
  | d :: queue' =>
      if decide (0 < freeSpots)
      then dl ← getDownload d;
           freeSpots' ← tickQueue_download d (unstarted dl) freeSpots;
           tickQueue_loop queue' freeSpots'
      else mret tt
  end.

(** [tickQueue()] *)
Definition tickQueue : M unit :=
  m ← get;
  tickQueue_loop (mQueue m) (mMaxWorkers m - Z.of_nat (size (mBusyWorkers m))).

(** ['paused'] and ['finished']: [['paused', 'finished'].includes(state)] *)
Definition terminal (s : ChunkState) : bool :=
  match s with
  | Paused | Finished => true
  | Init | Running => false
  end.

(** [toStoredChunk(job)] *)
Definition toStoredChunk (job : IDownloadJob.t) : IChunk.t :=
  {| IChunk.url := IDownloadJob.url job;
     IChunk.size := IDownloadJob.confirmedSize job;
     IChunk.offset := IDownloadJob.confirmedOffset job;
     IChunk.received := IDownloadJob.confirmedReceived job |}.

(** [finishChunk(download, job, interrupted)], up to the promise of
    [download.assembler.close()]; what follows it is [finishChunk_then]. *)
Definition finishChunk (r : JobRef) (interrupted : bool) : M unit :=
  job ← getJob r;
  stopWorker (IDownloadJob.workerId job);;
  updJob r (IDownloadJob.set_state
              (if interrupted || (0 <? IDownloadJob.size job) then Paused else Finished));;
  (if negb interrupted && (0 <? IDownloadJob.size job)
   then updDownload r.1 (IRunningDownload.set_error true)
   else mret tt);;
  dl ← getDownload r.1;
  match list_find (λ chunk, terminal (IDownloadJob.state chunk) = false)
                  (IRunningDownload.chunks dl) with
  | Some _ => mret tt
  | None =>
      match IRunningDownload.assembler dl with
      | None => throw
      | Some _ =>
          emit (AssemblerClose r.1);;
          emit (DeferFinish r.1 (IRunningDownload.tempName dl))
      end
  end;;
  tickQueue.

(** [Math.max(download.size, download.received)]: [NaN] when the size is
    [undefined]. *)
Definition Math_max (size : option Z) (received : Z) : option Z :=
  match size with
  | Some s => Some (Z.max s received)
  | None => None
  end.

(** ** DownloadWorker *)

(** [this.mRequest.abort()] *)
Definition mRequest_abort (w : nat) : M unit :=
  wk ← getWorker w;
  match mRequest wk with
  | None => throw
  | Some _ => updWorker w (set_mRequest (Some true));; emit (RequestAbort w)
  end.

(** [if (this.mRequest !== undefined) { this.mRequest.abort(); }] *)
Definition abortRequest (w : nat) : M unit :=
  wk ← getWorker w;
  match mRequest wk with
  | None => mret tt
  | Some _ => mRequest_abort w
  end.

(** [this.mFinishCB(paused)]: the constructor receives
    [(pause) => this.finishChunk(download, job, pause)]. *)
Definition mFinishCB (w : nat) (paused : bool) : M unit :=
  wk ← getWorker w;
  emit (CallFinishCB w paused);;
  finishChunk (mJob wk) paused.

(** [abort(paused)] *)
Definition abort (w : nat) (paused : bool) : M bool :=
  wk ← getWorker w;
  if mEnded wk then mret false
  else
    abortRequest w;;
    updWorker w (set_mEnded true);;
    mFinishCB w paused;;
    mret true.

(** [cancel()] *)
Definition cancel (w : nat) : M unit :=
  abort w false;; mret tt.

(** [pause()] of the worker *)
Definition worker_pause (w : nat) : M unit :=
  aborted ← abort w true;
  if (aborted : bool) then
    wk ← getWorker w;
    match mResponse wk with
    | Some _ => updWorker w (set_mResponse (Some true));; emit (ResponsePause w)
    | None => mret tt
    end
  else mret tt.

(** [restart()] *)
Definition restart (w : nat) : M unit :=
  wk ← getWorker w;
  match mResponse wk with
  | None => throw
  | Some _ =>
      emit (RemoveErrorListeners w);;
      mRequest_abort w;;
      updWorker w (set_mRestart true)
  end.

(** [cancelDownload(download, err)] of the manager, the body of every
    [errorCB]. *)
Definition cancelDownload (d : nat) (err : Err) : M unit :=
  dl ← getDownload d;
  forEach (seq 0 (length (IRunningDownload.chunks dl))) (λ j,
    chunk ← getJob (d, j);
    if decide (IDownloadJob.state chunk = Running) then
      m ← get;
      match busyWorker m (IDownloadJob.workerId chunk) with
      | Some w => cancel w
      | None => mret tt
      end;;
      updJob (d, j) (IDownloadJob.set_state Paused)
    else mret tt);;
  emit (FailedCB d err).

(** [['ESOCKETTIMEDOUT', 'ECONNRESET'].indexOf(err.code) !== -1] *)
Definition isSocketError (err : Err) : bool :=
  match code err with
  | Some c => (c =? "ESOCKETTIMEDOUT")%string || (c =? "ECONNRESET")%string
  | None => false
  end.

(** [handleError(err)].  The retry, [this.mJob.url().then(...)], is
    deferred: [assignJob] runs when the url is resolved. *)
Definition handleError (w : nat) (err : Err) : M unit :=
  wk ← getWorker w;
  if mEnded wk then mret tt
  else
    job ← getJob (mJob wk);
    match IDownloadJob.errorCB job with
    | Some CancelDownload =>
        emit (CallErrorCB w err);; cancelDownload (mJob wk).1 err
    | None => mret tt
    end;;
    abortRequest w;;
    wk' ← getWorker w;
    if isSocketError err && negb (mEnded wk') && bool_decide (mDataHistory wk' ≠ [])
    then emit (DeferAssignJob w)
    else updWorker w (set_mEnded true);; mFinishCB w false.

(** [doWriteBuffer(buf)]: the data callback is called with the current
    offset, the counters of the job advance at once, the confirmed ones when
    the write is acknowledged ([doWriteBuffer_then]). *)
Definition doWriteBuffer (w : nat) (len : Z) : M unit :=
  wk ← getWorker w;
  job ← getJob (mJob wk);
  emit (DataCB (mJob wk).1 (IDownloadJob.offset job) len);;
  emit (DeferAck w len);;
  updJob (mJob wk) (λ j,
    IDownloadJob.set_size (IDownloadJob.size j - len)
      (IDownloadJob.set_offset (IDownloadJob.offset j + len)
         (IDownloadJob.set_received (IDownloadJob.received j + len) j))).

Definition doWriteBuffer_then (w : nat) (len : Z) : M unit :=
  wk ← getWorker w;
  updJob (mJob wk) (λ j,
    IDownloadJob.set_confirmedSize (IDownloadJob.confirmedSize j - len)
      (IDownloadJob.set_confirmedOffset (IDownloadJob.confirmedOffset j + len)
         (IDownloadJob.set_confirmedReceived (IDownloadJob.confirmedReceived j + len) j))).

(** [this.bufferLength] *)
Definition bufferLength (wk : DownloadWorker) : Z :=
  foldl (λ prev iter, prev + iter) 0 (mBuffers wk).

(** [writeBuffer(str)]; merging the buffers is taken to succeed. *)
Definition writeBuffer (w : nat) : M unit :=
  wk ← getWorker w;
  match mBuffers wk with
  | [] => mret tt
  | _ =>
      updWorker w (set_mBuffers []);;
      doWriteBuffer w (bufferLength wk)
  end.

(** [handleComplete(str)], up to the promise of [writeBuffer]. *)
Definition handleComplete (w : nat) : M unit :=
  wk ← getWorker w;
  if mEnded wk then mret tt
  else writeBuffer w;; emit (DeferCompleted w).

(** The continuation of [handleComplete].  No job of this file has a
    [completionCB]. *)
Definition handleComplete_then (w : nat) : M unit :=
  wk ← getWorker w;
  job ← getJob (mJob wk);
  if mRestart wk && (0 <? IDownloadJob.size job)
  then updWorker w (set_mRestart false);; emit (DeferAssignJob w)
  else abort w false;; mret tt.

(** [assignJob(job, jobUrl)]; [job] is always [this.mJob]. *)
Definition assignJob (w : nat) (jobUrl : option string) : M unit :=
  updWorker w (set_mDataHistory []);;
  wk ← getWorker w;
  job ← getJob (mJob wk);
  if IDownloadJob.size job <=? 0 then handleComplete w
  else
    match jobUrl with
    | None => handleError w (ProcessCanceled "No URL found for this download")
    | Some u => emit (DeferStartDownload w u)
    end.

(** [handleHTML(inputUrl)] *)
Definition handleHTML (w : nat) (inputUrl : string) : M unit :=
  abort w false;;
  wk ← getWorker w;
  job ← getJob (mJob wk);
  match IDownloadJob.errorCB job with
  | Some CancelDownload =>
      emit (CallErrorCB w (DownloadIsHTML inputUrl));;
      cancelDownload (mJob wk).1 (DownloadIsHTML inputUrl)
  | None => mret tt
  end.

(** ** DownloadManager: stall detection and chunk layout *)

(** [makeProgressCB(job, download)(bytes)].  [starving] is what
    [this.mSpeedCalculator.addMeasure(job.workerId, bytes)] returns
    ([Some true] starving, [Some false] healthy, [None] neither) and [now]
    is [Date.now()].  The job of a worker has a worker id. *)
Definition makeProgressCB (r : JobRef) (starving : option bool) (now : Z) : M unit :=
  job ← getJob r;
  download ← getDownload r.1;
  match IDownloadJob.workerId job with
  | None => throw
  | Some workerId =>
      match starving with
      | Some true =>
          m ← get;
          let slow := default 0 (mSlowWorkers m !! workerId) + 1 in
          modify (λ m, set_mSlowWorkers (<[workerId := slow]> (mSlowWorkers m)) m);;
          if (15 <? slow)
             && match IRunningDownload.started download with
                | Some started => now - started <? 15 * 60 * 1000
                | None => false
                end
          then
            match busyWorker m (Some workerId) with
            | None => throw
            | Some w => restart w
            end;;
            modify (λ m, set_mSlowWorkers (delete workerId (mSlowWorkers m)) m)
          else mret tt
      | Some false =>
          modify (λ m, set_mSlowWorkers (delete workerId (mSlowWorkers m)) m)
      | None => mret tt
      end
  end.

(** [if (chunkable || (download.chunkable === null)
        || (download.chunkable === undefined)) download.chunkable = chunkable] *)
Definition setChunkable (d : nat) (chunkable : bool) : M unit :=
  download ← getDownload d;
  if chunkable || bool_decide (IRunningDownload.chunkable download = None)
  then updDownload d (IRunningDownload.set_chunkable (Some chunkable))
  else mret tt.

(** [if (download.size !== size) { download.size = size;
        download.assembler.setTotalSize(size); }] *)
Definition setSize (d : nat) (size : Z) : M unit :=
  download ← getDownload d;
  if bool_decide (IRunningDownload.size download = Some size) then mret tt
  else
    updDownload d (IRunningDownload.set_size (Some size));;
    match IRunningDownload.assembler download with
    | None => throw
    | Some _ => emit (AssemblerSetTotalSize d size)
    end.

(** [updateDownloadSize(download, size, chunkable)] *)
Definition updateDownloadSize (d : nat) (size : Z) (chunkable : bool) : M unit :=
  setSize d size;;
  setChunkable d chunkable.

(** [Math.ceil(remainingSize / maxChunks)] on numbers that hold integers,
    for a divisor other than 0. *)
Definition Math_ceil_div (a b : Z) : Z := - ((- a) / b).

(** [Math.min(remainingSize, Math.max(this.mMinChunkSize,
              Math.ceil(remainingSize / maxChunks)))].
    [remainingSize] is positive where this is computed, so a division by 0
    yields [Infinity], which the maximum keeps and the minimum drops. *)
Definition chunkSizeOf (remainingSize maxChunks : Z) : Z :=
  if maxChunks =? 0 then remainingSize
  else Z.min remainingSize (Z.max mMinChunkSize (Math_ceil_div remainingSize maxChunks)).

(** The chunk that the layout loop of [updateDownload] pushes. *)
Definition newChunk (offset minSize : Z) : IDownloadJob.t :=
  {| IDownloadJob.confirmedReceived := 0;
     IDownloadJob.confirmedOffset := offset;
     IDownloadJob.confirmedSize := minSize;
     IDownloadJob.received := 0;
     IDownloadJob.offset := offset;
     IDownloadJob.size := minSize;
     IDownloadJob.state := Init;
     IDownloadJob.url := FirstResolved;
     IDownloadJob.workerId := None;
     IDownloadJob.errorCB := None;
     IDownloadJob.responseCB := None |}.

(** [while (offset < fileSize) { ...; offset += chunkSize; }].  The loop is
    given fuel; running out of it stands for a loop that does not end and
    is a failure of the method. *)
Fixpoint layoutLoop (fuel : nat) (d : nat) (fileSize chunkSize offset : Z) : M unit :=
  if offset <? fileSize then
    match fuel with
    | O => throw
    | S fuel' =>
        let minSize := Z.min chunkSize (fileSize - offset) in
        updDownload d (λ download,
          IRunningDownload.set_chunks
            (IRunningDownload.chunks download ++ [newChunk offset minSize]) download);;
        layoutLoop fuel' d fileSize chunkSize (offset + chunkSize)
    end
  else mret tt.

(** [updateDownload(download, fileSize, fileName, chunkable)].  Reserving
    the new name and renaming the file are deferred. *)
Definition updateDownload (d : nat) (fileSize : Z) (fileName : option string)
    (chunkable : bool) : M unit :=
  download ← getDownload d;
  match fileName with
  | Some name =>
      if bool_decide (name ≠ IRunningDownload.origName download)
         && bool_decide (IRunningDownload.finalName download = None)
      then emit (DeferRename d name)
      else mret tt
  | None => mret tt
  end;;
  setChunkable d chunkable;;
  setSize d fileSize;;
  download ← getDownload d;
  if decide (1 < length (IRunningDownload.chunks download))%nat then mret tt
  else if (mMinChunkSize <? fileSize) && chunkable then
    m ← get;
    let remainingSize := fileSize - mMinChunkSize in
    let maxChunks := Z.min (mMaxChunks m) (mMaxWorkers m) in
    let chunkSize := chunkSizeOf remainingSize maxChunks in
    layoutLoop (Z.to_nat fileSize) d fileSize chunkSize (mMinChunkSize + 1);;
    tickQueue
  else mret tt.

(** [this.mJob.responseCB(fileSize, fileName, chunkable)] *)
Definition callResponseCB (cb : ResponseCB) (d : nat) (fileSize : Z)
    (fileName : option string) (chunkable : bool) : M unit :=
  match cb with
  | UpdateDownload fileNameFromURL =>
      updateDownload d fileSize
        (match fileName with Some _ => fileName | None => fileNameFromURL end)
        chunkable
  | UpdateDownloadSize => updateDownloadSize d fileSize chunkable
  end.

(** ** DownloadWorker: responses and data *)

Definition MAX_REDIRECT_FOLLOW : Z := 2.
Definition BUFFER_SIZE : Z := 256 * 1024.
Definition BUFFER_SIZE_CAP : Z := 4 * 1024 * 1024.

(** [isHTMLHeader(headers)] *)
Definition isHTMLHeader (h : Headers) : bool :=
  match content_type h with
  | Some ct => String.prefix "text/html" ct
  | None => false
  end.

(** [truthy] of a string that may be [undefined]. *)
Definition truthy (s : option string) : bool :=
  match s with
  | Some s => negb (s =? EmptyString)%string
  | None => false
  end.

(** [[301, 302, 307, 308].indexOf(response.statusCode) !== -1] *)
Definition isRedirect (status : Z) : bool :=
  (status =? 301) || (status =? 302) || (status =? 307) || (status =? 308).

Section Response.
(** Of the libraries: [url.resolve(from, to)] for two strings (it throws a
    [TypeError] when [to] is [undefined]), and
    [contentDisposition.parse(cd).parameters['filename']], which is [None]
    when the parser throws. *)
Variable url_resolve : string → string → string.
Variable contentDisposition_parse : string → option (option string).

(** The file name that [handleResponse] takes from the
    content-disposition header. *)
Definition dispositionFileName (h : Headers) : option string :=
  match content_disposition h with
  | Some cd =>
      let n := String.length cd in
      let cd1 := if bool_decide (String.get (n - 1) cd = Some ";"%char)
                 then String.substring 0 (n - 1) cd else cd in
      let cd2 := if String.prefix "filename" cd1
                 then ("attachment;" ++ cd1)%string else cd1 in
      match contentDisposition_parse cd2 with
      | Some fileName => if truthy fileName then fileName else None
      | None => None
      end
  | None => None
  end.

(** [handleResponse(response, jobUrl)].  The redirected request is issued
    by the timer, [handleResponse_timeout]. *)
Definition handleResponse (w : nat) (response : IncomingMessage) (jobUrl : string)
    : M unit :=
  wk ← getWorker w;
  if 300 <=? statusCode response then
    if isRedirect (statusCode response) && (mRedirectsFollowed wk <? MAX_REDIRECT_FOLLOW)
    then
      match location (headers response) with
      | None => throw
      | Some loc =>
          let newUrl := url_resolve jobUrl loc in
          updJob (mJob wk) (IDownloadJob.set_url (ConstUrl newUrl));;
          updWorker w (set_mRedirected true);;
          emit (DeferRedirect w newUrl 100)
      end
    else
      handleError w (HTTPError (statusCode response) (statusMessage response) jobUrl)
  else
    emit (CallHeadersCB w);;
    updDownload (mJob wk).1 (IRunningDownload.set_headers (Some (headers response)));;
    if isHTMLHeader (headers response) then handleHTML w jobUrl
    else
      let chunkable := bool_decide (is_Some (content_range (headers response))) in
      job ← getJob (mJob wk);
      match IDownloadJob.responseCB job with
      | None => mret tt
      | Some responseCB =>
          let chunkSize := default (-1) (content_length (headers response)) in
          let fileSize := default chunkSize (content_range (headers response)) in
          (if chunkable then mret tt
           else updJob (mJob wk) (IDownloadJob.set_offset 0));;
          (if bool_decide (chunkSize ≠ IDownloadJob.size job)
           then updJob (mJob wk) (λ j,
                  IDownloadJob.set_confirmedSize chunkSize
                    (IDownloadJob.set_size chunkSize j))
           else mret tt);;
          let fileName := dispositionFileName (headers response) in
          emit (CallResponseCB w fileSize fileName chunkable);;
          callResponseCB responseCB (mJob wk).1 fileSize fileName chunkable
      end.

(** The callback of the request in [startDownload], up to the pipes: the
    response is kept and handled. *)
Definition onResponse (w : nat) (response : IncomingMessage) (jobUrl : string) : M unit :=
  updWorker w (set_mResponse (Some false));;
  handleResponse w response jobUrl.
End Response.

(** The body of the timer that [handleResponse] sets on a redirect. *)
Definition handleResponse_timeout (w : nat) (newUrl : string) : M unit :=
  updWorker w (λ wk, set_mRedirectsFollowed (mRedirectsFollowed wk + 1) wk);;
  updWorker w (set_mRedirected false);;
  wk ← getWorker w;
  updJob (mJob wk) (λ j,
    IDownloadJob.set_size (IDownloadJob.size j + IDownloadJob.received j) j);;
  updJob (mJob wk) (λ j, IDownloadJob.set_confirmedSize (IDownloadJob.size j) j);;
  updJob (mJob wk) (λ j,
    IDownloadJob.set_received 0
      (IDownloadJob.set_offset 0
         (IDownloadJob.set_confirmedReceived 0
            (IDownloadJob.set_confirmedOffset 0 j))));;
  updJob (mJob wk) (IDownloadJob.set_state Running);;
  updWorker w (set_mEnded false);;
  assignJob w (Some newUrl).

(** [handleData(data, str)]; [len] is [data.byteLength], [now] is
    [Date.now()] and [starving] the answer of the speed calculator, should
    the progress callback be called. *)
Definition handleData (w : nat) (len : Z) (now : Z) (starving : option bool) : M unit :=
  wk ← getWorker w;
  job ← getJob (mJob wk);
  if mEnded wk || terminal (IDownloadJob.state job) then mRequest_abort w
  else if mRedirected wk then mret tt
  else
    updWorker w (λ wk, set_mDataHistory (mDataHistory wk ++ [(now, len)]) wk);;
    updWorker w (λ wk, set_mBuffers (mBuffers wk ++ [len]) wk);;
    wk ← getWorker w;
    let bufferLength := bufferLength wk in
    if BUFFER_SIZE <=? bufferLength then
      if negb (mWriting wk) then
        updWorker w (set_mWriting true);;
        writeBuffer w;;
        emit (DeferWritten w);;
        emit (CallProgressCB w bufferLength);;
        makeProgressCB (mJob wk) starving now
      else if BUFFER_SIZE_CAP <=? bufferLength then
        match mResponse wk with
        | None => throw
        | Some _ => updWorker w (set_mResponse (Some true));; emit (ResponsePause w)
        end
      else mret tt
    else mret tt.

(** The continuation of the write that [handleData] starts. *)
Definition handleData_then (w : nat) : M unit :=
  updWorker w (set_mWriting false);;
  wk ← getWorker w;
  match mResponse wk with
  | None => throw
  | Some true => updWorker w (set_mResponse (Some false));; emit (ResponseResume w)
  | Some false => mret tt
  end.

(** The text before the first ['<'], [s.split('<')[0]], and what follows
    it up to the next one, [s.split('<')[1]]. *)
Fixpoint beforeLt (s : string) : string :=
  match s with
  | EmptyString => EmptyString
  | String c s' => if bool_decide (c = "<"%char) then EmptyString else String c (beforeLt s')
  end.

Fixpoint afterLt (s : string) : option string :=
  match s with
  | EmptyString => None
  | String c s' => if bool_decide (c = "<"%char) then Some (beforeLt s') else afterLt s'
  end.

Section Request.
(** Of the libraries: whether [url.parse(urlIn)] throws, and the error that
    [lib.request(...)] throws for the url and the referer of the request,
    if it throws (as [http.request] does for a protocol other than its
    own). *)
Variable url_parse_throws : string → bool.
Variable http_request_throws : string → option string → option Err.

(** [startDownload(job, jobUrl, cookies)]; [job] is always [this.mJob].
    Both [catch] clauses hand an error to [handleError]; [mRequest] is
    assigned only when [lib.request] has returned. *)
Definition startDownload (w : nat) (jobUrl : string) : M unit :=
  let urlIn := beforeLt jobUrl in
  let referer := afterLt jobUrl in
  if url_parse_throws urlIn
  then handleError w (JsError "No valid URL for this download" None)
  else
    wk ← getWorker w;
    job ← getJob (mJob wk);
    match http_request_throws urlIn referer with
    | Some err => handleError w err
    | None =>
        updWorker w (set_mRequest (Some false));;
        emit (Request w urlIn referer
                (IDownloadJob.offset job)
                (IDownloadJob.offset job + IDownloadJob.size job))
    end.

(** The error that [startDownload] hands to [handleError] instead of
    sending the request, if there is one. *)
Definition requestError (jobUrl : string) : option Err :=
  if url_parse_throws (beforeLt jobUrl)
  then Some (JsError "No valid URL for this download" None)
  else http_request_throws (beforeLt jobUrl) (afterLt jobUrl).
End Request.

(** The listener of ['end'] that [startDownload] installs. *)
Definition onEnd (w : nat) : M unit :=
  wk ← getWorker w;
  (if mRedirected wk then mret tt else handleComplete w);;
  mRequest_abort w.

(** The continuation of [startJob]: the worker is constructed, and its
    constructor asks for the url of the job. *)
Definition startJob_then (d j : nat) : M unit :=
  job ← getJob (d, j);
  match IDownloadJob.workerId job with
  | None => throw
  | Some w =>
      updDownload d (IRunningDownload.set_assembler (Some {| isClosed := false |}));;
      modify (λ m, set_workers (<[w :=
        {| mJob := (d, j); mRequest := None; mBuffers := []; mDataHistory := [];
           mEnded := false; mResponse := None; mWriting := false; mRestart := false;
           mRedirected := false; mRedirectsFollowed := 0 |}]> (workers m)) m);;
      modify (λ m, set_mBusyWorkers ({[w]} ∪ mBusyWorkers m) m);;
      emit (DeferAssignJob w)
  end.

(** ** DownloadManager: pause *)

(** [value.id] of an entry of the queue *)
Definition downloadId (m : DownloadManager) (r : nat) : option string :=
  IRunningDownload.id <$> downloads m !! r.

(** The second [forEach] of [pause]. *)
Fixpoint pause_chunks (d : nat) (idxs : list nat) (unfinishedChunks : list IChunk.t)
    : M (list IChunk.t) :=
  match idxs with
  | [] => mret unfinishedChunks
  | j :: idxs' =>
      chunk ← getJob (d, j);
      if (bool_decide (IDownloadJob.state chunk = Running)
          || bool_decide (IDownloadJob.state chunk = Paused))
         && (0 <? IDownloadJob.size chunk)
      then
        m ← get;
        match busyWorker m (IDownloadJob.workerId chunk) with
        | Some w => worker_pause w;; stopWorker (IDownloadJob.workerId chunk)
        | None => mret tt
        end;;
        pause_chunks d idxs'
          (unfinishedChunks ++
             [{| IChunk.received := IDownloadJob.confirmedReceived chunk;
                 IChunk.offset := IDownloadJob.confirmedOffset chunk;
                 IChunk.size := IDownloadJob.confirmedSize chunk;
                 IChunk.url := IDownloadJob.url chunk |}])
      else pause_chunks d idxs' unfinishedChunks
  end.

(** [pause(id)]; [None] is the [undefined] it returns for a download that
    is not queued. *)
Definition pause (id : string) : M (option (list IChunk.t)) :=
  m ← get;
  match list_find (λ value, downloadId m value = Some id) (mQueue m) with
  | None => mret None
  | Some (_, d) =>
      updDownload d (λ download,
        IRunningDownload.set_chunks
          (map (λ chunk, if decide (IDownloadJob.state chunk = Init)
                         then IDownloadJob.set_state Paused chunk else chunk)
               (IRunningDownload.chunks download)) download);;
      download ← getDownload d;
      unfinishedChunks ←
        pause_chunks d (seq 0 (length (IRunningDownload.chunks download))) [];
      modify (λ m, set_mQueue
                     (filter (λ value, downloadId m value ≠ Some id) (mQueue m)) m);;
      mret (Some unfinishedChunks)
  end.

(** ** DownloadManager: the end of a download *)

(** [s.endsWith(suffix)] *)
Definition endsWith (s suffix : string) : bool :=
  let n := String.length s in
  let k := String.length suffix in
  bool_decide (k ≤ n)%nat && (String.substring (n - k) k s =? suffix)%string.

Section Finish.
(** Of the libraries: [contentType.parse(header).type], or the error it
    throws, and [s.toLowerCase()]. *)
Variable contentType_parse : string → Err + string.
Variable toLowerCase : string → string.

(** What follows [download.assembler.close()] in [finishChunk].
    [finalPath] is [download.tempName] as it was when the last chunk
    ended; [closed] is the error of [close()], if it fails, and [fsResult]
    the error of the file operation (rename or remove), if one is made and
    fails. *)
Definition finishChunk_then (d : nat) (finalPath : string)
    (closed fsResult : option Err) : M unit :=
  download ← getDownload d;
  finalPath' ←
    match closed with
    | Some err => emit (FailedCB d err);; mret finalPath
    | None =>
        match IRunningDownload.finalName download with
        | Some resolvedPath =>
            emit (ProgressCB d (IRunningDownload.received download)
                    (IRunningDownload.size download) None None (Some resolvedPath));;
            (if bool_decide (IRunningDownload.tempName download ≠ resolvedPath) then
               emit (FsRename (IRunningDownload.tempName download) resolvedPath);;
               match fsResult with
               | Some err => emit (FailedCB d err)
               | None => mret tt
               end
             else mret tt);;
            mret resolvedPath
        | None =>
            match IRunningDownload.headers download ≫= content_type with
            | Some ct =>
                match contentType_parse ct with
                | inl err => emit (FailedCB d err)
                | inr type =>
                    if (type =? "text/html")%string
                       && negb (endsWith (toLowerCase (IRunningDownload.tempName download))
                                         ".html")
                    then
                      emit (FsRemove (IRunningDownload.tempName download));;
                      match fsResult with
                      | Some err =>
                          if bool_decide (code err ≠ Some "ENOENT"%string)
                          then emit (FailedCB d err) else mret tt
                      | None => mret tt
                      end
                    else mret tt
                end
            | None => mret tt
            end;;
            mret finalPath
        end
    end;
  download ← getDownload d;
  emit (FinishCB d
    {| IDownloadResult.filePath := finalPath';
       IDownloadResult.headers := IRunningDownload.headers download;
       IDownloadResult.unfinishedChunks :=
         map toStoredChunk
           (filter (λ chunk, IDownloadJob.state chunk = Paused)
                   (IRunningDownload.chunks download));
       IDownloadResult.hadErrors := IRunningDownload.error download;
       IDownloadResult.size :=
         Math_max (IRunningDownload.size download) (IRunningDownload.received download) |}).
End Finish.

(** ** DownloadManager: reserving a file name *)

(** How a promise settles. *)
Inductive Settled (A : Type) :=
| Resolved (a : A)
| Rejected (err : Err).
Arguments Resolved {A} a.
Arguments Rejected {A} err.

(** The error of an exclusive create on a path that exists. *)
Definition EEXIST : Err := JsError "file already exists" (Some "EEXIST"%string).

Section UnusedName.
(** Of the libraries: [input.replace(INVALID_FILENAME_RE, '_')],
    [path.extname], [path.basename(name, ext)] and [path.join]. *)
Variable sanitizeFilename : string → string.
Variable path_extname : string → string.
Variable path_basename : string → string → string.
Variable path_join : string → string → string.
(** The file system: [openFault] and [closeFault] give the error, if any,
    that opening (other than for an existing file) or closing a path
    fails with; the set of existing paths is threaded through. *)
Variable openFault : string → option Err.
Variable closeFault : string → option Err.

(** [fs.openAsync(fullPath, 'wx')] followed by [fs.closeAsync(newFd)],
    where [EBADF] on closing is ignored: the error that reaches the
    [catch] of the loop, if any, and the paths that exist afterwards. *)
Definition reserve (files : gset string) (fullPath : string) : option Err * gset string :=
  match openFault fullPath with
  | Some err => (Some err, files)
  | None =>
      if decide (fullPath ∈ files) then (Some EEXIST, files)
      else
        match closeFault fullPath with
        | Some err =>
            if bool_decide (code err ≠ Some "EBADF"%string)
            then (Some err, {[fullPath]} ∪ files)
            else (None, {[fullPath]} ∪ files)
        | None => (None, {[fullPath]} ∪ files)
        end
  end.

(** [`${base}.${counter}${ext}`] *)
Definition tryName (base ext : string) (counter : nat) : string :=
  (base ++ "." ++ pretty counter ++ ext)%string.

(** The function [loop] of [unusedName], with the variables [counter],
    [first] and [fullPath] it shares with its callbacks.  Every call opens
    a file; the fuel bounds the number of calls, and [None] says that the
    promise is not settled within it. *)
Fixpoint unusedName_loop (fuel : nat) (mFileExistsCB : option (string → FileExistsAnswer))
    (destination fileName base ext : string) (redownload : RedownloadMode)
    (files : gset string) (counter : nat) (first : bool) (fullPath : string)
    : option (Settled string * gset string) :=
  match fuel with
  | O => None
  | S fuel' =>
      match reserve files fullPath with
      | (None, files') => Some (Resolved fullPath, files')
      | (Some err, files') =>
          let counter := S counter in
          let fullPath := path_join destination (tryName base ext counter) in
          let loop first :=
            unusedName_loop fuel' mFileExistsCB destination fileName base ext
              redownload files' counter first fullPath in
          if bool_decide (code err = Some "EEXIST"%string) then
            match first, mFileExistsCB with
            | true, Some fileExistsCB =>
                match redownload with
                | Always => loop false
                | Never => Some (Rejected (AlreadyDownloaded fileName), files')
                | Replace => Some (Resolved fullPath, files')
                | Ask =>
                    match fileExistsCB fileName with
                    | Continue true => loop false
                    | Continue false => Some (Rejected UserCanceled, files')
                    | Fails err' => Some (Rejected err', files')
                    end
                end
            | _, _ => loop first
            end
          else Some (Rejected err, files')
      end
  end.

(** [unusedName(destination, fileName, redownload)] *)
Definition unusedName (fuel : nat) (mFileExistsCB : option (string → FileExistsAnswer))
    (destination fileName : string) (redownload : RedownloadMode)
    (files : gset string) : option (Settled string * gset string) :=
  let fileName := sanitizeFilename fileName in
  let fileName := if (fileName =? EmptyString)%string then "unnamed"%string else fileName in
  let ext := path_extname fileName in
  let base := path_basename fileName ext in
  unusedName_loop fuel mFileExistsCB destination fileName base ext redownload
    files 0 true (path_join destination fileName).
End UnusedName.

(** ** DownloadManager: enqueue *)

(** The double quote character, as a string. *)
Definition dquote : string :=
  String (Ascii false true false false false true false false) EmptyString.

(** [initChunk(download)]; [fileNameFromURL] is the value its closure
    variable takes when the url of the job is resolved. *)
Definition initChunk (fileNameFromURL : option string) : IDownloadJob.t :=
  {| IDownloadJob.url := FirstResolved;
     IDownloadJob.confirmedOffset := 0;
     IDownloadJob.confirmedSize := mMinChunkSize;
     IDownloadJob.confirmedReceived := 0;
     IDownloadJob.offset := 0;
     IDownloadJob.state := Init;
     IDownloadJob.received := 0;
     IDownloadJob.size := mMinChunkSize;
     IDownloadJob.workerId := None;
     IDownloadJob.errorCB := Some CancelDownload;
     IDownloadJob.responseCB := Some (UpdateDownload fileNameFromURL) |}.

(** What [enqueue] has done when it returns: its promise is rejected
    already, or it waits for the directory and the reserved file name, with
    the destination and the name template that were computed. *)
Inductive Enqueued :=
| EnqueueRejected (err : Err)
| EnqueuePending (destPath nameTemplate : string).

Section Enqueue.
(** Of the libraries: [decodeURI(path.basename(url.parse(baseUrl).pathname))],
    [None] when one of them throws; [path.join]; [path.basename(p)]. *)
Variable nameFromUrl : string → option string.
Variable path_join : string → string → string.
Variable path_basename1 : string → string.

(** [enqueue(id, urls, fileName, progressCB, destinationPath, redownload)],
    up to the promise chain it returns. *)
Definition enqueue (id : string) (urls : list string) (fileName : option string)
    (destinationPath : option string) (redownload : RedownloadMode) : M Enqueued :=
  match urls with
  | [] => mret (EnqueueRejected (JsError "No download urls" None))
  | url0 :: _ =>
      let baseUrl := beforeLt url0 in
      match (if truthy fileName then fileName else nameFromUrl baseUrl) with
      | None =>
          mret (EnqueueRejected
                  (DataInvalid ("failed to parse url " ++ dquote ++ baseUrl ++ dquote)%string))
      | Some nameTemplate =>
          m ← get;
          mret (EnqueuePending
                  (if truthy destinationPath
                   then default (mDownloadPath m) destinationPath
                   else mDownloadPath m)
                  nameTemplate)
      end
  end.

(** [nameTemplate || 'deferred'], the name that [enqueue] asks
    [unusedName] to reserve. *)
Definition orDeferred (nameTemplate : string) : string :=
  if truthy (Some nameTemplate) then nameTemplate else "deferred"%string.

(** The continuation of [enqueue] once the name is reserved as
    [filePath]: the download is built and queued.  [now] is the date,
    [fileNameFromURL] as in [initChunk]; the result is the reference of
    the new download. *)
Definition enqueue_then (id : string) (urls : list string) (fileName : option string)
    (destPath nameTemplate : string) (redownload : RedownloadMode)
    (now : Z) (fileNameFromURL : option string) (filePath : string) : M nat :=
  m ← get;
  let d := fresh (dom (downloads m)) in
  let download :=
    {| IRunningDownload.id := id;
       IRunningDownload.origName := nameTemplate;
       IRunningDownload.tempName := filePath;
       IRunningDownload.finalName :=
         match fileName with
         | Some _ => Some (path_join destPath (path_basename1 filePath))
         | None => None
         end;
       IRunningDownload.error := false;
       IRunningDownload.urls := urls;
       IRunningDownload.redownload := redownload;
       IRunningDownload.started := Some now;
       IRunningDownload.received := 0;
       IRunningDownload.size := None;
       IRunningDownload.headers := None;
       IRunningDownload.assembler := None;
       IRunningDownload.assemblerProm := false;
       IRunningDownload.chunks := [initChunk fileNameFromURL];
       IRunningDownload.chunkable := None |} in
  modify (λ m, set_downloads (<[d := download]> (downloads m)) m);;
  modify (λ m, set_mQueue (mQueue m ++ [d]) m);;
  emit (ProgressCB d 0 None
          (Some (map toStoredChunk (IRunningDownload.chunks download))) None
          (Some filePath));;
  tickQueue;;
  mret d.
End Enqueue.


(** * Properties *)

(** ** Running a method *)

(** [wp c Q m]: from [m], the method [c] returns, with a result and a state
    that satisfy [Q]. *)
Definition wp {A} (c : M A) (Q : A → DownloadManager → Prop) (m : DownloadManager) : Prop :=
  ∃ a m', c m = Some (a, m') ∧ Q a m'.

Lemma wp_ret {A} (a : A) Q m : Q a m → wp (mret a) Q m.
Proof. intros H. by exists a, m. Qed.

Lemma wp_bind {A B} (c : M A) (f : A → M B) Q m :
  wp c (λ a m1, wp (f a) Q m1) m → wp (c ≫= f) Q m.
Proof.
  intros (a & m1 & Hc & b & m2 & Hf & HQ). exists b, m2. split; [|done].
  unfold mbind, M_bind. by rewrite Hc.
Qed.

Lemma wp_mono {A} (c : M A) (Q Q' : A → DownloadManager → Prop) m :
  wp c Q m → (∀ a m', Q a m' → Q' a m') → wp c Q' m.
Proof. intros (a & m' & Hc & HQ) H. exists a, m'. auto. Qed.

Lemma wp_get Q m : Q m m → wp get Q m.
Proof. intros H. by exists m, m. Qed.

Lemma wp_modify f Q m : Q tt (f m) → wp (modify f) Q m.
Proof. intros H. by exists tt, (f m). Qed.

Lemma wp_emit e Q m : Q tt (logged e m) → wp (emit e) Q m.
Proof. apply wp_modify. Qed.

Lemma wp_updDownload d f Q m : Q tt (withDownload d f m) → wp (updDownload d f) Q m.
Proof. apply wp_modify. Qed.

Lemma wp_updJob r f Q m : Q tt (withJob r f m) → wp (updJob r f) Q m.
Proof. apply wp_modify. Qed.

Lemma wp_updWorker w f Q m : Q tt (withWorker w f m) → wp (updWorker w f) Q m.
Proof. apply wp_modify. Qed.

Lemma wp_getDownload d dl Q m :
  downloads m !! d = Some dl → Q dl m → wp (getDownload d) Q m.
Proof. intros H HQ. exists dl, m. unfold getDownload. by rewrite H. Qed.

Lemma wp_getJob r job Q m : jobAt m r = Some job → Q job m → wp (getJob r) Q m.
Proof. intros H HQ. exists job, m. unfold getJob. by rewrite H. Qed.

Lemma wp_getWorker w wk Q m :
  workers m !! w = Some wk → Q wk m → wp (getWorker w) Q m.
Proof. intros H HQ. exists wk, m. unfold getWorker. by rewrite H. Qed.

Lemma wp_run {A} (c : M A) Q m a m' : c m = Some (a, m') → Q a m' → wp c Q m.
Proof. intros. by exists a, m'. Qed.

Lemma wp_inv {A} (c : M A) Q m a m' : wp c Q m → c m = Some (a, m') → Q a m'.
Proof. intros (a0 & m0 & H & HQ) H'. congruence. Qed.

(** One step of a method: the bind is opened and a primitive is run. *)
Ltac wp_step :=
  lazymatch goal with
  | |- wp (_ ≫= _) _ _ => apply wp_bind
  | |- wp (mret _) _ _ => apply wp_ret
  | |- wp get _ _ => apply wp_get
  | |- wp (modify _) _ _ => apply wp_modify
  | |- wp (emit _) _ _ => apply wp_emit
  | |- wp (updDownload _ _) _ _ => apply wp_updDownload
  | |- wp (updJob _ _) _ _ => apply wp_updJob
  | |- wp (updWorker _ _) _ _ => apply wp_updWorker
  end.
Ltac wp_steps := repeat wp_step.

(** ** The store *)

Lemma jobAt_Some m d j dl job :
  downloads m !! d = Some dl → IRunningDownload.chunks dl !! j = Some job →
  jobAt m (d, j) = Some job.
Proof. intros H1 H2. unfold jobAt. simpl. by rewrite H1. Qed.

Lemma jobAt_inv m r job :
  jobAt m r = Some job →
  ∃ dl, downloads m !! r.1 = Some dl ∧ IRunningDownload.chunks dl !! r.2 = Some job.
Proof. unfold jobAt. destruct (downloads m !! r.1) as [dl|]; simpl; [eauto|done]. Qed.

Lemma jobAt_logged e m r : jobAt (logged e m) r = jobAt m r.
Proof. done. Qed.

Lemma jobAt_withWorker w f m r : jobAt (withWorker w f m) r = jobAt m r.
Proof. done. Qed.

Lemma jobAt_withJob r f m r' :
  jobAt (withJob r f m) r' = if decide (r = r') then f <$> jobAt m r' else jobAt m r'.
Proof.
  unfold jobAt, withJob, withDownload. simpl. destruct r as [d j], r' as [d' j']. simpl.
  rewrite lookup_alter. destruct (decide (d = d')) as [->|Hd].
  - destruct (downloads m !! d') as [dl|]; simpl.
    + rewrite list_lookup_alter. destruct (decide (j = j')) as [->|Hj].
      * by rewrite decide_True.
      * rewrite decide_False by congruence. done.
    + by case_decide.
  - rewrite decide_False by congruence. done.
Qed.

Lemma jobAt_withJob_eq r f m : jobAt (withJob r f m) r = f <$> jobAt m r.
Proof. rewrite jobAt_withJob. by rewrite decide_True. Qed.

Lemma jobAt_withJob_ne r f m r' : r ≠ r' → jobAt (withJob r f m) r' = jobAt m r'.
Proof. intros. rewrite jobAt_withJob. by rewrite decide_False. Qed.

Lemma jobAt_withDownload d f m r :
  (∀ dl, IRunningDownload.chunks (f dl) = IRunningDownload.chunks dl) →
  jobAt (withDownload d f m) r = jobAt m r.
Proof.
  intros Hf. unfold jobAt, withDownload. simpl. rewrite lookup_alter.
  case_decide; [subst|done]. destruct (downloads m !! r.1); simpl; [|done]. by rewrite Hf.
Qed.

Lemma downloads_withDownload_eq d f m :
  downloads (withDownload d f m) !! d = f <$> downloads m !! d.
Proof. apply lookup_alter_eq. Qed.

Lemma downloads_withDownload_ne d f m d' :
  d ≠ d' → downloads (withDownload d f m) !! d' = downloads m !! d'.
Proof. intros. by apply lookup_alter_ne. Qed.

Lemma workers_withWorker_eq w f m : workers (withWorker w f m) !! w = f <$> workers m !! w.
Proof. apply lookup_alter_eq. Qed.

Lemma workers_withWorker_ne w f m w' :
  w ≠ w' → workers (withWorker w f m) !! w' = workers m !! w'.
Proof. intros. by apply lookup_alter_ne. Qed.

(** ** What the methods keep *)

(** The scheduler only starts chunks: a job is as before, or it was in
    state init and is now running under a worker id. *)
Definition job_ticked (c c' : IDownloadJob.t) : Prop :=
  c' = c ∨
  (IDownloadJob.state c = Init ∧
   ∃ w, c' = IDownloadJob.set_workerId (Some w) (IDownloadJob.set_state Running c)).

Definition download_ticked (dl dl' : IRunningDownload.t) : Prop :=
  ∃ ap cs',
    dl' = IRunningDownload.set_assemblerProm ap (IRunningDownload.set_chunks cs' dl)
    ∧ Forall2 job_ticked (IRunningDownload.chunks dl) cs'.

Record ticked (m m' : DownloadManager) : Prop := {
  ticked_maxWorkers : mMaxWorkers m' = mMaxWorkers m;
  ticked_maxChunks : mMaxChunks m' = mMaxChunks m;
  ticked_queue : mQueue m' = mQueue m;
  ticked_busy : mBusyWorkers m' = mBusyWorkers m;
  ticked_slow : mSlowWorkers m' = mSlowWorkers m;
  ticked_workers : workers m' = workers m;
  ticked_trace : trace m `prefix_of` trace m';
  ticked_downloads :
    ∀ r, option_Forall2 download_ticked (downloads m !! r) (downloads m' !! r);
}.

(** The methods that run when a worker ends keep the data of every job:
    only its state and worker id change, no job goes back to init, a job
    with bytes left does not become finished, and a started job keeps its
    worker id. *)
Definition job_evolves (c c' : IDownloadJob.t) : Prop :=
  ∃ s w,
    c' = IDownloadJob.set_workerId w (IDownloadJob.set_state s c)
    ∧ (s = Init → IDownloadJob.state c = Init)
    ∧ (0 < IDownloadJob.size c → s = Finished → IDownloadJob.state c = Finished)
    ∧ (IDownloadJob.state c ≠ Init → w = IDownloadJob.workerId c).

Definition download_evolves (dl dl' : IRunningDownload.t) : Prop :=
  ∃ e ap cs',
    dl' = IRunningDownload.set_assemblerProm ap
            (IRunningDownload.set_error e (IRunningDownload.set_chunks cs' dl))
    ∧ Forall2 job_evolves (IRunningDownload.chunks dl) cs'.

(** A worker keeps its job, and a worker that has ended stays so. *)
Definition worker_evolves (wk wk' : DownloadWorker) : Prop :=
  mJob wk' = mJob wk ∧ (mEnded wk = true → mEnded wk' = true).

Record evolves (m m' : DownloadManager) : Prop := {
  evolves_maxWorkers : mMaxWorkers m' = mMaxWorkers m;
  evolves_queue : mQueue m' = mQueue m;
  evolves_busy : mBusyWorkers m' ⊆ mBusyWorkers m;
  evolves_trace : trace m `prefix_of` trace m';
  evolves_workers :
    ∀ w, option_Forall2 worker_evolves (workers m !! w) (workers m' !! w);
  evolves_downloads :
    ∀ r, option_Forall2 download_evolves (downloads m !! r) (downloads m' !! r);
}.

Lemma Forall2_refl_on {A} (R : A → A → Prop) `{!Reflexive R} (l : list A) : Forall2 R l l.
Proof. induction l; constructor; auto. Qed.

#[global] Instance job_ticked_refl : Reflexive job_ticked.
Proof. intros c. by left. Qed.

#[global] Instance job_ticked_trans : Transitive job_ticked.
Proof.
  intros c c' c'' [->|[Hi [w ->]]] H; [done|].
  destruct H as [->|[Hi' _]]; [right; eauto|]. by destruct c.
Qed.

#[global] Instance download_ticked_refl : Reflexive download_ticked.
Proof.
  intros dl. exists (IRunningDownload.assemblerProm dl), (IRunningDownload.chunks dl).
  split; [by destruct dl | apply (Forall2_refl_on job_ticked)].
Qed.

#[global] Instance download_ticked_trans : Transitive download_ticked.
Proof.
  intros dl dl' dl'' (ap & cs' & -> & H1) (ap' & cs'' & -> & H2). simpl in H2.
  exists ap', cs''. split; [done|]. by etrans.
Qed.

#[global] Instance ticked_refl : Reflexive ticked.
Proof. intros m. split; try done; intros r; reflexivity. Qed.

#[global] Instance ticked_trans : Transitive ticked.
Proof.
  intros m m' m'' H1 H2. split.
  - rewrite (ticked_maxWorkers _ _ H2). apply H1.
  - rewrite (ticked_maxChunks _ _ H2). apply H1.
  - rewrite (ticked_queue _ _ H2). apply H1.
  - rewrite (ticked_busy _ _ H2). apply H1.
  - rewrite (ticked_slow _ _ H2). apply H1.
  - rewrite (ticked_workers _ _ H2). apply H1.
  - etrans; [apply H1 | apply H2].
  - intros r. etrans; [apply H1 | apply H2].
Qed.

#[global] Instance job_evolves_refl : Reflexive job_evolves.
Proof.
  intros c. exists (IDownloadJob.state c), (IDownloadJob.workerId c). by destruct c.
Qed.

#[global] Instance job_evolves_trans : Transitive job_evolves.
Proof.
  intros c c' c'' (s & w & -> & H1 & H2 & H3) (s' & w' & -> & H1' & H2' & H3').
  simpl in *. exists s', w'. split; [by destruct c|]. split_and!.
  - intros ->. auto.
  - intros Hsz ->. auto.
  - intros Hi. rewrite H3' by (intros ->; auto). auto.
Qed.

Lemma job_ticked_evolves c c' : job_ticked c c' → job_evolves c c'.
Proof.
  intros [->|[Hi [w ->]]]; [reflexivity|].
  exists Running, (Some w). split_and!; done.
Qed.

#[global] Instance download_evolves_refl : Reflexive download_evolves.
Proof.
  intros dl. exists (IRunningDownload.error dl), (IRunningDownload.assemblerProm dl),
    (IRunningDownload.chunks dl).
  split; [by destruct dl | apply (Forall2_refl_on job_evolves)].
Qed.

#[global] Instance download_evolves_trans : Transitive download_evolves.
Proof.
  intros dl dl' dl'' (e & ap & cs' & -> & H1) (e' & ap' & cs'' & -> & H2). simpl in H2.
  exists e', ap', cs''. split; [done|]. by etrans.
Qed.

Lemma download_ticked_evolves dl dl' : download_ticked dl dl' → download_evolves dl dl'.
Proof.
  intros (ap & cs' & -> & H). exists (IRunningDownload.error dl), ap, cs'.
  split; [by destruct dl|]. eapply Forall2_impl; [done|]. apply job_ticked_evolves.
Qed.

Lemma workers_same_job (ws : gmap nat DownloadWorker) w :
  option_Forall2 worker_evolves (ws !! w) (ws !! w).
Proof. by destruct (ws !! w); constructor. Qed.

#[global] Instance evolves_refl : Reflexive evolves.
Proof.
  intros m. split; try done; intros r; try reflexivity. apply workers_same_job.
Qed.

#[global] Instance evolves_trans : Transitive evolves.
Proof.
  intros m m' m'' H1 H2. split.
  - rewrite (evolves_maxWorkers _ _ H2). apply H1.
  - rewrite (evolves_queue _ _ H2). apply H1.
  - etrans; [apply H2 | apply H1].
  - etrans; [apply H1 | apply H2].
  - intros w. pose proof (evolves_workers _ _ H1 w) as E1.
    pose proof (evolves_workers _ _ H2 w) as E2.
    destruct E1 as [? ? [Ha Hb]|]; inversion E2 as [? ? [Hc Hd]|]; subst; constructor.
    split; [congruence|auto].
  - intros r. etrans; [apply H1 | apply H2].
Qed.

Lemma ticked_evolves m m' : ticked m m' → evolves m m'.
Proof.
  intros H. split; try apply H.
  - by rewrite (ticked_busy _ _ H).
  - intros w. rewrite (ticked_workers _ _ H). apply workers_same_job.
  - intros r. destruct (ticked_downloads _ _ H r); constructor.
    by apply download_ticked_evolves.
Qed.

(** The single updates of the store and the relations. *)

Ltac frame :=
  split; simpl; try done; try (intros ?; reflexivity);
  try (intros ?; apply workers_same_job); try (by apply prefix_app_r).

Lemma ticked_logged e m : ticked m (logged e m).
Proof. frame. Qed.

Lemma ticked_set_mNextId n m : ticked m (set_mNextId n m).
Proof. frame. Qed.

Lemma chunks_altered (R : relation IDownloadJob.t) `{!Reflexive R} f j cs :
  (∀ c, cs !! j = Some c → R c (f c)) → Forall2 R cs (alter f j cs).
Proof.
  intros H. apply Forall2_alter_r; [apply (Forall2_refl_on R)|].
  intros x y Hx Hy _. rewrite Hx in Hy. injection Hy as <-. auto.
Qed.

Lemma ticked_withJob r f m :
  (∀ c, jobAt m r = Some c → job_ticked c (f c)) → ticked m (withJob r f m).
Proof.
  intros H. frame. intros d. unfold withJob, withDownload. simpl.
  rewrite lookup_alter. case_decide; [subst|reflexivity].
  destruct (downloads m !! r.1) as [dl|] eqn:Hd; constructor.
  exists (IRunningDownload.assemblerProm dl), (alter f r.2 (IRunningDownload.chunks dl)).
  split; [by destruct dl|]. apply chunks_altered; [apply _|].
  intros c Hc. apply H. unfold jobAt. by rewrite Hd.
Qed.

Lemma ticked_assemblerProm d b m :
  ticked m (withDownload d (IRunningDownload.set_assemblerProm b) m).
Proof.
  frame. intros d'. unfold withDownload. simpl.
  rewrite lookup_alter. case_decide; [subst d'|reflexivity].
  destruct (downloads m !! d) as [dl|]; constructor.
  exists b, (IRunningDownload.chunks dl). split; [by destruct dl|].
  apply (Forall2_refl_on job_ticked).
Qed.

Lemma evolves_logged e m : evolves m (logged e m).
Proof. apply ticked_evolves, ticked_logged. Qed.

Lemma evolves_withJob r f m :
  (∀ c, jobAt m r = Some c → job_evolves c (f c)) → evolves m (withJob r f m).
Proof.
  intros H. frame. intros d. unfold withJob, withDownload. simpl.
  rewrite lookup_alter. case_decide; [subst|reflexivity].
  destruct (downloads m !! r.1) as [dl|] eqn:Hd; constructor.
  exists (IRunningDownload.error dl), (IRunningDownload.assemblerProm dl),
    (alter f r.2 (IRunningDownload.chunks dl)).
  split; [by destruct dl|]. apply chunks_altered; [apply _|].
  intros c Hc. apply H. unfold jobAt. by rewrite Hd.
Qed.

Lemma evolves_error d b m : evolves m (withDownload d (IRunningDownload.set_error b) m).
Proof.
  frame. intros d'. unfold withDownload. simpl.
  rewrite lookup_alter. case_decide; [subst d'|reflexivity].
  destruct (downloads m !! d) as [dl|]; constructor.
  exists b, (IRunningDownload.assemblerProm dl), (IRunningDownload.chunks dl).
  split; [by destruct dl|]. apply (Forall2_refl_on job_evolves).
Qed.

Lemma evolves_withWorker w f m :
  (∀ wk, worker_evolves wk (f wk)) → evolves m (withWorker w f m).
Proof.
  intros H. frame. intros w'. unfold withWorker. simpl. rewrite lookup_alter.
  case_decide; [subst w'|apply workers_same_job].
  destruct (workers m !! w); constructor. apply H.
Qed.

Lemma evolves_busy_remove w m :
  evolves m (set_mBusyWorkers (mBusyWorkers m ∖ {[w]}) m).
Proof.
  frame. by apply subseteq_difference_l.
Qed.

Lemma evolves_set_mSlowWorkers v m : evolves m (set_mSlowWorkers v m).
Proof.
  frame.
Qed.

(** ** The scheduler *)

Lemma withJob_withJob r f g m : withJob r f (withJob r g m) = withJob r (f ∘ g) m.
Proof.
  unfold withJob, withDownload, set_downloads. destruct m; simpl. f_equal.
  rewrite alter_alter_eq. apply alter_ext. intros dl _. simpl.
  by rewrite list_alter_alter_eq.
Qed.

Lemma filter_alter_length {A} (P : A → Prop) `{!∀ x, Decision (P x)} (f : A → A)
    (l : list A) j c :
  l !! j = Some c → P c → ¬ P (f c) →
  S (length (filter P (alter f j l))) = length (filter P l).
Proof.
  revert j. induction l as [|a l IH]; intros [|j] Hj Hc Hc'; simplify_eq/=.
  - rewrite filter_cons_False by done. rewrite filter_cons_True by done. done.
  - destruct (decide (P a)).
    + rewrite !filter_cons_True by done. simpl. f_equal. eauto.
    + rewrite !filter_cons_False by done. eauto.
Qed.

Lemma list_find_filter_pos {A} (P : A → Prop) `{!∀ x, Decision (P x)} (l : list A) :
  (0 < length (filter P l))%nat → is_Some (list_find P l).
Proof.
  intros Hpos. destruct (list_find P l) eqn:E; [eauto|].
  apply list_find_None in E.
  assert (filter P l = []) as Hnil; [|rewrite Hnil in Hpos; simpl in Hpos; lia].
  clear Hpos.
  induction l as [|a l IH]; [done|]. inversion E; subst.
  rewrite filter_cons_False by done. auto.
Qed.

Lemma startJob_spec m d j dl :
  downloads m !! d = Some dl →
  wp (startJob d j) (λ _ m', ticked m m' ∧
      ∃ ap, downloads m' !! d = Some (IRunningDownload.set_assemblerProm ap dl)) m.
Proof.
  intros Hd. unfold startJob. wp_step. eapply wp_getDownload; [done|].
  destruct (IRunningDownload.assemblerProm dl) eqn:Hap; wp_steps.
  - split; [apply ticked_logged|]. exists true. simpl. rewrite Hd. f_equal.
    destruct dl; simpl in *; by subst.
  - split.
    + etrans; [|apply ticked_logged]. etrans; [|apply ticked_assemblerProm].
      apply ticked_logged.
    + exists true. simpl. by rewrite lookup_alter_eq, Hd.
Qed.

Lemma startWorker_spec m d dl :
  downloads m !! d = Some dl → (0 < unstarted dl)%nat →
  wp (startWorker d) (λ _ m', ticked m m' ∧
      ∃ dl', downloads m' !! d = Some dl' ∧ S (unstarted dl') = unstarted dl) m.
Proof.
  intros Hd Hpos. unfold startWorker.
  destruct (list_find_filter_pos _ _ Hpos) as [[j c] Hf].
  pose proof Hf as Hf'. apply list_find_Some in Hf' as (Hj & Hc & _).
  wp_steps. eapply wp_getDownload; [done|]. rewrite Hf. wp_steps.
  rewrite withJob_withJob.
  set (m1 := withJob _ _ _).
  assert (Hm1 : ticked m m1).
  { etrans; [|apply ticked_withJob]. 
    - etrans; [apply ticked_set_mNextId | apply ticked_logged].
    - intros c0 Hc0. rewrite jobAt_logged in Hc0. 
      assert (c0 = c) as ->.
      { erewrite jobAt_Some in Hc0 by done. congruence. }
      right. split; [done|]. by eexists. }
  assert (Hd1 : downloads m1 !! d = Some (IRunningDownload.set_chunks
     (alter (IDownloadJob.set_workerId (Some (mNextId m)) ∘ IDownloadJob.set_state Running)
        j (IRunningDownload.chunks dl)) dl)).
  { unfold m1, withJob, withDownload. simpl. by rewrite lookup_alter_eq, Hd. }
  eapply wp_mono; [by apply startJob_spec|]. simpl.
  intros _ m' [Ht [ap Hd']]. split; [by etrans|].
  eexists. split; [done|]. unfold unstarted. simpl.
  by apply filter_alter_length with (c := c).
Qed.

Lemma tickQueue_download_spec n : ∀ m d dl freeSpots,
  downloads m !! d = Some dl → (n ≤ unstarted dl)%nat →
  wp (tickQueue_download d n freeSpots) (λ _ m', ticked m m') m.
Proof.
  induction n as [|n IH]; intros m d dl freeSpots Hd Hn; simpl.
  - by apply wp_ret.
  - case_decide; [|by apply wp_ret]. wp_step.
    eapply wp_mono; [apply startWorker_spec; [done|lia]|]. simpl.
    intros _ m1 [Ht (dl1 & Hd1 & Hu)].
    eapply wp_mono; [eapply IH; [done|lia]|]. simpl.
    intros _ m2 Ht2. by etrans.
Qed.

Lemma tickQueue_loop_spec queue : ∀ m freeSpots,
  (∀ r, r ∈ queue → is_Some (downloads m !! r)) →
  wp (tickQueue_loop queue freeSpots) (λ _ m', ticked m m') m.
Proof.
  induction queue as [|d queue IH]; intros m freeSpots Hq; simpl.
  - by apply wp_ret.
  - case_decide; [|by apply wp_ret]. wp_step.
    destruct (Hq d) as [dl Hd]; [by left|].
    eapply wp_getDownload; [done|]. wp_step.
    eapply wp_mono; [by eapply tickQueue_download_spec|]. simpl.
    intros f' m1 Ht. eapply wp_mono; [apply IH|].
    + intros r Hr. destruct (Hq r) as [dlr Hdr]; [by right|].
      pose proof (ticked_downloads _ _ Ht r) as E. rewrite Hdr in E.
      inversion E; eauto.
    + simpl. intros _ m2 Ht2. by etrans.
Qed.

Lemma tickQueue_spec m :
  (∀ r, r ∈ mQueue m → is_Some (downloads m !! r)) →
  wp tickQueue (λ _ m', ticked m m') m.
Proof.
  intros Hq. unfold tickQueue. wp_steps. by apply tickQueue_loop_spec.
Qed.

(** ** Well-formed stores *)

(** The references of the queue name downloads. *)
Definition queue_ok (m : DownloadManager) : Prop :=
  ∀ r, r ∈ mQueue m → is_Some (downloads m !! r).

(** The worker [w] exists, its job exists, and the download of the job has
    its assembler: a worker is only constructed by [startJob_then]. *)
Definition worker_ok (m : DownloadManager) (w : nat) : Prop :=
  ∃ wk dl, workers m !! w = Some wk ∧ downloads m !! (mJob wk).1 = Some dl
    ∧ is_Some (IRunningDownload.chunks dl !! (mJob wk).2)
    ∧ is_Some (IRunningDownload.assembler dl).

(** A worker of the table is stored under the worker id of its job, which
    was started: [startWorker] sets the id and [startJob_then] stores the
    worker under it. *)
Definition busy_ok (m : DownloadManager) (w : nat) : Prop :=
  ∃ wk job, workers m !! w = Some wk ∧ jobAt m (mJob wk) = Some job
    ∧ IDownloadJob.workerId job = Some w ∧ IDownloadJob.state job ≠ Init.

Record wf (m : DownloadManager) : Prop := {
  wf_queue : queue_ok m;
  wf_busy : ∀ w, w ∈ mBusyWorkers m → worker_ok m w;
  wf_ids : ∀ w, w ∈ mBusyWorkers m → busy_ok m w;
}.

Lemma download_evolves_assembler dl dl' :
  download_evolves dl dl' → IRunningDownload.assembler dl' = IRunningDownload.assembler dl.
Proof. by intros (e & ap & cs' & -> & _). Qed.

Lemma download_evolves_id dl dl' :
  download_evolves dl dl' → IRunningDownload.id dl' = IRunningDownload.id dl.
Proof. by intros (e & ap & cs' & -> & _). Qed.

Lemma download_evolves_chunks dl dl' :
  download_evolves dl dl' →
  Forall2 job_evolves (IRunningDownload.chunks dl) (IRunningDownload.chunks dl').
Proof. by intros (e & ap & cs' & -> & H). Qed.

Lemma evolves_download m m' d dl :
  evolves m m' → downloads m !! d = Some dl →
  ∃ dl', downloads m' !! d = Some dl' ∧ download_evolves dl dl'.
Proof.
  intros H Hd. pose proof (evolves_downloads _ _ H d) as E. rewrite Hd in E.
  inversion E; eauto.
Qed.

Lemma evolves_jobAt m m' r job :
  evolves m m' → jobAt m r = Some job →
  ∃ job', jobAt m' r = Some job' ∧ job_evolves job job'.
Proof.
  intros H Hj. apply jobAt_inv in Hj as (dl & Hd & Hc).
  destruct (evolves_download _ _ _ _ H Hd) as (dl' & Hd' & He).
  apply download_evolves_chunks in He.
  destruct (Forall2_lookup_l _ _ _ _ _ He Hc) as (job' & Hc' & Hjob).
  exists job'. split; [|done]. unfold jobAt. by rewrite Hd'.
Qed.

Lemma evolves_queue_ok m m' : evolves m m' → queue_ok m → queue_ok m'.
Proof.
  intros H Hq r Hr. rewrite (evolves_queue _ _ H) in Hr.
  destruct (Hq r Hr) as [dl Hd]. destruct (evolves_download _ _ _ _ H Hd) as (dl' & -> & _).
  eauto.
Qed.

Lemma evolves_worker_ok m m' w : evolves m m' → worker_ok m w → worker_ok m' w.
Proof.
  intros H (wk & dl & Hw & Hd & [job Hc] & Ha).
  pose proof (evolves_workers _ _ H w) as E. rewrite Hw in E.
  inversion E as [? wk' [Hj _]|]; subst.
  destruct (evolves_download _ _ _ _ H Hd) as (dl' & Hd' & He).
  exists wk', dl'. rewrite Hj. split_and!; try done.
  - apply download_evolves_chunks in He.
    destruct (Forall2_lookup_l _ _ _ _ _ He Hc) as (job' & Hc' & _). eauto.
  - by rewrite (download_evolves_assembler _ _ He).
Qed.

Lemma evolves_busy_ok m m' w : evolves m m' → busy_ok m w → busy_ok m' w.
Proof.
  intros H (wk & job & Hw & Hj & Hid & Hst).
  pose proof (evolves_workers _ _ H w) as E. rewrite Hw in E.
  inversion E as [? wk' [Hjob _]|]; subst.
  destruct (evolves_jobAt _ _ _ _ H Hj) as (job' & Hj' & s & w' & -> & Hs & _ & Hw').
  exists wk', (IDownloadJob.set_workerId w' (IDownloadJob.set_state s job)).
  rewrite Hjob. split_and!; try done.
  - simpl. by rewrite Hw'.
  - simpl. intros ->. auto.
Qed.

Lemma evolves_wf m m' : evolves m m' → wf m → wf m'.
Proof.
  intros H [Hq Hb Hi]. split; [by eapply evolves_queue_ok| |].
  - intros w Hw. eapply evolves_worker_ok; [done|]. apply Hb. by apply (evolves_busy _ _ H).
  - intros w Hw. eapply evolves_busy_ok; [done|]. apply Hi. by apply (evolves_busy _ _ H).
Qed.

(** ** The end of a chunk *)

(** The state that [stopWorker(id)] leaves. *)
Definition stopped (id : option nat) (m : DownloadManager) : DownloadManager :=
  match id with
  | Some w =>
      let m1 := logged (SpeedStopCounter id) m in
      let m2 := set_mBusyWorkers (mBusyWorkers m1 ∖ {[w]}) m1 in
      set_mSlowWorkers (delete w (mSlowWorkers m2)) m2
  | None => logged (SpeedStopCounter id) m
  end.

Lemma stopWorker_run id m : stopWorker id m = Some (tt, stopped id m).
Proof. by destruct id. Qed.

Lemma wp_stopWorker id Q m : Q tt (stopped id m) → wp (stopWorker id) Q m.
Proof. intros. eapply wp_run; [apply stopWorker_run|done]. Qed.

Lemma evolves_stopped id m : evolves m (stopped id m).
Proof.
  destruct id as [w|]; simpl; [|apply evolves_logged].
  etrans; [apply evolves_logged|]. etrans; [apply evolves_busy_remove|].
  apply evolves_set_mSlowWorkers.
Qed.

Lemma jobAt_stopped id m r : jobAt (stopped id m) r = jobAt m r.
Proof. by destruct id. Qed.

Lemma downloads_stopped id m : downloads (stopped id m) = downloads m.
Proof. by destruct id. Qed.

Lemma workers_stopped id m : workers (stopped id m) = workers m.
Proof. by destruct id. Qed.

Lemma trace_stopped id m : trace (stopped id m) = trace m ++ [SpeedStopCounter id].
Proof. by destruct id. Qed.

Lemma busy_stopped id m :
  mBusyWorkers (stopped id m) =
  match id with Some w => mBusyWorkers m ∖ {[w]} | None => mBusyWorkers m end.
Proof. by destruct id. Qed.

(** No chunk is left in a state other than paused and finished. *)
Definition allTerminal (cs : list IDownloadJob.t) : bool :=
  forallb (λ chunk, terminal (IDownloadJob.state chunk)) cs.

Lemma list_find_active cs :
  list_find (λ chunk, terminal (IDownloadJob.state chunk) = false) cs = None
  ↔ allTerminal cs = true.
Proof.
  rewrite list_find_None. unfold allTerminal. rewrite forallb_forall, Forall_forall.
  split; intros H c Hc.
  - apply list_elem_of_In, H in Hc. by destruct (terminal _).
  - apply list_elem_of_In, H in Hc. by rewrite Hc.
Qed.

(** The state in which [finishChunk] leaves the chunk and its download,
    before it calls the scheduler. *)
Definition markedState (interrupted : bool) (job : IDownloadJob.t) : ChunkState :=
  if interrupted || (0 <? IDownloadJob.size job) then Paused else Finished.

Definition markedDownload (interrupted : bool) (job : IDownloadJob.t) (j : nat)
    (dl : IRunningDownload.t) : IRunningDownload.t :=
  IRunningDownload.set_error
    (IRunningDownload.error dl || (negb interrupted && (0 <? IDownloadJob.size job)))
    (IRunningDownload.set_chunks
       (alter (IDownloadJob.set_state (markedState interrupted job)) j
              (IRunningDownload.chunks dl)) dl).

Lemma job_evolves_marked interrupted job :
  job_evolves job (IDownloadJob.set_state (markedState interrupted job) job).
Proof.
  exists (markedState interrupted job), (IDownloadJob.workerId job).
  split; [by destruct job|]. unfold markedState. split_and!; try done.
  - by destruct (interrupted || _).
  - intros Hsz. apply Z.ltb_lt in Hsz. rewrite Hsz, orb_true_r. done.
Qed.

Lemma finishChunk_spec m r job dl interrupted :
  queue_ok m → jobAt m r = Some job → downloads m !! r.1 = Some dl →
  is_Some (IRunningDownload.assembler dl) →
  wp (finishChunk r interrupted) (λ _ m', ∃ m1,
      ticked m1 m' ∧ evolves m m1
      ∧ mBusyWorkers m1 =
          match IDownloadJob.workerId job with
          | Some w => mBusyWorkers m ∖ {[w]}
          | None => mBusyWorkers m
          end
      ∧ workers m1 = workers m
      ∧ downloads m1 !! r.1 = Some (markedDownload interrupted job r.2 dl)
      ∧ (∀ r' c, jobAt m r' = Some c →
           jobAt m1 r' = Some (if decide (r = r')
                               then IDownloadJob.set_state (markedState interrupted job) c
                               else c))
      ∧ trace m1 = trace m ++ SpeedStopCounter (IDownloadJob.workerId job) ::
          (if allTerminal (IRunningDownload.chunks (markedDownload interrupted job r.2 dl))
           then [AssemblerClose r.1; DeferFinish r.1 (IRunningDownload.tempName dl)]
           else [])) m.
Proof.
  intros Hq Hjob Hd [asm Hasm]. unfold finishChunk.
  wp_step. eapply wp_getJob; [done|]. wp_step. apply wp_stopWorker.
  wp_steps. fold (markedState interrupted job).
  set (ma := stopped _ m). set (mb := withJob r _ ma).
  set (flag := negb interrupted && (0 <? IDownloadJob.size job)).
  set (mc := if flag then withDownload r.1 (IRunningDownload.set_error true) mb else mb).
  assert (Hab : evolves m mb).
  { etrans; [apply evolves_stopped|]. apply evolves_withJob.
    intros c Hc. unfold ma in Hc. rewrite jobAt_stopped in Hc.
    assert (c = job) as -> by congruence. apply job_evolves_marked. }
  assert (Hac : evolves m mc).
  { unfold mc. destruct flag; [|done]. etrans; [done|]. apply evolves_error. }
  assert (Hdc : downloads mc !! r.1 = Some (markedDownload interrupted job r.2 dl)).
  { unfold mc, mb, ma, withJob, withDownload, markedDownload. fold flag.
    destruct flag; simpl; rewrite ?lookup_alter_eq, downloads_stopped, Hd; simpl.
    - f_equal. by rewrite orb_true_r.
    - f_equal. rewrite orb_false_r. by destruct dl. }
  assert (Hbc : mBusyWorkers mc = mBusyWorkers ma ∧ workers mc = workers m
                ∧ trace mc = trace ma ∧ mQueue mc = mQueue m).
  { unfold mc, mb, ma. rewrite <- (workers_stopped (IDownloadJob.workerId job) m).
    destruct flag; simpl; split_and!; try done; by destruct (IDownloadJob.workerId job). }
  destruct Hbc as (Hbusy & Hwork & Htrace & Hqueue).
  assert (Hjobs : ∀ r' c, jobAt m r' = Some c →
            jobAt mc r' = Some (if decide (r = r')
                                then IDownloadJob.set_state (markedState interrupted job) c
                                else c)).
  { intros r' c Hc.
    assert (jobAt mb r' = Some (if decide (r = r')
                                then IDownloadJob.set_state (markedState interrupted job) c
                                else c)) as Hb.
    { unfold mb, ma. rewrite jobAt_withJob, jobAt_stopped, Hc. by case_decide. }
    unfold mc. destruct flag; [|done]. by rewrite jobAt_withDownload. }
  assert (wp (if flag then updDownload r.1 (IRunningDownload.set_error true) else mret ())
            (λ _ m2, m2 = mc) mb) as Hstep.
  { unfold mc. destruct flag; wp_steps; done. }
  eapply wp_mono; [apply Hstep|]. intros _ ? ->. cbv beta.
  wp_step. eapply wp_getDownload; [done|]. wp_step.
  set (dlc := markedDownload interrupted job r.2 dl) in *.
  assert (Htemp : IRunningDownload.tempName dlc = IRunningDownload.tempName dl) by done.
  assert (Hasmc : IRunningDownload.assembler dlc = Some asm) by done.
  destruct (list_find _ (IRunningDownload.chunks dlc)) as [found|] eqn:Hfind.
  - assert (allTerminal (IRunningDownload.chunks dlc) = false) as ->.
    { destruct (allTerminal _) eqn:E; [|done]. apply list_find_active in E. congruence. }
    wp_step. eapply wp_mono; [apply tickQueue_spec; by eapply evolves_queue_ok|].
    simpl. intros _ m' Ht. exists mc. split_and!; try done.
    + rewrite Hbusy. apply busy_stopped.
    + rewrite Htrace. apply trace_stopped.
  - apply list_find_active in Hfind. rewrite Hfind. rewrite Hasmc, Htemp. wp_steps.
    set (md := logged _ (logged _ mc)).
    assert (Hcd : evolves mc md).
    { etrans; apply evolves_logged. }
    eapply wp_mono; [apply tickQueue_spec; eapply evolves_queue_ok; [|done]; by etrans|].
    simpl. intros _ m' Ht. exists md. split_and!; try done.
    + by etrans.
    + simpl. rewrite Hbusy. apply busy_stopped.
    + unfold md, logged. simpl. rewrite Htrace. unfold ma. rewrite trace_stopped.
      by rewrite <- !app_assoc.
Qed.

(** ** Ending a worker *)

(** The worker after [this.mRequest.abort()], if it has a request. *)
Definition abortedWorker (wk : DownloadWorker) : DownloadWorker :=
  match mRequest wk with
  | Some _ => set_mRequest (Some true) wk
  | None => wk
  end.

(** The state that [if (this.mRequest !== undefined) this.mRequest.abort()]
    leaves. *)
Definition requestAborted (w : nat) (wk : DownloadWorker) (m : DownloadManager)
    : DownloadManager :=
  match mRequest wk with
  | Some _ => logged (RequestAbort w) (withWorker w (set_mRequest (Some true)) m)
  | None => m
  end.

Lemma abortRequest_run m w wk :
  workers m !! w = Some wk → abortRequest w m = Some (tt, requestAborted w wk m).
Proof.
  intros Hw. unfold abortRequest, requestAborted, mRequest_abort, getWorker.
  unfold mbind, M_bind. rewrite Hw. destruct (mRequest wk) eqn:E; [|done].
  rewrite Hw, E. done.
Qed.

Lemma evolves_requestAborted w wk m : evolves m (requestAborted w wk m).
Proof.
  unfold requestAborted. destruct (mRequest wk); [|reflexivity].
  etrans; [|apply evolves_logged]. by apply evolves_withWorker.
Qed.

Lemma workers_requestAborted m w wk :
  workers m !! w = Some wk →
  workers (requestAborted w wk m) !! w = Some (abortedWorker wk).
Proof.
  intros Hw. unfold requestAborted, abortedWorker. destruct (mRequest wk); [|done].
  simpl. by rewrite lookup_alter_eq, Hw.
Qed.

Lemma workers_requestAborted_ne m w wk w' :
  w ≠ w' → workers (requestAborted w wk m) !! w' = workers m !! w'.
Proof.
  intros Hne. unfold requestAborted. destruct (mRequest wk); [|done].
  simpl. by rewrite lookup_alter_ne.
Qed.


Lemma jobAt_requestAborted m w wk r : jobAt (requestAborted w wk m) r = jobAt m r.
Proof. unfold requestAborted. by destruct (mRequest wk). Qed.

Lemma trace_requestAborted m w wk :
  trace (requestAborted w wk m) = trace m ++ match mRequest wk with
                                             | Some _ => [RequestAbort w]
                                             | None => []
                                             end.
Proof. unfold requestAborted. destruct (mRequest wk); [done|]. by rewrite app_nil_r. Qed.

Lemma ticked_jobAt m m' r c :
  ticked m m' → jobAt m r = Some c → ∃ c', jobAt m' r = Some c' ∧ job_ticked c c'.
Proof.
  intros H Hj. apply jobAt_inv in Hj as (dl & Hd & Hc).
  pose proof (ticked_downloads _ _ H r.1) as E. rewrite Hd in E.
  inversion E as [? dl' (ap & cs' & -> & Hcs) |]; subst.
  destruct (Forall2_lookup_l _ _ _ _ _ Hcs Hc) as (c' & Hc' & Hjob).
  exists c'. split; [|done]. unfold jobAt. rewrite <- H1. done.
Qed.

(** What a call of [mFinishCB] does to the jobs: the job of the worker is
    marked, and the scheduler may start jobs. *)
Definition job_finished (r : JobRef) (interrupted : bool) (r' : JobRef)
    (c c' : IDownloadJob.t) : Prop :=
  job_ticked (if decide (r = r')
              then IDownloadJob.set_state (markedState interrupted c) c else c) c'.

Lemma mFinishCB_spec m w wk paused :
  queue_ok m → worker_ok m w → workers m !! w = Some wk →
  wp (mFinishCB w paused) (λ _ m',
      evolves m m' ∧ workers m' = workers m
      ∧ (∀ job, jobAt m (mJob wk) = Some job →
           mBusyWorkers m' = match IDownloadJob.workerId job with
                             | Some w' => mBusyWorkers m ∖ {[w']}
                             | None => mBusyWorkers m
                             end)
      ∧ (∀ r c, jobAt m r = Some c →
           ∃ c', jobAt m' r = Some c' ∧ job_finished (mJob wk) paused r c c')
      ∧ ∃ tr, trace m' = trace m ++ CallFinishCB w paused :: tr) m.
Proof.
  intros Hq (wk0 & dl & Hw0 & Hd & [job Hc] & Ha) Hw.
  assert (wk0 = wk) as -> by congruence.
  unfold mFinishCB. wp_step. eapply wp_getWorker; [done|]. wp_steps.
  assert (Hjob : jobAt m (mJob wk) = Some job).
  { unfold jobAt. by rewrite Hd. }
  eapply wp_mono.
  { eapply finishChunk_spec with (m := logged _ m); [|exact Hjob|exact Hd|exact Ha].
    eapply evolves_queue_ok; [apply evolves_logged|done]. }
  simpl. intros _ m' (m1 & Ht & He & Hb & Hws & Hd1 & Hj1 & Htr).
  split_and!.
  - etrans; [apply evolves_logged|]. etrans; [done|]. by apply ticked_evolves.
  - rewrite (ticked_workers _ _ Ht). done.
  - intros job' Hjob'. assert (job' = job) as -> by congruence.
    rewrite (ticked_busy _ _ Ht). done.
  - intros r c Hrc. specialize (Hj1 r c Hrc).
    destruct (ticked_jobAt _ _ _ _ Ht Hj1) as (c' & Hc' & Hjt).
    exists c'. split; [done|]. unfold job_finished.
    destruct (decide (mJob wk = r)) as [<-|]; [|done].
    assert (c = job) as -> by congruence. done.
  - destruct (ticked_trace _ _ Ht) as [tr' Htr']. rewrite Htr', Htr.
    eexists. rewrite <- !app_assoc. simpl. done.
Qed.

Lemma abort_spec m w wk paused :
  queue_ok m → worker_ok m w → workers m !! w = Some wk →
  wp (abort w paused) (λ b m',
      b = negb (mEnded wk) ∧
      if mEnded wk then m' = m
      else
        evolves m m'
        ∧ workers m' !! w = Some (set_mEnded true (abortedWorker wk))
        ∧ (∀ w', w' ≠ w → workers m' !! w' = workers m !! w')
        ∧ (∀ job, jobAt m (mJob wk) = Some job →
             mBusyWorkers m' = match IDownloadJob.workerId job with
                               | Some w' => mBusyWorkers m ∖ {[w']}
                               | None => mBusyWorkers m
                               end)
        ∧ (∀ r c, jobAt m r = Some c →
             ∃ c', jobAt m' r = Some c' ∧ job_finished (mJob wk) paused r c c')
        ∧ ∃ tr, trace m' = trace m ++ tr ∧ CallFinishCB w paused ∈ tr) m.
Proof.
  intros Hq Hok Hw. unfold abort. wp_step. eapply wp_getWorker; [done|].
  destruct (mEnded wk) eqn:Hended; [by wp_steps|].
  wp_step. eapply wp_run; [by apply abortRequest_run|]. wp_steps.
  set (ma := requestAborted w wk m). set (mb := withWorker w (set_mEnded true) ma).
  assert (Hab : evolves m mb).
  { etrans; [apply evolves_requestAborted|]. by apply evolves_withWorker. }
  assert (Hwb : workers mb !! w = Some (set_mEnded true (abortedWorker wk))).
  { unfold mb. rewrite workers_withWorker_eq. unfold ma.
    by rewrite (workers_requestAborted _ _ _ Hw). }
  assert (Hjb : ∀ r, jobAt mb r = jobAt m r).
  { intros r. unfold mb, ma. by rewrite jobAt_withWorker, jobAt_requestAborted. }
  eapply wp_mono.
  { apply mFinishCB_spec with (wk := set_mEnded true (abortedWorker wk)); [| |done].
    - by eapply evolves_queue_ok.
    - by eapply evolves_worker_ok. }
  cbv beta. intros _ m' (He & Hws & Hb & Hj & tr & Htr).
  assert (Hjobref : mJob (set_mEnded true (abortedWorker wk)) = mJob wk).
  { unfold abortedWorker. by destruct (mRequest wk). }
  rewrite Hjobref in *.
  wp_step. split; [done|]. split_and!.
  - by etrans.
  - by rewrite Hws.
  - intros w' Hne. rewrite Hws. unfold mb. rewrite workers_withWorker_ne by done.
    unfold ma. by rewrite workers_requestAborted_ne.
  - intros job Hjob. rewrite (Hb job) by (by rewrite Hjb).
    assert (mBusyWorkers mb = mBusyWorkers m) as ->; [|done].
    unfold mb, ma, requestAborted. by destruct (mRequest wk).
  - intros r c Hrc. apply Hj. by rewrite Hjb.
  - rewrite Htr. unfold mb, ma. simpl. rewrite trace_requestAborted.
    eexists. rewrite <- app_assoc. split; [done|].
    apply elem_of_app. right. by left.
Qed.

Lemma cancel_spec m w wk :
  queue_ok m → worker_ok m w → workers m !! w = Some wk →
  wp (cancel w) (λ _ m',
      if mEnded wk then m' = m
      else
        evolves m m'
        ∧ workers m' !! w = Some (set_mEnded true (abortedWorker wk))
        ∧ (∀ w', w' ≠ w → workers m' !! w' = workers m !! w')
        ∧ (∀ job, jobAt m (mJob wk) = Some job →
             mBusyWorkers m' = match IDownloadJob.workerId job with
                               | Some w' => mBusyWorkers m ∖ {[w']}
                               | None => mBusyWorkers m
                               end)
        ∧ (∀ r c, jobAt m r = Some c →
             ∃ c', jobAt m' r = Some c' ∧ job_finished (mJob wk) false r c c')
        ∧ ∃ tr, trace m' = trace m ++ tr ∧ CallFinishCB w false ∈ tr) m.
Proof.
  intros Hq Hok Hw. unfold cancel. wp_step.
  eapply wp_mono; [by apply abort_spec|]. cbv beta.
  intros b m' [_ H]. by wp_step.
Qed.

(** The worker after [pause()]. *)
Definition pausedWorker (wk : DownloadWorker) : DownloadWorker :=
  if mEnded wk then wk
  else
    let wk' := set_mEnded true (abortedWorker wk) in
    match mResponse wk with
    | Some _ => set_mResponse (Some true) wk'
    | None => wk'
    end.

Lemma worker_pause_spec m w wk :
  queue_ok m → worker_ok m w → workers m !! w = Some wk →
  wp (worker_pause w) (λ _ m',
      evolves m m'
      ∧ workers m' !! w = Some (pausedWorker wk)
      ∧ (∀ w', w' ≠ w → workers m' !! w' = workers m !! w')
      ∧ (∀ job w0, jobAt m (mJob wk) = Some job → w0 ∈ mBusyWorkers m →
           w0 ∉ mBusyWorkers m' → IDownloadJob.workerId job = Some w0)
      ∧ (∀ r c, jobAt m r = Some c →
           ∃ c', jobAt m' r = Some c'
                 ∧ (job_ticked c c' ∨ job_finished (mJob wk) true r c c'))) m.
Proof.
  intros Hq Hok Hw. unfold worker_pause, pausedWorker. wp_step.
  eapply wp_mono; [by apply abort_spec|]. cbv beta.
  intros b m' [-> H]. destruct (mEnded wk) eqn:Hended; simpl.
  - subst m'. wp_step. split; [reflexivity|]. split; [done|]. split; [done|].
    split; [done|]. intros r c Hc. exists c. split; [done|]. left. reflexivity.
  - destruct H as (He & Hw' & Hne & Hb & Hj & _).
    assert (Hbusy : ∀ job w0, jobAt m (mJob wk) = Some job → w0 ∈ mBusyWorkers m →
              w0 ∉ mBusyWorkers m' → IDownloadJob.workerId job = Some w0).
    { intros job w0 Hjob Hin Hout. rewrite (Hb job Hjob) in Hout.
      destruct (IDownloadJob.workerId job) as [w'|]; [|done].
      f_equal. apply dec_stable. intros Hneq. apply Hout.
      apply elem_of_difference. split; [done|]. intros Hs. apply elem_of_singleton in Hs.
      congruence. }
    wp_step. eapply wp_getWorker; [done|].
    assert (mResponse (set_mEnded true (abortedWorker wk)) = mResponse wk) as ->.
    { unfold abortedWorker. by destruct (mRequest wk). }
    destruct (mResponse wk) eqn:Hresp.
    + wp_steps. split_and!.
      * etrans; [done|]. etrans; [|apply evolves_logged]. by apply evolves_withWorker.
      * unfold logged, withWorker. simpl. by rewrite lookup_alter_eq, Hw'.
      * intros w' Hw''. simpl. rewrite lookup_alter_ne by done. auto.
      * done.
      * intros r c Hc. destruct (Hj r c Hc) as (c' & Hc' & Hf). exists c'. split; [|by right].
        by rewrite jobAt_logged, jobAt_withWorker.
    + wp_step. split_and!; try done.
      intros r c Hc. destruct (Hj r c Hc) as (c' & Hc' & Hf). exists c'. split; [done|by right].
Qed.

(** ** pause *)

(** While a download is paused, a job keeps its data; its state stays, or
    becomes paused, or the scheduler starts it. *)
Definition job_pausing (c c' : IDownloadJob.t) : Prop :=
  ∃ s w,
    c' = IDownloadJob.set_workerId w (IDownloadJob.set_state s c)
    ∧ (s = IDownloadJob.state c ∨ s = Paused ∨ (IDownloadJob.state c = Init ∧ s = Running))
    ∧ (IDownloadJob.state c ≠ Init → w = IDownloadJob.workerId c).

#[global] Instance job_pausing_refl : Reflexive job_pausing.
Proof.
  intros c. exists (IDownloadJob.state c), (IDownloadJob.workerId c).
  split; [by destruct c|]. auto.
Qed.

#[global] Instance job_pausing_trans : Transitive job_pausing.
Proof.
  intros c c' c'' (s & w & -> & H1 & H2) (s' & w' & -> & H1' & H2'). simpl in *.
  exists s', w'. split; [by destruct c|]. split.
  - destruct H1' as [->|[->|[-> ->]]]; auto.
    destruct H1 as [H|[H|[H _]]]; auto; discriminate.
  - intros Hi. rewrite H2', H2; auto.
    destruct H1 as [->|[->|[? _]]]; done.
Qed.

Lemma job_ticked_pausing c c' : job_ticked c c' → job_pausing c c'.
Proof.
  intros [->|[Hi [w ->]]]; [reflexivity|]. exists Running, (Some w).
  split_and!; [done|auto|done].
Qed.

Lemma job_finished_pausing rw r c c' : job_finished rw true r c c' → job_pausing c c'.
Proof.
  unfold job_finished. case_decide; [|apply job_ticked_pausing].
  intros [->|[Hi _]]; [|done].
  exists Paused, (IDownloadJob.workerId c). split; [by destruct c|]. auto.
Qed.

(** The chunks of which [pause] takes a checkpoint, once the chunks in
    state init are paused. *)
Definition checkpointed (c : IDownloadJob.t) : Prop :=
  (IDownloadJob.state c = Running ∨ IDownloadJob.state c = Paused)
  ∧ 0 < IDownloadJob.size c.

#[global] Instance checkpointed_dec c : Decision (checkpointed c).
Proof. unfold checkpointed. apply _. Defined.

(** The first [forEach] of [pause], on one chunk. *)
Definition pauseInit (chunk : IDownloadJob.t) : IDownloadJob.t :=
  if decide (IDownloadJob.state chunk = Init)
  then IDownloadJob.set_state Paused chunk else chunk.

Lemma evolves_chunks_map d f m :
  (∀ c, job_evolves c (f c)) →
  evolves m (withDownload d (λ dl,
    IRunningDownload.set_chunks (map f (IRunningDownload.chunks dl)) dl) m).
Proof.
  intros H. frame. intros d'. unfold withDownload. simpl.
  rewrite lookup_alter. case_decide; [subst d'|reflexivity].
  destruct (downloads m !! d) as [dl|]; constructor.
  exists (IRunningDownload.error dl), (IRunningDownload.assemblerProm dl),
    (map f (IRunningDownload.chunks dl)).
  split; [by destruct dl|]. apply Forall2_fmap_r, Forall_Forall2_diag, Forall_forall.
  intros c _. apply H.
Qed.

Lemma job_evolves_pauseInit c : job_evolves c (pauseInit c).
Proof.
  unfold pauseInit. case_decide; [|reflexivity].
  exists Paused, (IDownloadJob.workerId c). split; [by destruct c|]. split_and!; done.
Qed.

Lemma busyWorker_Some m id w : busyWorker m id = Some w ↔ id = Some w ∧ w ∈ mBusyWorkers m.
Proof.
  unfold busyWorker. destruct id as [w'|]; [|by split; [|intros []]].
  case_decide; split.
  - intros [= ->]. done.
  - by intros [[= ->] _].
  - done.
  - intros [[= ->] ?]. done.
Qed.

Section PauseChunks.
Context (d : nat) (cs1 : list IDownloadJob.t) (m1 : DownloadManager).
Hypothesis Hstarted : Forall (λ c, IDownloadJob.state c ≠ Init) cs1.
Hypothesis Hfinished :
  Forall (λ c, IDownloadJob.state c = Finished → IDownloadJob.size c ≤ 0) cs1.

(** What holds between two chunks of the second [forEach]. *)
Definition pausing_inv (m : DownloadManager) : Prop :=
  wf m ∧ evolves m1 m
  ∧ (∀ j c, cs1 !! j = Some c → ∃ c', jobAt m (d, j) = Some c' ∧ job_pausing c c')
  ∧ (∀ w, w ∈ mBusyWorkers m1 → w ∉ mBusyWorkers m →
       ∃ wk, workers m !! w = Some wk ∧ mEnded wk = true).

Lemma checkpointed_current c c' :
  c ∈ cs1 → job_pausing c c' →
  (bool_decide (IDownloadJob.state c' = Running)
     || bool_decide (IDownloadJob.state c' = Paused))
    && (0 <? IDownloadJob.size c') = bool_decide (checkpointed c)
  ∧ IDownloadJob.workerId c' = IDownloadJob.workerId c
  ∧ {| IChunk.received := IDownloadJob.confirmedReceived c';
       IChunk.offset := IDownloadJob.confirmedOffset c';
       IChunk.size := IDownloadJob.confirmedSize c';
       IChunk.url := IDownloadJob.url c' |} = toStoredChunk c.
Proof.
  intros Hin (s & w & -> & Hs & Hw).
  pose proof (proj1 (Forall_forall _ _) Hstarted c Hin) as Hni.
  pose proof (proj1 (Forall_forall _ _) Hfinished c Hin) as Hfin.
  simpl in *. split_and!; [|by rewrite Hw|done].
  destruct (decide (checkpointed c)) as [[Hst Hsz]|HP].
  - rewrite (bool_decide_eq_true_2 (checkpointed c)) by done.
    apply Z.ltb_lt in Hsz. rewrite Hsz, andb_true_r.
    destruct Hs as [->|[->|[? _]]]; [|done|done].
    destruct Hst as [->| ->]; done.
  - rewrite (bool_decide_eq_false_2 (checkpointed c)) by done.
    destruct (Z.ltb_spec 0 (IDownloadJob.size c)) as [Hsz|Hsz]; [|by rewrite andb_false_r].
    rewrite andb_true_r. unfold checkpointed in HP.
    destruct (IDownloadJob.state c) eqn:Hst; try done.
    + exfalso. apply HP. auto.
    + exfalso. apply HP. auto.
    + specialize (Hfin eq_refl). lia.
Qed.

Lemma pause_chunks_spec rest : ∀ pre acc m,
  cs1 = pre ++ rest → pausing_inv m →
  wp (pause_chunks d (seq (length pre) (length rest)) acc) (λ res m',
      res = acc ++ map toStoredChunk (filter checkpointed rest)
      ∧ pausing_inv m'
      ∧ mBusyWorkers m' ⊆ mBusyWorkers m
      ∧ (∀ c w, c ∈ rest → checkpointed c → IDownloadJob.workerId c = Some w →
           w ∉ mBusyWorkers m')) m.
Proof.
  induction rest as [|c rest IH]; intros pre acc m Hcs (Hwf & Hev & Hjobs & Hended).
  { simpl. wp_step. rewrite app_nil_r. split_and!; try done. intros ? ? H. inversion H. }
  assert (Hc : cs1 !! length pre = Some c).
  { rewrite Hcs. by rewrite list_lookup_middle. }
  assert (Hin : c ∈ cs1) by (by eapply list_elem_of_lookup_2).
  destruct (Hjobs _ _ Hc) as (c' & Hc' & Hp).
  destruct (checkpointed_current _ _ Hin Hp) as (Hcond & Hwid & Hck).
  simpl. wp_step. eapply wp_getJob; [done|]. rewrite Hcond, Hck, Hwid.
  assert (Hcs' : cs1 = (pre ++ [c]) ++ rest) by (by rewrite <- app_assoc).
  assert (Hlen : S (length pre) = length (pre ++ [c])).
  { rewrite length_app. simpl. lia. }
  rewrite Hlen.
  destruct (decide (checkpointed c)) as [HP|HP].
  - rewrite bool_decide_eq_true_2 by done. rewrite filter_cons_True by done.
    wp_step. apply wp_get. wp_step.
    destruct (busyWorker m (IDownloadJob.workerId c)) as [w|] eqn:Hbw.
    + apply busyWorker_Some in Hbw as [Hid Hbusy].
      destruct (wf_busy _ Hwf w Hbusy) as (wk & dlw & Hwk & Hrest).
      destruct (wf_ids _ Hwf w Hbusy) as (wk0 & jobw & Hwk0 & Hjobw & Hjid & _).
      assert (wk0 = wk) as -> by congruence.
      wp_step. eapply wp_mono.
      { apply worker_pause_spec with (wk := wk); [apply Hwf| |done].
        exists wk, dlw. done. }
      cbv beta. intros _ m2 (Hev2 & Hw2 & Hne2 & Hb2 & Hj2).
      apply wp_stopWorker. rewrite Hid.
      set (m3 := stopped (Some w) m2).
      assert (Hev3 : evolves m m3).
      { etrans; [done|]. apply evolves_stopped. }
      assert (Hinv3 : pausing_inv m3).
      { split_and!.
        - by eapply evolves_wf.
        - by etrans.
        - intros j c0 Hc0. destruct (Hjobs _ _ Hc0) as (c0' & Hc0' & Hp0).
          destruct (Hj2 _ _ Hc0') as (c0'' & Hc0'' & Hf).
          exists c0''. split; [by unfold m3; rewrite jobAt_stopped|].
          etrans; [done|]. destruct Hf as [Hf|Hf];
            [by apply job_ticked_pausing | by eapply job_finished_pausing].
        - intros w0 Hw0 Hout.
          destruct (decide (w0 ∈ mBusyWorkers m)) as [Hbm|Hbm].
          + assert (w0 = w) as ->.
            { destruct (decide (w0 = w)) as [|Hne]; [done|].
              assert (Hout2 : w0 ∉ mBusyWorkers m2).
              { intros Hin2. apply Hout. unfold m3. rewrite busy_stopped.
                apply elem_of_difference. split; [done|].
                intros Hs. by apply elem_of_singleton in Hs. }
              pose proof (Hb2 _ _ Hjobw Hbm Hout2). congruence. }
            exists (pausedWorker wk). split; [by unfold m3; rewrite workers_stopped|].
            unfold pausedWorker. destruct (mEnded wk) eqn:E; [done|].
            by destruct (mResponse wk).
          + destruct (Hended w0 Hw0 Hbm) as (wk0 & Hwk0' & He0).
            pose proof (evolves_workers _ _ Hev3 w0) as E. rewrite Hwk0' in E.
            inversion E as [? wk0' [_ Hk]|]; subst. eauto. }
      eapply wp_mono; [by apply (IH (pre ++ [c]) _ m3)|]. cbv beta.
      intros res m' (-> & Hinv' & Hsub & Hrel). split_and!; try done.
      * by rewrite <- app_assoc.
      * etrans; [done|]. apply (evolves_busy _ _ Hev3).
      * intros c0 w0 Hc0 HP0 Hid0. apply elem_of_cons in Hc0 as [->|Hc0]; [|eauto].
        assert (w0 = w) as -> by congruence.
        intros Hin'. apply Hsub in Hin'. unfold m3 in Hin'. rewrite busy_stopped in Hin'.
        apply elem_of_difference in Hin' as [_ Hn]. apply Hn. by apply elem_of_singleton.
    + wp_step. eapply wp_mono; [by apply (IH (pre ++ [c]) _ m)|]. cbv beta.
      intros res m' (-> & Hinv' & Hsub & Hrel). split_and!; try done.
      * by rewrite <- app_assoc.
      * intros c0 w0 Hc0 HP0 Hid0. apply elem_of_cons in Hc0 as [->|Hc0]; [|eauto].
        intros Hin'. apply Hsub in Hin'.
        assert (busyWorker m (IDownloadJob.workerId c) = Some w0) as Hs
          by (by apply busyWorker_Some).
        congruence.
  - rewrite bool_decide_eq_false_2 by done. rewrite filter_cons_False by done.
    eapply wp_mono; [by apply (IH (pre ++ [c]) _ m)|]. cbv beta.
    intros res m' (-> & Hinv' & Hsub & Hrel). split_and!; try done.
    intros c0 w0 Hc0 HP0 Hid0. apply elem_of_cons in Hc0 as [->|Hc0]; [done|eauto].
Qed.
End PauseChunks.

Lemma evolves_downloadId m m' r : evolves m m' → downloadId m' r = downloadId m r.
Proof.
  intros H. unfold downloadId. destruct (evolves_downloads _ _ H r) as [dl dl' He|]; [|done].
  simpl. by rewrite (download_evolves_id _ _ He).
Qed.

Lemma checkpoints_pauseInit cs :
  map toStoredChunk (filter checkpointed (map pauseInit cs)) =
  map toStoredChunk
    (filter (λ c, IDownloadJob.state c ≠ Finished ∧ 0 < IDownloadJob.size c) cs).
Proof.
  induction cs as [|c cs IH]; [done|]. simpl.
  assert (Hiff : checkpointed (pauseInit c)
                 ↔ IDownloadJob.state c ≠ Finished ∧ 0 < IDownloadJob.size c).
  { unfold checkpointed, pauseInit. case_decide as Hi; simpl.
    - rewrite Hi. intuition congruence.
    - destruct (IDownloadJob.state c); intuition congruence. }
  assert (Heq : toStoredChunk (pauseInit c) = toStoredChunk c).
  { unfold pauseInit. by case_decide. }
  destruct (decide (checkpointed (pauseInit c))) as [HP|HP].
  - rewrite filter_cons_True by done. rewrite (filter_cons_True _ c) by (by apply Hiff).
    simpl. by rewrite Heq, IH.
  - rewrite filter_cons_False by done. rewrite (filter_cons_False _ c) by (by rewrite <- Hiff).
    done.
Qed.


(** ** Checking that a store is well formed *)

Definition worker_okb (m : DownloadManager) (w : nat) : bool :=
  match workers m !! w with
  | Some wk =>
      match downloads m !! (mJob wk).1 with
      | Some dl =>
          match IRunningDownload.chunks dl !! (mJob wk).2, IRunningDownload.assembler dl with
          | Some _, Some _ => true
          | _, _ => false
          end
      | None => false
      end
  | None => false
  end.

Definition busy_okb (m : DownloadManager) (w : nat) : bool :=
  match workers m !! w with
  | Some wk =>
      match jobAt m (mJob wk) with
      | Some job =>
          bool_decide (IDownloadJob.workerId job = Some w)
          && bool_decide (IDownloadJob.state job ≠ Init)
      | None => false
      end
  | None => false
  end.

Definition wfb (m : DownloadManager) : bool :=
  forallb (λ r, bool_decide (is_Some (downloads m !! r))) (mQueue m)
  && forallb (λ w, worker_okb m w && busy_okb m w) (elements (mBusyWorkers m)).

Lemma worker_okb_ok m w : worker_okb m w = true → worker_ok m w.
Proof.
  unfold worker_okb, worker_ok. destruct (workers m !! w) as [wk|] eqn:E; [|done].
  destruct (downloads m !! (mJob wk).1) as [dl|] eqn:E0; [|done].
  destruct (IRunningDownload.chunks dl !! (mJob wk).2) eqn:E1; [|done].
  destruct (IRunningDownload.assembler dl) eqn:E2; [|done].
  intros _. exists wk, dl. split_and!; [done|done|by eexists|by eexists].
Qed.

Lemma busy_okb_ok m w : busy_okb m w = true → busy_ok m w.
Proof.
  unfold busy_okb, busy_ok. destruct (workers m !! w) as [wk|] eqn:E; [|done].
  destruct (jobAt m (mJob wk)) as [job|] eqn:E0; [|done].
  intros [H1 H2]%andb_true_iff. apply bool_decide_eq_true in H1, H2. eauto 10.
Qed.

Lemma wfb_wf m : wfb m = true → wf m.
Proof.
  unfold wfb. intros [H1 H2]%andb_true_iff.
  rewrite forallb_forall in H1. rewrite forallb_forall in H2. split.
  - intros r Hr. apply list_elem_of_In, H1 in Hr. by apply bool_decide_eq_true in Hr.
  - intros w Hw. apply elem_of_elements, list_elem_of_In, H2 in Hw.
    apply andb_true_iff in Hw as [Hw _]. by apply worker_okb_ok.
  - intros w Hw. apply elem_of_elements, list_elem_of_In, H2 in Hw.
    apply andb_true_iff in Hw as [_ Hw]. by apply busy_okb_ok.
Qed.

(** ** A download in four chunks

    The states of a manager with two workers at most that downloads a file
    of 80 MiB from a server that supports ranges.  The library functions
    are replaced by simple stand-ins. *)

Definition ex_join (a b : string) : string := (a ++ "/" ++ b)%string.
Definition ex_resolve (from to : string) : string := to.
Definition ex_parse_throws (urlIn : string) : bool := false.
Definition ex_request_throws (urlIn : string) (referer : option string) : option Err :=
  if String.prefix "http://" urlIn || String.prefix "https://" urlIn then None
  else Some (JsError "Protocol not supported" (Some "ERR_INVALID_PROTOCOL"%string)).
Definition ex_disposition (cd : string) : option (option string) := Some None.

(** The state after a method, or the state before it if it fails. *)
Definition after {A} (c : M A) (m : DownloadManager) : DownloadManager :=
  match c m with
  | Some (_, m') => m'
  | None => m
  end.

Definition ex_url : string := "http://host/file.zip".

Definition ex_headers (length : Z) (total : option Z) : Headers :=
  {| content_type := None; content_length := Some length; content_range := total;
     content_disposition := None; location := None |}.

(** The download is queued and its first chunk is started. *)
Definition ex_queued : DownloadManager :=
  after (enqueue_then ex_join (λ p, p) "a" [ex_url] None "/dl" "file.zip" Ask 0 None
           "/dl/file.zip")
    (newDownloadManager "/dl" 2 4).

(** The first worker has sent its request. *)
Definition ex_requested : DownloadManager :=
  after (startJob_then 0 0;; assignJob 0 (Some ex_url);; startDownload ex_parse_throws ex_request_throws 0 ex_url) ex_queued.

(** The first response: 20 MiB and a byte of 80 MiB.  Three chunks are
    added, and the one free worker starts the first of them. *)
Definition ex_chunked : DownloadManager :=
  after (onResponse ex_resolve ex_disposition 0
           {| statusCode := 206; statusMessage := "Partial Content";
              headers := ex_headers (mMinChunkSize + 1) (Some (80 * 1024 * 1024)) |}
           ex_url;;
         startJob_then 0 1;; assignJob 1 (Some ex_url);; startDownload ex_parse_throws ex_request_throws 1 ex_url)
    ex_requested.


(** * The properties of the specification *)

(** C4 (as amended): for a download of the queue, [pause(id)] returns the
    checkpoints, taken from the confirmed counters, of the chunks that have
    bytes left and are running or paused once the chunks in state init are
    paused (that is, of every chunk that is not finished and has bytes
    left); it removes the download from the queue; every chunk keeps its
    data, a chunk in state init is paused and the state of another chunk is
    kept or becomes paused; and the worker of a chunk with a checkpoint is
    no longer in the table of busy workers, and has ended if it was there. *)
Theorem pause_checkpoints m id i d dl :
  wf m →
  list_find (λ value, downloadId m value = Some id) (mQueue m) = Some (i, d) →
  downloads m !! d = Some dl →
  Forall (λ c, IDownloadJob.state c = Finished → IDownloadJob.size c ≤ 0)
         (IRunningDownload.chunks dl) →
  ∃ m' dl',
    pause id m =
      Some (Some (map toStoredChunk
                    (filter (λ c, IDownloadJob.state c ≠ Finished ∧ 0 < IDownloadJob.size c)
                            (IRunningDownload.chunks dl))), m')
    ∧ mQueue m' = filter (λ value, downloadId m value ≠ Some id) (mQueue m)
    ∧ downloads m' !! d = Some dl'
    ∧ Forall2 (λ c c', ∃ s, c' = IDownloadJob.set_state s c
                     ∧ (IDownloadJob.state c = Init → s = Paused)
                     ∧ (s = IDownloadJob.state c ∨ s = Paused))
        (IRunningDownload.chunks dl) (IRunningDownload.chunks dl')
    ∧ ∀ c w, c ∈ IRunningDownload.chunks dl →
        IDownloadJob.state c ≠ Finished → 0 < IDownloadJob.size c →
        IDownloadJob.workerId c = Some w →
        (w ∉ mBusyWorkers m')
        ∧ (w ∈ mBusyWorkers m → ∃ wk, workers m' !! w = Some wk ∧ mEnded wk = true).
Proof.
  intros Hwf Hfind Hd Hfin.
  set (cs1 := map pauseInit (IRunningDownload.chunks dl)).
  set (m1 := withDownload d (λ download,
        IRunningDownload.set_chunks
          (map (λ chunk, if decide (IDownloadJob.state chunk = Init)
                         then IDownloadJob.set_state Paused chunk else chunk)
               (IRunningDownload.chunks download)) download) m).
  assert (Hev1 : evolves m m1).
  { apply evolves_chunks_map. intros c. apply job_evolves_pauseInit. }
  assert (Hd1 : downloads m1 !! d = Some (IRunningDownload.set_chunks cs1 dl)).
  { unfold m1, withDownload. simpl. by rewrite lookup_alter_eq, Hd. }
  assert (Hstarted : Forall (λ c, IDownloadJob.state c ≠ Init) cs1).
  { apply Forall_fmap, Forall_forall. intros c _. simpl. unfold pauseInit.
    by case_decide. }
  assert (Hfin1 : Forall (λ c, IDownloadJob.state c = Finished → IDownloadJob.size c ≤ 0) cs1).
  { apply Forall_fmap. eapply Forall_impl; [done|]. intros c Hc. simpl. unfold pauseInit.
    case_decide; [done|auto]. }
  assert (Hinv : pausing_inv d cs1 m1 m1).
  { split_and!.
    - by eapply evolves_wf.
    - reflexivity.
    - intros j c Hc. exists c. split; [|reflexivity]. eapply jobAt_Some; eauto.
    - done. }
  assert (Hloop := pause_chunks_spec d cs1 m1 Hstarted Hfin1 cs1 [] [] m1 eq_refl Hinv).
  destruct Hloop as (res & m2 & Hrun & -> & Hinv2 & Hsub & Hrel).
  destruct Hinv2 as (Hwf2 & Hev2 & Hjobs2 & Hended2).
  assert (Hev : evolves m m2) by (by etrans).
  destruct (evolves_download _ _ _ _ Hev Hd) as (dl' & Hd' & Hdl').
  exists (set_mQueue (filter (λ value, downloadId m2 value ≠ Some id) (mQueue m2)) m2), dl'.
  split_and!.
  - unfold pause. unfold mbind at 1, M_bind at 1. simpl. rewrite Hfind.
    unfold mbind at 1, M_bind at 1. simpl. fold m1.
    unfold mbind at 1, M_bind at 1. unfold getDownload. rewrite Hd1.
    simpl. unfold mbind at 1, M_bind at 1. simpl in Hrun. rewrite Hrun.
    simpl. unfold cs1. by rewrite checkpoints_pauseInit.
  - simpl. rewrite (evolves_queue _ _ Hev). apply list_filter_iff. intros r.
    by rewrite (evolves_downloadId _ _ r Hev).
  - done.
  - apply Forall2_same_length_lookup_2.
    { apply download_evolves_chunks in Hdl'. by eapply Forall2_length. }
    intros j c c' Hc Hc'.
    assert (Hc1 : cs1 !! j = Some (pauseInit c)).
    { unfold cs1. by rewrite list_lookup_fmap, Hc. }
    destruct (Hjobs2 _ _ Hc1) as (c2 & Hc2 & s & w & -> & Hs & Hw).
    assert (jobAt m2 (d, j) = Some c') as Hc2' by (eapply jobAt_Some; eauto).
    rewrite Hc2 in Hc2'. injection Hc2' as <-.
    pose proof (proj1 (Forall_forall _ _) Hstarted _ (list_elem_of_lookup_2 _ _ _ Hc1)) as Hni.
    rewrite (Hw Hni). unfold pauseInit in *. case_decide as Hi; simpl in *.
    + exists s. split; [by destruct c|].
      assert (s = Paused) as -> by (destruct Hs as [->|[->|[? _]]]; done).
      auto.
    + exists s. split; [by destruct c|]. split; [done|].
      destruct Hs as [->|[->|[? _]]]; auto. done.
  - intros c w Hc Hnf Hsz Hid.
    assert (Hc1 : pauseInit c ∈ cs1) by (by apply list_elem_of_fmap_2).
    assert (HP : checkpointed (pauseInit c)).
    { unfold checkpointed, pauseInit. case_decide; simpl; [auto|].
      split; [|done]. destruct (IDownloadJob.state c); auto; done. }
    assert (Hid1 : IDownloadJob.workerId (pauseInit c) = Some w).
    { unfold pauseInit. by case_decide. }
    pose proof (Hrel _ _ Hc1 HP Hid1) as Hout. split; [done|].
    intros Hin. by apply Hended2.
Qed.

(** The checkpoint list as the specification words it: of the chunks in
    state running with bytes left, after the chunks in state init were
    paused. *)
Definition claimedCheckpoints (chunks : list IDownloadJob.t) : list IChunk.t :=
  map toStoredChunk
    (filter (λ c, IDownloadJob.state c = Running ∧ 0 < IDownloadJob.size c)
            (map pauseInit chunks)).

(** C4, counterexample: the download has two running chunks and one in
    state init.  [pause] returns three checkpoints, the third for the chunk
    that was in state init; the list of the running chunks has two. *)
Lemma pause_checkpoints_paused_chunks :
  ∃ dl, downloads ex_chunked !! 0%nat = Some dl
    ∧ map IDownloadJob.state (IRunningDownload.chunks dl) = [Running; Running; Init]
    ∧ length <$> (pause "a" ex_chunked ≫= fst) = Some 3%nat
    ∧ length (claimedCheckpoints (IRunningDownload.chunks dl)) = 2%nat
    ∧ (pause "a" ex_chunked ≫= fst) ≠ Some (claimedCheckpoints (IRunningDownload.chunks dl)).
Proof.
  eexists. split; [vm_compute; reflexivity|]. split_and!; [by vm_compute..|].
  vm_compute. discriminate.
Qed.

Lemma pause_checkpoints_witness :
  ∃ dl, wf ex_chunked
    ∧ list_find (λ value, downloadId ex_chunked value = Some "a"%string)
        (mQueue ex_chunked) = Some (0%nat, 0%nat)
    ∧ downloads ex_chunked !! 0%nat = Some dl
    ∧ Forall (λ c, IDownloadJob.state c = Finished → IDownloadJob.size c ≤ 0)
        (IRunningDownload.chunks dl)
    ∧ ∃ m' dl',
        pause "a" ex_chunked =
          Some (Some (map toStoredChunk
                        (filter (λ c, IDownloadJob.state c ≠ Finished
                                      ∧ 0 < IDownloadJob.size c)
                                (IRunningDownload.chunks dl))), m')
        ∧ mQueue m' = filter (λ value, downloadId ex_chunked value ≠ Some "a"%string)
                        (mQueue ex_chunked)
        ∧ downloads m' !! 0%nat = Some dl'
        ∧ Forall2 (λ c c', ∃ s, c' = IDownloadJob.set_state s c
                         ∧ (IDownloadJob.state c = Init → s = Paused)
                         ∧ (s = IDownloadJob.state c ∨ s = Paused))
            (IRunningDownload.chunks dl) (IRunningDownload.chunks dl')
        ∧ ∀ c w, c ∈ IRunningDownload.chunks dl →
            IDownloadJob.state c ≠ Finished → 0 < IDownloadJob.size c →
            IDownloadJob.workerId c = Some w →
            (w ∉ mBusyWorkers m')
            ∧ (w ∈ mBusyWorkers ex_chunked →
               ∃ wk, workers m' !! w = Some wk ∧ mEnded wk = true).
Proof.
  assert (Hwf : wf ex_chunked) by (apply wfb_wf; vm_compute; reflexivity).
  assert (Hfind : list_find (λ value, downloadId ex_chunked value = Some "a"%string)
                    (mQueue ex_chunked) = Some (0%nat, 0%nat))
    by (vm_compute; reflexivity).
  eexists. split; [exact Hwf|]. split; [exact Hfind|].
  assert (Hd : ∃ dl, downloads ex_chunked !! 0%nat = Some dl) by (vm_compute; eauto).
  refine ((λ Hd Hfin, conj Hd (conj Hfin
            (pause_checkpoints ex_chunked "a" 0 0 _ Hwf Hfind Hd Hfin))) _ _).
  - vm_compute. reflexivity.
  - repeat constructor; simpl; intros; discriminate.
Defined.

Lemma job_ticked_terminal c c' :
  job_ticked c c' → terminal (IDownloadJob.state c') = terminal (IDownloadJob.state c).
Proof. intros [->|[Hi [w ->]]]; [done|]. simpl. by rewrite Hi. Qed.

Lemma allTerminal_ticked cs cs' :
  Forall2 job_ticked cs cs' → allTerminal cs' = allTerminal cs.
Proof.
  induction 1 as [|c c' cs cs' Hc _ IH]; [done|]. simpl.
  by rewrite (job_ticked_terminal _ _ Hc), IH.
Qed.

Section FinishFacts.
Variable contentType_parse : string → Err + string.
Variable toLowerCase : string → string.

(** Whatever the assembler and the file system answer, the continuation of
    [finishChunk] ends by calling [finishCB], and leaves the store as it
    is. *)
Lemma finishChunk_then_spec m d dl finalPath closed fsResult :
  downloads m !! d = Some dl →
  wp (finishChunk_then contentType_parse toLowerCase d finalPath closed fsResult)
    (λ _ m', downloads m' = downloads m
      ∧ ∃ tr res, trace m' = trace m ++ tr ++ [FinishCB d res]
        ∧ (∀ res', FinishCB d res' ∉ tr)
        ∧ IDownloadResult.unfinishedChunks res =
            map toStoredChunk
              (filter (λ chunk, IDownloadJob.state chunk = Paused)
                      (IRunningDownload.chunks dl))
        ∧ IDownloadResult.hadErrors res = IRunningDownload.error dl
        ∧ IDownloadResult.headers res = IRunningDownload.headers dl
        ∧ IDownloadResult.size res =
            Math_max (IRunningDownload.size dl) (IRunningDownload.received dl)) m.
Proof.
  intros Hd. unfold finishChunk_then.
  wp_step. eapply wp_getDownload; [exact Hd|]. wp_step.
  set (Q := λ (_ : unit) (m' : DownloadManager), downloads m' = downloads m
      ∧ ∃ tr res, trace m' = trace m ++ tr ++ [FinishCB d res]
        ∧ (∀ res', FinishCB d res' ∉ tr)
        ∧ IDownloadResult.unfinishedChunks res =
            map toStoredChunk
              (filter (λ chunk, IDownloadJob.state chunk = Paused)
                      (IRunningDownload.chunks dl))
        ∧ IDownloadResult.hadErrors res = IRunningDownload.error dl
        ∧ IDownloadResult.headers res = IRunningDownload.headers dl
        ∧ IDownloadResult.size res =
            Math_max (IRunningDownload.size dl) (IRunningDownload.received dl)).
  pose (result := λ (fp : string) (download : IRunningDownload.t),
          {| IDownloadResult.filePath := fp;
             IDownloadResult.headers := IRunningDownload.headers download;
             IDownloadResult.unfinishedChunks :=
               map toStoredChunk
                 (filter (λ chunk, IDownloadJob.state chunk = Paused)
                         (IRunningDownload.chunks download));
             IDownloadResult.hadErrors := IRunningDownload.error download;
             IDownloadResult.size :=
               Math_max (IRunningDownload.size download)
                        (IRunningDownload.received download) |}).
  assert (Hfin : ∀ (fp : string) tr m1,
    downloads m1 = downloads m → trace m1 = trace m ++ tr →
    (∀ res', FinishCB d res' ∉ tr) →
    wp (getDownload d)
       (λ download m2, wp (emit (FinishCB d (result fp download))) Q m2) m1).
  { intros fp tr m1 Hds Htr Hno. eapply wp_getDownload; [rewrite Hds; exact Hd|].
    wp_step. split; [done|]. exists tr. eexists.
    split; [unfold logged; simpl; by rewrite Htr, <- app_assoc|].
    split_and!; done. }
  assert (Hne : ∀ e tr, (∀ res', e ≠ FinishCB d res') → (∀ res', FinishCB d res' ∉ tr) →
            ∀ res', FinishCB d res' ∉ tr ++ [e]).
  { intros e tr He Htr res' [Hin|Hin]%elem_of_app; [by eapply Htr|].
    apply list_elem_of_singleton in Hin. by eapply He. }
  assert (Hnil : ∀ res', FinishCB d res' ∉ @nil Event).
  { intros res' Hin. inversion Hin. }
  destruct closed as [err|].
  { wp_steps. apply Hfin with (tr := [FailedCB d err]); [done|done|].
    apply (Hne _ []); done. }
  destruct (IRunningDownload.finalName dl) as [resolvedPath|].
  { wp_steps. case_bool_decide.
    - wp_steps. destruct fsResult as [err|]; wp_steps.
      + eapply Hfin; [done| |].
        * unfold logged. simpl. rewrite <- !app_assoc. reflexivity.
        * simpl. apply (Hne _ [_; _]); [done|]. apply (Hne _ [_]); [done|].
          apply (Hne _ []); done.
      + eapply Hfin; [done| |].
        * unfold logged. simpl. rewrite <- !app_assoc. reflexivity.
        * simpl. apply (Hne _ [_]); [done|]. apply (Hne _ []); done.
    - wp_steps. eapply Hfin; [done| |].
      * unfold logged. simpl. reflexivity.
      * apply (Hne _ []); done. }
  wp_step.
  destruct (IRunningDownload.headers dl ≫= content_type) as [ct|].
  2:{ wp_steps. apply Hfin with (tr := []); [done|by rewrite app_nil_r|done]. }
  destruct (contentType_parse ct) as [err|type].
  { wp_steps. apply Hfin with (tr := [FailedCB d err]); [done|done|].
    apply (Hne _ []); done. }
  destruct (_ && _).
  2:{ wp_steps. apply Hfin with (tr := []); [done|by rewrite app_nil_r|done]. }
  wp_steps. destruct fsResult as [err|].
  2:{ wp_steps. eapply Hfin; [done|unfold logged; simpl; reflexivity|].
      apply (Hne _ []); done. }
  case_bool_decide; wp_steps.
  - eapply Hfin; [done|unfold logged; simpl; rewrite <- !app_assoc; reflexivity|].
    simpl. apply (Hne _ [_]); [done|]. apply (Hne _ []); done.
  - eapply Hfin; [done|unfold logged; simpl; reflexivity|].
    apply (Hne _ []); done.
Qed.

(** C5: [finishChunk] returns; the chunk is then paused if the worker was
    interrupted or bytes are left, and finished otherwise; a finish that
    was not interrupted and leaves bytes sets the error flag of the
    download, which is otherwise kept; and when no chunk of the download is
    then in a state other than paused and finished, the assembler is closed
    and the continuation, whatever the assembler and the file system
    answer, calls [finishCB] once, with the checkpoints of the paused chunks
    as unfinished chunks, the error flag as [hadErrors] and the maximum of
    size and received as size. *)
Theorem finishChunk_result m r job dl interrupted :
  queue_ok m → jobAt m r = Some job → downloads m !! r.1 = Some dl →
  is_Some (IRunningDownload.assembler dl) →
  ∃ m' dl' job',
    finishChunk r interrupted m = Some (tt, m')
    ∧ downloads m' !! r.1 = Some dl'
    ∧ IRunningDownload.chunks dl' !! r.2 = Some job'
    ∧ (interrupted = true ∨ 0 < IDownloadJob.size job → IDownloadJob.state job' = Paused)
    ∧ (interrupted = false → IDownloadJob.size job ≤ 0 → IDownloadJob.state job' = Finished)
    ∧ (interrupted = false → 0 < IDownloadJob.size job → IRunningDownload.error dl' = true)
    ∧ (interrupted = true ∨ IDownloadJob.size job ≤ 0 →
       IRunningDownload.error dl' = IRunningDownload.error dl)
    ∧ (allTerminal (IRunningDownload.chunks dl') = true →
       (∃ tr, trace m' = trace m ++ tr ∧ AssemblerClose r.1 ∈ tr
              ∧ DeferFinish r.1 (IRunningDownload.tempName dl) ∈ tr)
       ∧ ∀ closed fsResult, ∃ m'' tr res,
           finishChunk_then contentType_parse toLowerCase r.1
             (IRunningDownload.tempName dl) closed fsResult m' = Some (tt, m'')
           ∧ trace m'' = trace m' ++ tr ++ [FinishCB r.1 res]
           ∧ (∀ res', FinishCB r.1 res' ∉ tr)
           ∧ IDownloadResult.unfinishedChunks res =
               map toStoredChunk
                 (filter (λ chunk, IDownloadJob.state chunk = Paused)
                         (IRunningDownload.chunks dl'))
           ∧ IDownloadResult.hadErrors res = IRunningDownload.error dl'
           ∧ IDownloadResult.size res =
               match IRunningDownload.size dl' with
               | Some size => Some (Z.max size (IRunningDownload.received dl'))
               | None => None
               end).
Proof.
  intros Hq Hjob Hd Ha.
  destruct (finishChunk_spec m r job dl interrupted Hq Hjob Hd Ha)
    as ([] & m' & Hrun & m1 & Ht & He & _ & _ & Hd1 & _ & Htr).
  pose proof (ticked_downloads _ _ Ht r.1) as E. rewrite Hd1 in E.
  inversion E as [? dl' (ap & cs' & Hdl' & Hcs) Heq1 Heq2|]; subst dl'.
  symmetry in Heq2.
  apply jobAt_inv in Hjob as (dl0 & Hd0 & Hc). assert (dl0 = dl) as -> by congruence.
  assert (Hmj : IRunningDownload.chunks (markedDownload interrupted job r.2 dl) !! r.2
                = Some (IDownloadJob.set_state (markedState interrupted job) job)).
  { unfold markedDownload. simpl. by rewrite list_lookup_alter_eq, Hc. }
  destruct (Forall2_lookup_l _ _ _ _ _ Hcs Hmj) as (job' & Hj' & Hjt).
  assert (job' = IDownloadJob.set_state (markedState interrupted job) job) as Hjob'.
  { destruct Hjt as [->|[Hi _]]; [done|]. simpl in Hi. unfold markedState in Hi.
    by destruct (interrupted || _). }
  eexists m', _, job'. split; [exact Hrun|]. split; [exact Heq2|]. simpl.
  split; [exact Hj'|]. subst job'. unfold markedState. simpl.
  split_and!.
  - intros [->|Hsz]; [done|]. apply Z.ltb_lt in Hsz. by rewrite Hsz, orb_true_r.
  - intros -> Hsz. apply Z.ltb_ge in Hsz. by rewrite Hsz.
  - intros -> Hsz. apply Z.ltb_lt in Hsz. rewrite Hsz. apply orb_true_r.
  - intros [->|Hsz]; [apply orb_false_r|]. apply Z.ltb_ge in Hsz. rewrite Hsz.
    rewrite andb_false_r. apply orb_false_r.
  - intros Hterm. rewrite (allTerminal_ticked _ _ Hcs) in Hterm.
    rewrite Hterm in Htr. destruct (ticked_trace _ _ Ht) as [tr' Htr']. split.
    + eexists. split; [rewrite Htr', Htr, <- app_assoc; reflexivity|].
      split; apply elem_of_app; left; [by right; left|by right; right; left].
    + intros closed fsResult.
      destruct (finishChunk_then_spec m' r.1 _ (IRunningDownload.tempName dl)
                  closed fsResult Heq2)
        as ([] & m'' & Hrun' & _ & tr & res & Htr'' & Hno & Hu & Hh & _ & Hs).
      exists m'', tr, res. split_and!; try done.
Qed.
End FinishFacts.

Lemma finishChunk_result_witness :
  ∃ job dl,
    queue_ok ex_chunked ∧ jobAt ex_chunked (0%nat, 0%nat) = Some job
    ∧ downloads ex_chunked !! 0%nat = Some dl
    ∧ is_Some (IRunningDownload.assembler dl)
    ∧ ∃ m' dl' job',
        finishChunk (0%nat, 0%nat) false ex_chunked = Some (tt, m')
        ∧ downloads m' !! 0%nat = Some dl'
        ∧ IRunningDownload.chunks dl' !! 0%nat = Some job'
        ∧ IDownloadJob.state job' = Paused
        ∧ IRunningDownload.error dl' = true.
Proof.
  assert (Hq : queue_ok ex_chunked) by (apply wfb_wf; vm_compute; reflexivity).
  assert (∃ job, jobAt ex_chunked (0%nat, 0%nat) = Some job ∧ 0 < IDownloadJob.size job)
    as (job & Hjob & Hsz) by (vm_compute; eauto).
  assert (∃ dl, downloads ex_chunked !! 0%nat = Some dl
                ∧ is_Some (IRunningDownload.assembler dl))
    as (dl & Hd & Ha) by (vm_compute; eauto).
  exists job, dl. split_and!; [exact Hq|exact Hjob|exact Hd|exact Ha|].
  destruct (finishChunk_result (λ s, inr s) (λ s, s) ex_chunked (0%nat, 0%nat) job dl false
              Hq Hjob Hd Ha)
    as (m' & dl' & job' & Hrun & Hd' & Hj' & Hp & _ & He & _).
  exists m', dl', job'. split_and!; [exact Hrun|exact Hd'|exact Hj'|auto|auto].
Defined.

Lemma bind_run {A B} (c : M A) (f : A → M B) m a m1 :
  c m = Some (a, m1) → (c ≫= f) m = f a m1.
Proof. intros H. unfold mbind, M_bind. by rewrite H. Qed.

(** ** The layout of the chunks *)

(** The least integer that is not below [a / b], for a positive [b]. *)
Definition ceilDiv (a b : Z) : Z := (a + b - 1) / b.


(** The layout in the words of the specification: the size of the chunks,
    and the chunks that are appended, counted from [offset]. *)
Definition plannedChunkSize (fileSize maxChunks : Z) : Z :=
  let remaining := fileSize - mMinChunkSize in
  Z.min remaining (Z.max mMinChunkSize (ceilDiv remaining maxChunks)).

Definition plannedFrom (fileSize chunkSize offset : Z) : list IDownloadJob.t :=
  map (λ k : nat,
         let offset := offset + Z.of_nat k * chunkSize in
         newChunk offset (Z.min chunkSize (fileSize - offset)))
      (seq 0 (Z.to_nat (ceilDiv (fileSize - offset) chunkSize))).

Definition plannedChunks (fileSize chunkSize : Z) : list IDownloadJob.t :=
  plannedFrom fileSize chunkSize (mMinChunkSize + 1).







(** What the first statements of [updateDownload] keep: the queue, the
    limits, the chunks and the assembler of every download. *)
Record updated (m m' : DownloadManager) : Prop := {
  updated_maxWorkers : mMaxWorkers m' = mMaxWorkers m;
  updated_maxChunks : mMaxChunks m' = mMaxChunks m;
  updated_queue : mQueue m' = mQueue m;
  updated_downloads :
    ∀ d, option_Forall2
           (λ dl dl', IRunningDownload.chunks dl' = IRunningDownload.chunks dl
                      ∧ IRunningDownload.assembler dl' = IRunningDownload.assembler dl)
           (downloads m !! d) (downloads m' !! d);
}.

#[global] Instance updated_refl : Reflexive updated.
Proof. intros m. split; try done. intros d. by destruct (downloads m !! d); constructor. Qed.

#[global] Instance updated_trans : Transitive updated.
Proof.
  intros m m' m'' H1 H2. split.
  - rewrite (updated_maxWorkers _ _ H2). apply H1.
  - rewrite (updated_maxChunks _ _ H2). apply H1.
  - rewrite (updated_queue _ _ H2). apply H1.
  - intros d. pose proof (updated_downloads _ _ H1 d) as E1.
    pose proof (updated_downloads _ _ H2 d) as E2.
    destruct E1 as [? ? [Ha Hb]|]; inversion E2 as [? ? [Hc Hd]|]; subst; constructor.
    split; congruence.
Qed.

Lemma updated_logged e m : updated m (logged e m).
Proof.
  split; try done. intros d. simpl. by destruct (downloads m !! d); constructor.
Qed.

Lemma updated_withDownload d f m :
  (∀ dl, IRunningDownload.chunks (f dl) = IRunningDownload.chunks dl
         ∧ IRunningDownload.assembler (f dl) = IRunningDownload.assembler dl) →
  updated m (withDownload d f m).
Proof.
  intros H. split; try done. intros d'. unfold withDownload. simpl.
  rewrite lookup_alter. case_decide; [subst d'|by destruct (downloads m !! d'); constructor].
  destruct (downloads m !! d); constructor. apply H.
Qed.

Lemma updated_download m m' d dl :
  updated m m' → downloads m !! d = Some dl →
  ∃ dl', downloads m' !! d = Some dl'
    ∧ IRunningDownload.chunks dl' = IRunningDownload.chunks dl
    ∧ IRunningDownload.assembler dl' = IRunningDownload.assembler dl.
Proof.
  intros H Hd. pose proof (updated_downloads _ _ H d) as E. rewrite Hd in E.
  inversion E as [? dl' [H1 H2]|]; subst. eauto.
Qed.

Lemma setChunkable_spec m d dl chunkable :
  downloads m !! d = Some dl → wp (setChunkable d chunkable) (λ _ m', updated m m') m.
Proof.
  intros Hd. unfold setChunkable. wp_step. eapply wp_getDownload; [done|].
  destruct (_ || _); wp_step; [|reflexivity]. by apply updated_withDownload.
Qed.

Lemma setSize_spec m d dl size :
  downloads m !! d = Some dl → is_Some (IRunningDownload.assembler dl) →
  wp (setSize d size) (λ _ m', updated m m') m.
Proof.
  intros Hd [asm Ha]. unfold setSize. wp_step. eapply wp_getDownload; [done|].
  case_bool_decide; wp_steps; [reflexivity|]. rewrite Ha. wp_step.
  etrans; [|apply updated_logged]. by apply updated_withDownload.
Qed.

(** The statements of [updateDownload] before the layout. *)
Lemma updateDownload_head m d dl fileSize (fileName : option string) chunkable {A}
    (k : M A) Q :
  downloads m !! d = Some dl → is_Some (IRunningDownload.assembler dl) →
  (∀ m1, updated m m1 → wp k Q m1) →
  wp (match fileName with
      | Some name =>
          if bool_decide (name ≠ IRunningDownload.origName dl)
             && bool_decide (IRunningDownload.finalName dl = None)
          then emit (DeferRename d name)
          else mret tt
      | None => mret tt
      end;; setChunkable d chunkable;; setSize d fileSize;; k) Q m.
Proof.
  intros Hd Ha Hk. wp_step.
  assert (wp (match fileName with
      | Some name =>
          if bool_decide (name ≠ IRunningDownload.origName dl)
             && bool_decide (IRunningDownload.finalName dl = None)
          then emit (DeferRename d name)
          else mret tt
      | None => mret tt
      end) (λ _ m1, updated m m1) m) as H0.
  { destruct fileName as [name|]; [destruct (_ && _)|]; wp_step;
      [apply updated_logged|reflexivity|reflexivity]. }
  eapply wp_mono; [exact H0|]. cbv beta. intros _ m1 H1.
  destruct (updated_download _ _ _ _ H1 Hd) as (dl1 & Hd1 & _ & Ha1).
  wp_step. eapply wp_mono; [by eapply setChunkable_spec|]. cbv beta. intros _ m2 H2.
  destruct (updated_download _ _ _ _ H2 Hd1) as (dl2 & Hd2 & _ & Ha2).
  wp_step. eapply wp_mono; [eapply setSize_spec; [done|]; by rewrite Ha2, Ha1|].
  cbv beta. intros _ m3 H3. apply Hk. etrans; [done|]. by etrans.
Qed.



(** The layout of the second scenario of the specification: 80 MiB with
    four chunks and four workers at most. *)
Example plannedChunks_80MiB :
  plannedChunkSize (80 * 1024 * 1024) 4 = 20 * 1024 * 1024
  ∧ map (λ c, (IDownloadJob.offset c, IDownloadJob.size c))
        (plannedChunks (80 * 1024 * 1024) (20 * 1024 * 1024))
    = [(20 * 1024 * 1024 + 1, 20 * 1024 * 1024);
       (40 * 1024 * 1024 + 1, 20 * 1024 * 1024);
       (60 * 1024 * 1024 + 1, 20 * 1024 * 1024 - 1)].
Proof. split; vm_compute; reflexivity. Qed.

(** ** Stall detection *)

(** The worker after [restart()]. *)
Definition restarted (wk : DownloadWorker) : DownloadWorker :=
  set_mRestart true (set_mRequest (Some true) wk).

Lemma restart_spec m w wk :
  workers m !! w = Some wk → is_Some (mResponse wk) → is_Some (mRequest wk) →
  wp (restart w) (λ _ m',
      workers m' = <[w := restarted wk]> (workers m)
      ∧ trace m' = trace m ++ [RemoveErrorListeners w; RequestAbort w]
      ∧ mSlowWorkers m' = mSlowWorkers m ∧ mBusyWorkers m' = mBusyWorkers m
      ∧ downloads m' = downloads m ∧ mQueue m' = mQueue m) m.
Proof.
  intros Hw [rs Hrs] [rq Hrq]. unfold restart. wp_step. eapply wp_getWorker; [done|].
  rewrite Hrs. wp_steps. unfold mRequest_abort. wp_step.
  eapply wp_getWorker; [exact Hw|]. rewrite Hrq. wp_steps.
  split_and!; try done.
  - unfold withWorker, logged. simpl. apply map_eq. intros k.
    rewrite lookup_insert. case_decide; [subst k|].
    + by rewrite !lookup_alter_eq, Hw.
    + by rewrite !lookup_alter_ne.
  - unfold withWorker, logged. simpl. by rewrite <- app_assoc.
Qed.

(** X19: the progress callback of a job under the worker id [w].  When the
    speed calculator answers starving, the counter of [w] is incremented,
    and if it then exceeds 15 (15 starves were counted before this one)
    while the download started less than 15 minutes ago, a worker that is
    in the table of busy workers, with its request and response, is
    restarted and the counter cleared; otherwise only the counter changes,
    so that a worker of a download that started 15 minutes ago or more, or
    has no start date, is not restarted.  When the answer is healthy the
    counter is cleared, and when it is neither nothing changes. *)
Theorem makeProgressCB_stall m r job dl w now :
  jobAt m r = Some job → downloads m !! r.1 = Some dl →
  IDownloadJob.workerId job = Some w →
  let slow := default 0 (mSlowWorkers m !! w) + 1 in
  (∀ started wk,
     15 < slow → IRunningDownload.started dl = Some started →
     now - started < 15 * 60 * 1000 →
     w ∈ mBusyWorkers m → workers m !! w = Some wk →
     is_Some (mResponse wk) → is_Some (mRequest wk) →
     ∃ m', makeProgressCB r (Some true) now m = Some (tt, m')
       ∧ mSlowWorkers m' = delete w (mSlowWorkers m)
       ∧ workers m' = <[w := restarted wk]> (workers m)
       ∧ trace m' = trace m ++ [RemoveErrorListeners w; RequestAbort w])
  ∧ ((slow ≤ 15 ∨ IRunningDownload.started dl = None
      ∨ ∃ started, IRunningDownload.started dl = Some started
                   ∧ 15 * 60 * 1000 ≤ now - started) →
     makeProgressCB r (Some true) now m =
       Some (tt, set_mSlowWorkers (<[w := slow]> (mSlowWorkers m)) m))
  ∧ makeProgressCB r (Some false) now m =
      Some (tt, set_mSlowWorkers (delete w (mSlowWorkers m)) m)
  ∧ makeProgressCB r None now m = Some (tt, m).
Proof.
  intros Hjob Hd Hw slow.
  assert (Hrun : ∀ starving,
    makeProgressCB r starving now m =
      match starving with
      | Some true =>
          (m0 ← get;
           let slow := default 0 (mSlowWorkers m0 !! w) + 1 in
           modify (λ m, set_mSlowWorkers (<[w := slow]> (mSlowWorkers m)) m);;
           if (15 <? slow)
              && match IRunningDownload.started dl with
                 | Some started => now - started <? 15 * 60 * 1000
                 | None => false
                 end
           then
             match busyWorker m0 (Some w) with
             | None => throw
             | Some w => restart w
             end;;
             modify (λ m, set_mSlowWorkers (delete w (mSlowWorkers m)) m)
           else mret tt) m
      | Some false => Some (tt, set_mSlowWorkers (delete w (mSlowWorkers m)) m)
      | None => Some (tt, m)
      end).
  { intros starving. unfold makeProgressCB.
    erewrite bind_run; [|unfold getJob; rewrite Hjob; reflexivity].
    erewrite bind_run; [|unfold getDownload; rewrite Hd; reflexivity].
    rewrite Hw. by destruct starving as [[]|]. }
  split_and!; [| |apply Hrun..].
  - intros started wk Hslow Hst Hrecent Hbusy Hwk Hrs Hrq. rewrite Hrun.
    assert (wp (m0 ← get;
           let slow := default 0 (mSlowWorkers m0 !! w) + 1 in
           modify (λ m, set_mSlowWorkers (<[w := slow]> (mSlowWorkers m)) m);;
           if (15 <? slow)
              && match IRunningDownload.started dl with
                 | Some started => now - started <? 15 * 60 * 1000
                 | None => false
                 end
           then
             match busyWorker m0 (Some w) with
             | None => throw
             | Some w => restart w
             end;;
             modify (λ m, set_mSlowWorkers (delete w (mSlowWorkers m)) m)
           else mret tt)
      (λ _ m', mSlowWorkers m' = delete w (mSlowWorkers m)
         ∧ workers m' = <[w := restarted wk]> (workers m)
         ∧ trace m' = trace m ++ [RemoveErrorListeners w; RequestAbort w]) m) as H.
    { wp_step. apply wp_get. fold slow. cbv zeta. wp_steps.
      rewrite (proj2 (Z.ltb_lt _ _) Hslow), Hst, (proj2 (Z.ltb_lt _ _) Hrecent). simpl.
      rewrite decide_True by done. wp_step.
      eapply wp_mono; [by apply restart_spec|]. cbv beta.
      intros _ m' (Hws & Htr & Hsl & _). wp_step. simpl. rewrite Hsl. simpl.
      split_and!; [|done|done]. apply delete_insert_eq. }
    destruct H as ([] & m' & Hm' & H). eauto.
  - intros Hnot. rewrite Hrun. unfold mbind, M_bind, get, modify. simpl. fold slow.
    assert ((15 <? slow)
            && match IRunningDownload.started dl with
               | Some started => now - started <? 15 * 60 * 1000
               | None => false
               end = false) as ->; [|done].
    destruct Hnot as [Hs|[->|(started & -> & Hs)]].
    + by rewrite (proj2 (Z.ltb_ge _ _) Hs).
    + apply andb_false_r.
    + rewrite (proj2 (Z.ltb_ge _ _) Hs). apply andb_false_r.
Qed.

Lemma makeProgressCB_stall_witness :
  ∃ job dl,
    jobAt (set_mSlowWorkers {[0%nat := 15]} ex_chunked) (0%nat, 0%nat) = Some job
    ∧ downloads (set_mSlowWorkers {[0%nat := 15]} ex_chunked) !! 0%nat = Some dl
    ∧ IDownloadJob.workerId job = Some 0%nat
    ∧ ∃ m',
        makeProgressCB (0%nat, 0%nat) (Some true) 1000
          (set_mSlowWorkers {[0%nat := 15]} ex_chunked) = Some (tt, m')
        ∧ mSlowWorkers m' !! 0%nat = None
        ∧ RequestAbort 0 ∈ trace m'.
Proof.
  set (m := set_mSlowWorkers {[0%nat := 15]} ex_chunked).
  assert (∃ job dl wk, jobAt m (0%nat, 0%nat) = Some job
            ∧ downloads m !! 0%nat = Some dl
            ∧ IDownloadJob.workerId job = Some 0%nat
            ∧ IRunningDownload.started dl = Some 0
            ∧ workers m !! 0%nat = Some wk
            ∧ is_Some (mResponse wk) ∧ is_Some (mRequest wk))
    as (job & dl & wk & Hjob & Hd & Hw & Hst & Hwk & Hrs & Hrq)
    by (vm_compute; eauto 20).
  exists job, dl. split_and!; [exact Hjob|exact Hd|exact Hw|].
  destruct (makeProgressCB_stall m (0%nat, 0%nat) job dl 0%nat 1000 Hjob Hd Hw)
    as (Hrestart & _).
  destruct (Hrestart 0 wk) as (m' & Hrun & Hslow & _ & Htr);
    [vm_compute; reflexivity|exact Hst|vm_compute; reflexivity| |exact Hwk|exact Hrs|exact Hrq|].
  { apply elem_of_elements. vm_compute. apply list_elem_of_In. simpl. auto. }
  exists m'. split; [exact Hrun|]. split.
  - rewrite Hslow. apply lookup_delete_eq.
  - rewrite Htr. apply elem_of_app. right. right. left.
Defined.

(** ** Reserving a file name *)

Section UnusedNameFacts.
Variable sanitizeFilename : string → string.
Variable path_extname : string → string.
Variable path_basename : string → string → string.
Variable path_join : string → string → string.
Variable openFault : string → option Err.
Variable closeFault : string → option Err.

(** The name that [unusedName] reserves for [fileName], its extension and
    its base. *)
Definition reservedName (fileName : string) : string :=
  let fileName := sanitizeFilename fileName in
  if (fileName =? EmptyString)%string then "unnamed"%string else fileName.

(** The candidates of the loop: the name itself, then [base.1.ext],
    [base.2.ext], ... *)
Definition candidate (destination fileName : string) (counter : nat) : string :=
  let name := reservedName fileName in
  match counter with
  | O => path_join destination name
  | S _ =>
      path_join destination
        (tryName (path_basename name (path_extname name)) (path_extname name) counter)
  end.

(** A path that exists and whose opening fails with [EEXIST] only. *)
Definition taken (files : gset string) (p : string) : Prop :=
  p ∈ files ∧ openFault p = None.

(** A path that is free and is created without an error. *)
Definition free (files : gset string) (p : string) : Prop :=
  (p ∉ files) ∧ openFault p = None ∧ closeFault p = None.

Lemma reserve_taken files p :
  taken files p → reserve openFault closeFault files p = (Some EEXIST, files).
Proof. intros [Hin Ho]. unfold reserve. rewrite Ho. by rewrite decide_True. Qed.

Lemma reserve_free files p :
  free files p → reserve openFault closeFault files p = (None, {[p]} ∪ files).
Proof.
  intros (Hin & Ho & Hc). unfold reserve. rewrite Ho, Hc. by rewrite decide_False.
Qed.

(** The suffix loop: once the policy is out of the way (it was consulted,
    or no callback is registered), the loop returns the candidate of the
    first free counter. *)
Lemma unusedName_loop_suffix cb destination fileName redownload files n :
  ∀ fuel counter first,
    (first = false ∨ cb = None) →
    (∀ i, (counter ≤ i < counter + n)%nat → taken files (candidate destination fileName i)) →
    free files (candidate destination fileName (counter + n)) →
    (n < fuel)%nat →
    unusedName_loop path_join openFault closeFault fuel cb destination
      (reservedName fileName)
      (path_basename (reservedName fileName) (path_extname (reservedName fileName)))
      (path_extname (reservedName fileName)) redownload files counter first
      (candidate destination fileName counter)
    = Some (Resolved (candidate destination fileName (counter + n)),
            {[candidate destination fileName (counter + n)]} ∪ files).
Proof.
  induction n as [|n IH]; intros fuel counter first Hfirst Htaken Hfree Hfuel;
    (destruct fuel as [|fuel]; [lia|]); simpl.
  - rewrite Nat.add_0_r in *. by rewrite (reserve_free _ _ Hfree).
  - rewrite (reserve_taken _ _ (Htaken counter ltac:(lia))). simpl.
    assert (Hnext : unusedName_loop path_join openFault closeFault fuel cb destination
      (reservedName fileName)
      (path_basename (reservedName fileName) (path_extname (reservedName fileName)))
      (path_extname (reservedName fileName)) redownload files (S counter) first
      (candidate destination fileName (S counter))
      = Some (Resolved (candidate destination fileName (counter + S n)),
              {[candidate destination fileName (counter + S n)]} ∪ files)).
    { replace (counter + S n)%nat with (S counter + n)%nat by lia.
      apply IH; [done| |by replace (S counter + n)%nat with (counter + S n)%nat by lia|lia].
      intros i Hi. apply Htaken. lia. }
    destruct Hfirst as [->| ->]; [exact Hnext|]. by destruct first.
Qed.

(** C2 (as amended): the first candidate exists.  With a registered
    callback the policy is consulted: never rejects with
    [AlreadyDownloaded] of the name; ask calls the callback with the name
    and rejects with [UserCanceled] on false; ask on true, and always, go on
    with the suffix loop.  Without a callback the policy is not consulted
    and the suffix loop runs.  The suffix loop returns [base.n.ext] for the
    first free counter [n], which it creates. *)
Theorem unusedName_collision destination fileName files cb :
  taken files (candidate destination fileName 0) →
  (∀ fuel,
     unusedName sanitizeFilename path_extname path_basename path_join openFault closeFault
       (S fuel) (Some cb) destination fileName Never files
     = Some (Rejected (AlreadyDownloaded (reservedName fileName)), files))
  ∧ (∀ fuel, cb (reservedName fileName) = Continue false →
     unusedName sanitizeFilename path_extname path_basename path_join openFault closeFault
       (S fuel) (Some cb) destination fileName Ask files
     = Some (Rejected UserCanceled, files))
  ∧ (∀ n fuel redownload mFileExistsCB,
       (1 ≤ n < fuel)%nat →
       (∀ i, (1 ≤ i < n)%nat → taken files (candidate destination fileName i)) →
       free files (candidate destination fileName n) →
       (mFileExistsCB = Some cb ∧
          (redownload = Always
           ∨ (redownload = Ask ∧ cb (reservedName fileName) = Continue true)))
       ∨ mFileExistsCB = None →
       unusedName sanitizeFilename path_extname path_basename path_join openFault closeFault
         fuel mFileExistsCB destination fileName redownload files
       = Some (Resolved (candidate destination fileName n),
               {[candidate destination fileName n]} ∪ files)).
Proof.
  intros Htaken. split_and!.
  - intros fuel. unfold unusedName. fold (reservedName fileName). simpl.
    fold (candidate destination fileName 0). by rewrite (reserve_taken _ _ Htaken).
  - intros fuel Hcb. unfold unusedName. fold (reservedName fileName). simpl.
    fold (candidate destination fileName 0). rewrite (reserve_taken _ _ Htaken). simpl.
    by rewrite Hcb.
  - intros n fuel redownload mFileExistsCB Hn Htk Hfree Hpol.
    destruct fuel as [|fuel]; [lia|].
    unfold unusedName. fold (reservedName fileName).
    destruct Hpol as [[-> Hpol]| ->].
    + simpl. fold (candidate destination fileName 0).
      rewrite (reserve_taken _ _ Htaken). simpl.
      fold (candidate destination fileName 1).
      assert (Hloop := unusedName_loop_suffix (Some cb) destination fileName redownload
                         files (n - 1) fuel 1 false (or_introl eq_refl)).
      replace (1 + (n - 1))%nat with n in Hloop by lia.
      destruct Hpol as [-> | [-> Hcb]]; [|rewrite Hcb]; apply Hloop; try done; try lia;
        intros i Hi; apply Htk; lia.
    + fold (candidate destination fileName 0).
      assert (Hloop := unusedName_loop_suffix None destination fileName redownload
                         files n (S fuel) 0 true (or_intror eq_refl)).
      apply Hloop; [|done|lia].
      intros i Hi. destruct i; [done|]. apply Htk. lia.
Qed.
End UnusedNameFacts.

(** Stand-ins for [path.extname] and [path.basename(name, ext)] on names
    without directories, for the examples. *)
Fixpoint ex_ext_of (s : string) : option string :=
  match s with
  | EmptyString => None
  | String c s' =>
      match ex_ext_of s' with
      | Some e => Some e
      | None => if bool_decide (c = "."%char) then Some s else None
      end
  end.
Definition ex_extname (s : string) : string := default EmptyString (ex_ext_of s).
Definition ex_basename (s ext : string) : string :=
  if endsWith s ext then String.substring 0 (String.length s - String.length ext) s else s.
Definition ex_noFault (p : string) : option Err := None.

(** The download directory of the examples, with [file.zip] and
    [file.1.zip]. *)
Definition ex_files : gset string := {["/dl/file.zip"%string; "/dl/file.1.zip"%string]}.

(** C2, counterexample: no callback is registered with [setFileExistsCB]
    and the policy is never.  The existing [file.zip] does not make
    [unusedName] reject: it reserves [file.2.zip]. *)
Lemma unusedName_never_without_callback :
  "/dl/file.zip"%string ∈ ex_files
  ∧ unusedName (λ s, s) ex_extname ex_basename ex_join ex_noFault ex_noFault 5
      (mFileExistsCB (newDownloadManager "/dl" 2 4)) "/dl" "file.zip" Never ex_files
    = Some (Resolved "/dl/file.2.zip"%string, {["/dl/file.2.zip"%string]} ∪ ex_files)
  ∧ unusedName (λ s, s) ex_extname ex_basename ex_join ex_noFault ex_noFault 5
      (mFileExistsCB (newDownloadManager "/dl" 2 4)) "/dl" "file.zip" Never ex_files
    ≠ Some (Rejected (AlreadyDownloaded "file.zip"), ex_files).
Proof.
  split_and!.
  - vm_compute. reflexivity.
  - vm_compute. reflexivity.
  - vm_compute. discriminate.
Qed.

Lemma unusedName_collision_witness :
  taken ex_noFault ex_files (candidate (λ s, s) ex_extname ex_basename ex_join "/dl" "file.zip" 0)
  ∧ unusedName (λ s, s) ex_extname ex_basename ex_join ex_noFault ex_noFault 5
      (Some (λ _, Continue true)) "/dl" "file.zip" Always ex_files
    = Some (Resolved "/dl/file.2.zip"%string, {["/dl/file.2.zip"%string]} ∪ ex_files).
Proof.
  assert (Ht : ∀ i, (i < 2)%nat →
            taken ex_noFault ex_files
              (candidate (λ s, s) ex_extname ex_basename ex_join "/dl" "file.zip" i)).
  { intros i Hi. split; [|reflexivity].
    destruct i as [|[|i]]; [vm_compute; reflexivity..|lia]. }
  split; [apply Ht; lia|].
  refine (proj2 (proj2 (unusedName_collision (λ s, s) ex_extname ex_basename ex_join
            ex_noFault ex_noFault "/dl" "file.zip" ex_files (λ _, Continue true)
            (Ht 0%nat ltac:(lia)))) 2%nat 5%nat Always _ ltac:(lia) _ _ _).
  - intros i Hi. apply Ht. lia.
  - split_and!; [|reflexivity..]. intros Hin. vm_compute in Hin. discriminate.
  - left. split; [reflexivity|]. by left.
Defined.

(** With the policy replace and a callback registered, the path that is
    returned is [file.1.zip]: the path was advanced before the policy is
    looked at, and no file is created. *)
Example unusedName_replace :
  unusedName (λ s, s) ex_extname ex_basename ex_join ex_noFault ex_noFault 5
    (Some (λ _, Continue true)) "/dl" "file.zip" Replace ex_files
  = Some (Resolved "/dl/file.1.zip"%string, ex_files).
Proof. vm_compute. reflexivity. Qed.

(** ** enqueue *)

Section EnqueueFacts.
Variable nameFromUrl : string → option string.

(** C9 (as amended): [enqueue] with an empty list of urls returns a promise
    rejected with the plain error 'No download urls', and leaves the
    manager, its queue included, as it is. *)
Theorem enqueue_no_urls m id fileName destinationPath redownload :
  enqueue nameFromUrl id [] fileName destinationPath redownload m
  = Some (EnqueueRejected (JsError "No download urls" None), m).
Proof. reflexivity. Qed.
End EnqueueFacts.

(** C9, counterexample: the error of the rejection is not a
    [DataInvalid]. *)
Lemma enqueue_no_urls_not_data_invalid :
  ¬ ∃ message m',
      enqueue (λ _, None) "a" [] None None Ask (newDownloadManager "/dl" 2 4)
      = Some (EnqueueRejected (DataInvalid message), m').
Proof. intros (message & m' & H). vm_compute in H. discriminate. Qed.

(** ** Responses *)

Lemma updated_jobAt m m' r : updated m m' → jobAt m' r = jobAt m r.
Proof.
  intros H. unfold jobAt. destruct (updated_downloads _ _ H r.1) as [dl dl' [Hc _]|]; [|done].
  simpl. by rewrite Hc.
Qed.

Lemma updateDownloadSize_spec m d dl size chunkable :
  downloads m !! d = Some dl → is_Some (IRunningDownload.assembler dl) →
  wp (updateDownloadSize d size chunkable) (λ _ m', updated m m') m.
Proof.
  intros Hd Ha. unfold updateDownloadSize. wp_step.
  eapply wp_mono; [by eapply setSize_spec|]. cbv beta. intros _ m1 H1.
  destruct (updated_download _ _ _ _ H1 Hd) as (dl1 & Hd1 & _).
  eapply wp_mono; [by eapply setChunkable_spec|]. cbv beta. intros _ m2 H2. by etrans.
Qed.

(** Without support of ranges, [updateDownload] leaves the chunks. *)
Lemma updateDownload_unchunked m d dl fileSize fileName :
  downloads m !! d = Some dl → is_Some (IRunningDownload.assembler dl) →
  wp (updateDownload d fileSize fileName false) (λ _ m', updated m m') m.
Proof.
  intros Hd Ha. unfold updateDownload. wp_step. eapply wp_getDownload; [done|].
  apply updateDownload_head; [done|done|]. intros mp Hup.
  destruct (updated_download _ _ _ _ Hup Hd) as (dlp & Hdp & _).
  wp_step. eapply wp_getDownload; [done|].
  case_decide; [by wp_step|]. rewrite andb_false_r. by wp_step.
Qed.

(** The download [d] is there and has its assembler. *)
Definition assembled (m : DownloadManager) (d : nat) : Prop :=
  ∃ dl, downloads m !! d = Some dl ∧ is_Some (IRunningDownload.assembler dl).

Lemma assembled_withDownload m d d' f :
  (∀ dl, IRunningDownload.assembler (f dl) = IRunningDownload.assembler dl) →
  assembled m d → assembled (withDownload d' f m) d.
Proof.
  intros Hf (dl & Hd & Ha). destruct (decide (d' = d)) as [->|Hne].
  - exists (f dl). rewrite downloads_withDownload_eq, Hd. by rewrite Hf.
  - exists dl. by rewrite downloads_withDownload_ne.
Qed.

Lemma assembled_withJob m d r f : assembled m d → assembled (withJob r f m) d.
Proof. intros H. unfold withJob. by apply assembled_withDownload. Qed.

Lemma callResponseCB_spec m cb d fileSize fileName :
  assembled m d →
  wp (callResponseCB cb d fileSize fileName false) (λ _ m', updated m m') m.
Proof.
  intros (dl & Hd & Ha). destruct cb as [fromUrl|]; simpl.
  - by eapply updateDownload_unchunked.
  - by eapply updateDownloadSize_spec.
Qed.

Section ResponseFacts.
Variable url_resolve : string → string → string.
Variable contentDisposition_parse : string → option (option string).

(** What [handleResponse] does to a job with a response callback when the
    response has no Content-Range header. *)
Definition fullBody (chunkSize : Z) (job : IDownloadJob.t) : IDownloadJob.t :=
  if bool_decide (chunkSize ≠ IDownloadJob.size job)
  then IDownloadJob.set_confirmedSize chunkSize
         (IDownloadJob.set_size chunkSize (IDownloadJob.set_offset 0 job))
  else IDownloadJob.set_offset 0 job.

Lemma handleResponse_fullBody m w wk job response jobUrl cb :
  workers m !! w = Some wk → jobAt m (mJob wk) = Some job →
  assembled m (mJob wk).1 →
  statusCode response < 300 → isHTMLHeader (headers response) = false →
  content_range (headers response) = None →
  IDownloadJob.responseCB job = Some cb →
  wp (handleResponse url_resolve contentDisposition_parse w response jobUrl)
     (λ _ m', jobAt m' (mJob wk) =
                Some (fullBody (default (-1) (content_length (headers response))) job)) m.
Proof.
  intros Hw Hjob Hd Hstatus Hhtml Hrange Hcb.
  set (chunkSize := default (-1) (content_length (headers response))).
  unfold handleResponse. wp_step. eapply wp_getWorker; [done|].
  rewrite (proj2 (Z.leb_gt _ _)) by lia. wp_steps. rewrite Hhtml, Hrange.
  wp_step. eapply wp_getJob.
  { rewrite jobAt_withDownload by done. rewrite jobAt_logged. exact Hjob. }
  rewrite Hcb. rewrite bool_decide_eq_false_2 by (by intros []).
  fold chunkSize. wp_steps.
  set (m1 := withDownload _ _ (logged _ m)).
  set (m2 := withJob (mJob wk) (IDownloadJob.set_offset 0) m1).
  assert (Hj2 : jobAt m2 (mJob wk) = Some (IDownloadJob.set_offset 0 job)).
  { unfold m2, m1. rewrite jobAt_withJob_eq, jobAt_withDownload by done.
    by rewrite jobAt_logged, Hjob. }
  assert (Ha2 : assembled m2 (mJob wk).1).
  { apply assembled_withJob. apply assembled_withDownload; [done|].
    destruct Hd as (dl & ? & ?). by exists dl. }
  eapply (wp_mono _ (λ _ m3, assembled m3 (mJob wk).1
                             ∧ jobAt m3 (mJob wk) = Some (fullBody chunkSize job))).
  { unfold fullBody. case_bool_decide; wp_step; (split; [|]); try done.
    - by apply assembled_withJob.
    - by rewrite jobAt_withJob_eq, Hj2. }
  cbv beta. intros _ m3 [Ha3 Hj3]. wp_steps.
  eapply wp_mono; [apply callResponseCB_spec|].
  { destruct Ha3 as (dl & ? & ?). by exists dl. }
  cbv beta. intros _ m4 H4. rewrite (updated_jobAt _ _ _ H4). by rewrite jobAt_logged.
Qed.

(** A job without response callback is left as it is by a response below
    300 that is not HTML. *)
Lemma handleResponse_no_callback m w wk job response jobUrl :
  workers m !! w = Some wk → jobAt m (mJob wk) = Some job →
  statusCode response < 300 → isHTMLHeader (headers response) = false →
  IDownloadJob.responseCB job = None →
  wp (handleResponse url_resolve contentDisposition_parse w response jobUrl)
     (λ _ m', jobAt m' (mJob wk) = Some job) m.
Proof.
  intros Hw Hjob Hstatus Hhtml Hcb.
  assert (Hj1 : jobAt (withDownload (mJob wk).1
                         (IRunningDownload.set_headers (Some (headers response)))
                         (logged (CallHeadersCB w) m)) (mJob wk) = Some job).
  { rewrite jobAt_withDownload by done. rewrite jobAt_logged. exact Hjob. }
  unfold handleResponse. wp_step. eapply wp_getWorker; [done|].
  rewrite (proj2 (Z.leb_gt _ _)) by lia. wp_steps. rewrite Hhtml.
  wp_step. eapply wp_getJob; [exact Hj1|]. rewrite Hcb. wp_step. exact Hj1.
Qed.

(** C10 (as amended): a response with a status below 300 that is not HTML
    and has no Content-Range header.  For a job that has a response
    callback the offset of the job is set to 0, its size is the
    Content-Length (-1 when the header is missing), its confirmed size is
    overwritten with it when the size differed, and the other counters and
    the state of the job are kept.  A job without response callback is
    left as it is. *)
Theorem handleResponse_full_body m w wk job response jobUrl :
  workers m !! w = Some wk → jobAt m (mJob wk) = Some job →
  assembled m (mJob wk).1 →
  statusCode response < 300 → isHTMLHeader (headers response) = false →
  content_range (headers response) = None →
  let chunkSize := default (-1) (content_length (headers response)) in
  ∃ m' job',
    handleResponse url_resolve contentDisposition_parse w response jobUrl m = Some (tt, m')
    ∧ jobAt m' (mJob wk) = Some job'
    ∧ (is_Some (IDownloadJob.responseCB job) →
       IDownloadJob.offset job' = 0
       ∧ IDownloadJob.size job' = chunkSize
       ∧ IDownloadJob.confirmedSize job' =
           (if bool_decide (chunkSize ≠ IDownloadJob.size job)
            then chunkSize else IDownloadJob.confirmedSize job)
       ∧ IDownloadJob.received job' = IDownloadJob.received job
       ∧ IDownloadJob.confirmedOffset job' = IDownloadJob.confirmedOffset job
       ∧ IDownloadJob.confirmedReceived job' = IDownloadJob.confirmedReceived job
       ∧ IDownloadJob.state job' = IDownloadJob.state job)
    ∧ (IDownloadJob.responseCB job = None → job' = job).
Proof.
  intros Hw Hjob Hd Hstatus Hhtml Hrange chunkSize.
  destruct (IDownloadJob.responseCB job) as [cb|] eqn:Hcb.
  - destruct (handleResponse_fullBody m w wk job response jobUrl cb)
      as ([] & m' & Hrun & H); try done.
    exists m', (fullBody chunkSize job). split; [done|]. split; [done|].
    split; [|done]. intros _.
    unfold fullBody. case_bool_decide as Hne; simpl; split_and!; try done.
  - destruct (handleResponse_no_callback m w wk job response jobUrl)
      as ([] & m' & Hrun & H); try done.
    exists m', job. split; [done|]. split; [done|]. split; [|done].
    by intros [? ?].
Qed.

(** A response beyond 299: a redirect that is followed sets the timer for
    the resolved location, and throws when the response has no location;
    every other response is an error. *)
Lemma handleResponse_redirect m w wk response jobUrl :
  workers m !! w = Some wk → 300 ≤ statusCode response →
  handleResponse url_resolve contentDisposition_parse w response jobUrl m =
    if isRedirect (statusCode response) && (mRedirectsFollowed wk <? MAX_REDIRECT_FOLLOW)
    then
      match location (headers response) with
      | None => None
      | Some loc =>
          let newUrl := url_resolve jobUrl loc in
          Some (tt, logged (DeferRedirect w newUrl 100)
                      (withWorker w (set_mRedirected true)
                         (withJob (mJob wk) (IDownloadJob.set_url (ConstUrl newUrl)) m)))
      end
    else
      handleError w (HTTPError (statusCode response) (statusMessage response) jobUrl) m.
Proof.
  intros Hw Hstatus. unfold handleResponse.
  assert (Hgw : getWorker w m = Some (wk, m)) by (unfold getWorker; by rewrite Hw).
  rewrite (bind_run _ _ _ _ _ Hgw). rewrite (proj2 (Z.leb_le _ _)) by lia.
  destruct (_ && _); [|done]. by destruct (location (headers response)).
Qed.
End ResponseFacts.

Definition ex_ok : IncomingMessage :=
  {| statusCode := 200; statusMessage := "OK";
     headers := ex_headers (80 * 1024 * 1024) None |}.

(** The second chunk has no response callback: a response without
    Content-Range leaves its offset and its size. *)
Lemma handleResponse_without_callback :
  ∃ wk job m',
    workers ex_chunked !! 1%nat = Some wk ∧ jobAt ex_chunked (mJob wk) = Some job
    ∧ IDownloadJob.offset job = 20971521 ∧ IDownloadJob.size job = 31457280
    ∧ handleResponse ex_resolve ex_disposition 1 ex_ok ex_url ex_chunked = Some (tt, m')
    ∧ jobAt m' (mJob wk) = Some job.
Proof. vm_compute. eauto 10. Qed.

Lemma handleResponse_full_body_witness :
  ∃ m' job',
    handleResponse ex_resolve ex_disposition 0 ex_ok ex_url ex_requested = Some (tt, m')
    ∧ jobAt m' (0%nat, 0%nat) = Some job'
    ∧ IDownloadJob.offset job' = 0
    ∧ IDownloadJob.size job' = 80 * 1024 * 1024.
Proof.
  assert (∃ wk job cb, workers ex_requested !! 0%nat = Some wk
            ∧ mJob wk = (0%nat, 0%nat)
            ∧ jobAt ex_requested (mJob wk) = Some job
            ∧ IDownloadJob.responseCB job = Some cb)
    as (wk & job & cb & Hw & Hr & Hjob & Hcb) by (vm_compute; eauto 10).
  assert (Ha : assembled ex_requested (mJob wk).1).
  { rewrite Hr. vm_compute. eauto. }
  destruct (handleResponse_full_body ex_resolve ex_disposition ex_requested 0 wk job ex_ok
              ex_url Hw Hjob Ha)
    as (m' & job' & Hrun & Hj' & Hsome & _);
    [vm_compute; reflexivity|reflexivity|reflexivity|].
  destruct Hsome as (Ho & Hs & _); [rewrite Hcb; eexists; reflexivity|].
  exists m', job'. rewrite <- Hr. split_and!; [exact Hrun|exact Hj'|exact Ho|exact Hs].
Defined.

(** ** A redirect *)

Definition ex_mirror : string := "http://mirror/file.zip".

Definition ex_redirect : IncomingMessage :=
  {| statusCode := 302; statusMessage := "Found";
     headers := {| content_type := None; content_length := None; content_range := None;
                   content_disposition := None; location := Some ex_mirror |} |}.

(** The worker of the second chunk is redirected. *)
Definition ex_redirected : DownloadManager :=
  after (onResponse ex_resolve ex_disposition 1 ex_redirect ex_url) ex_chunked.

(** The timer has run and the request is sent again. *)
Definition ex_reissued : DownloadManager :=
  after (handleResponse_timeout 1 ex_mirror;; startDownload ex_parse_throws ex_request_throws 1 ex_mirror) ex_redirected.

(** C3: the second chunk, of 31457280 bytes from offset 20971521, is
    redirected before it received data.  The location is resolved, the
    timer is set to 100 ms, and the request is sent again to the new url
    with the counter of redirects incremented; but the offset of the job is
    0 then, not 20971521 as it was before the request, and the range that
    is requested starts at 0. *)
Theorem handleResponse_redirect_offset :
  ∃ job wk' job',
    jobAt ex_chunked (0%nat, 1%nat) = Some job
    ∧ IDownloadJob.offset job = 20971521 ∧ IDownloadJob.size job = 31457280
    ∧ IDownloadJob.received job = 0
    ∧ onResponse ex_resolve ex_disposition 1 ex_redirect ex_url ex_chunked
      = Some (tt, ex_redirected)
    ∧ last (trace ex_redirected) = Some (DeferRedirect 1 ex_mirror 100)
    ∧ (handleResponse_timeout 1 ex_mirror;; startDownload ex_parse_throws ex_request_throws 1 ex_mirror) ex_redirected
      = Some (tt, ex_reissued)
    ∧ workers ex_reissued !! 1%nat = Some wk' ∧ mRedirectsFollowed wk' = 1
    ∧ jobAt ex_reissued (0%nat, 1%nat) = Some job'
    ∧ IDownloadJob.size job' = 31457280
    ∧ IDownloadJob.offset job' = 0 ∧ IDownloadJob.confirmedOffset job' = 0
    ∧ last (trace ex_reissued) = Some (Request 1 ex_mirror None 0 31457280).
Proof. vm_compute. eauto 20. Qed.

(** ** The ended flag *)

(** [assignJob] on a worker that has not ended leaves it so, and its job
    in the state it has. *)
Lemma assignJob_keeps m w wk job jobUrl :
  workers m !! w = Some wk → jobAt m (mJob wk) = Some job → mEnded wk = false →
  wp (assignJob w (Some jobUrl))
     (λ _ m', ∃ wk' job',
        workers m' !! w = Some wk' ∧ mEnded wk' = false ∧ mJob wk' = mJob wk
        ∧ jobAt m' (mJob wk) = Some job'
        ∧ IDownloadJob.state job' = IDownloadJob.state job) m.
Proof.
  intros Hw Hjob Hended. unfold assignJob. wp_steps.
  assert (Hw1 : workers (withWorker w (set_mDataHistory []) m) !! w
                = Some (set_mDataHistory [] wk)).
  { by rewrite workers_withWorker_eq, Hw. }
  eapply wp_getWorker; [exact Hw1|]. wp_step. eapply wp_getJob; [exact Hjob|].
  destruct (IDownloadJob.size job <=? 0).
  2:{ wp_step. exists (set_mDataHistory [] wk), job. split_and!; done. }
  unfold handleComplete. wp_step. eapply wp_getWorker; [exact Hw1|].
  change (mEnded (set_mDataHistory [] wk)) with (mEnded wk). rewrite Hended.
  wp_step. unfold writeBuffer. wp_step. eapply wp_getWorker; [exact Hw1|].
  destruct (mBuffers (set_mDataHistory [] wk)) as [|b bs].
  { wp_steps. exists (set_mDataHistory [] wk), job. split_and!; done. }
  wp_steps. unfold doWriteBuffer. wp_step.
  eapply wp_getWorker.
  { by rewrite workers_withWorker_eq, Hw1. }
  wp_step. eapply wp_getJob; [exact Hjob|]. wp_steps.
  eexists _, _. split_and!.
  - simpl. rewrite !lookup_alter_eq, Hw. reflexivity.
  - done.
  - done.
  - simpl mJob. rewrite jobAt_logged, jobAt_withJob_eq, !jobAt_logged, !jobAt_withWorker, Hjob.
    reflexivity.
  - done.
Qed.

(** The timer of a redirect clears the ended flag of the worker and puts
    its job into the state running. *)
Lemma handleResponse_timeout_revives m w wk job newUrl :
  workers m !! w = Some wk → jobAt m (mJob wk) = Some job →
  wp (handleResponse_timeout w newUrl)
     (λ _ m', ∃ wk' job',
        workers m' !! w = Some wk' ∧ mEnded wk' = false
        ∧ jobAt m' (mJob wk) = Some job' ∧ IDownloadJob.state job' = Running) m.
Proof.
  intros Hw Hjob. unfold handleResponse_timeout. wp_steps.
  eapply wp_getWorker.
  { rewrite !workers_withWorker_eq, Hw. reflexivity. }
  simpl mJob. wp_steps.
  eapply wp_mono.
  { eapply assignJob_keeps with (wk := set_mEnded false _).
    - simpl. rewrite !lookup_alter_eq, Hw. reflexivity.
    - simpl mJob. rewrite jobAt_withWorker, !jobAt_withJob_eq, !jobAt_withWorker, Hjob.
      reflexivity.
    - done. }
  cbv beta. intros _ m' (wk' & job' & Hw' & He' & _ & Hj' & Hs'). exists wk', job'.
  split_and!; done.
Qed.

(** C8 (as amended): while the ended flag of a worker is set, [abort]
    returns false and [handleError] returns, both without any effect, and
    [handleData] drops the buffer: it only aborts the request, nothing is
    written and no counter of a job advances.  The timer of a redirect
    clears the flag again and puts the job into the state running. *)
Theorem ended_worker_ignores m w wk :
  workers m !! w = Some wk → mEnded wk = true →
  (∀ paused, abort w paused m = Some (false, m))
  ∧ (∀ err, handleError w err m = Some (tt, m))
  ∧ (∀ len now starving,
       is_Some (jobAt m (mJob wk)) → is_Some (mRequest wk) →
       ∃ m', handleData w len now starving m = Some (tt, m')
         ∧ m' = logged (RequestAbort w) (withWorker w (set_mRequest (Some true)) m)
         ∧ ∀ r, jobAt m' r = jobAt m r)
  ∧ (∀ newUrl,
       is_Some (jobAt m (mJob wk)) →
       ∃ m' wk' job',
         handleResponse_timeout w newUrl m = Some (tt, m')
         ∧ workers m' !! w = Some wk' ∧ mEnded wk' = false
         ∧ jobAt m' (mJob wk) = Some job' ∧ IDownloadJob.state job' = Running).
Proof.
  intros Hw Hended.
  assert (Hgw : getWorker w m = Some (wk, m)) by (unfold getWorker; by rewrite Hw).
  split_and!.
  - intros paused. unfold abort. by rewrite (bind_run _ _ _ _ _ Hgw), Hended.
  - intros err. unfold handleError. by rewrite (bind_run _ _ _ _ _ Hgw), Hended.
  - intros len now starving [job Hjob] [req Hreq].
    assert (Hgj : getJob (mJob wk) m = Some (job, m)) by (unfold getJob; by rewrite Hjob).
    eexists. split; [|split; [reflexivity|done]].
    unfold handleData. rewrite (bind_run _ _ _ _ _ Hgw), (bind_run _ _ _ _ _ Hgj), Hended.
    simpl. unfold mRequest_abort. by rewrite (bind_run _ _ _ _ _ Hgw), Hreq.
  - intros newUrl [job Hjob].
    destruct (handleResponse_timeout_revives m w wk job newUrl Hw Hjob)
      as ([] & m' & Hrun & wk' & job' & H).
    exists m', wk', job'. by split.
Qed.

(** The download is cancelled while the worker waits for the timer of the
    redirect; the timer runs, the request is sent again and answered. *)
Definition ex_cancelled : DownloadManager := after (cancel 1) ex_redirected.

Definition ex_partial : IncomingMessage :=
  {| statusCode := 206; statusMessage := "Partial Content";
     headers := ex_headers 31457281 (Some (80 * 1024 * 1024)) |}.

Definition ex_revived : DownloadManager :=
  after (handleResponse_timeout 1 ex_mirror;; startDownload ex_parse_throws ex_request_throws 1 ex_mirror;;
         onResponse ex_resolve ex_disposition 1 ex_partial ex_mirror) ex_cancelled.

(** The finish callback of the worker was called, and the timer of the
    redirect clears the flag: the data that arrives then is written and the
    counters of the job advance. *)
Lemma finish_then_redirect_data :
  ∃ wk job m' job',
    cancel 1 ex_redirected = Some (tt, ex_cancelled)
    ∧ CallFinishCB 1 false ∈ trace ex_cancelled
    ∧ workers ex_cancelled !! 1%nat = Some wk ∧ mEnded wk = true
    ∧ (handleResponse_timeout 1 ex_mirror;; startDownload ex_parse_throws ex_request_throws 1 ex_mirror;;
       onResponse ex_resolve ex_disposition 1 ex_partial ex_mirror) ex_cancelled
      = Some (tt, ex_revived)
    ∧ jobAt ex_revived (0%nat, 1%nat) = Some job ∧ IDownloadJob.received job = 0
    ∧ handleData 1 BUFFER_SIZE 7 None ex_revived = Some (tt, m')
    ∧ drop (length (trace ex_revived)) (trace m')
      = [DataCB 0 0 262144; DeferAck 1 262144; DeferWritten 1; CallProgressCB 1 262144]
    ∧ jobAt m' (0%nat, 1%nat) = Some job' ∧ IDownloadJob.received job' = 262144.
Proof.
  do 4 eexists. split_and!; try (vm_compute; reflexivity).
  apply list_elem_of_In. vm_compute. auto 30.
Qed.

Definition ex_reset : Err := JsError "read ECONNRESET" (Some "ECONNRESET"%string).

Lemma ended_worker_ignores_witness :
  ∃ wk, workers ex_cancelled !! 1%nat = Some wk ∧ mEnded wk = true
    ∧ abort 1 false ex_cancelled = Some (false, ex_cancelled)
    ∧ handleError 1 ex_reset ex_cancelled = Some (tt, ex_cancelled)
    ∧ ∃ m', handleData 1 BUFFER_SIZE 7 None ex_cancelled = Some (tt, m')
        ∧ ∀ r, jobAt m' r = jobAt ex_cancelled r.
Proof.
  assert (∃ wk, workers ex_cancelled !! 1%nat = Some wk ∧ mEnded wk = true
            ∧ is_Some (jobAt ex_cancelled (mJob wk)) ∧ is_Some (mRequest wk))
    as (wk & Hw & He & Hj & Hr) by (vm_compute; eauto 10).
  destruct (ended_worker_ignores ex_cancelled 1 wk Hw He) as (Ha & Hb & Hc & _).
  destruct (Hc BUFFER_SIZE 7 None Hj Hr) as (m' & Hrun & _ & Hjobs).
  exists wk. split_and!; [exact Hw|exact He|apply Ha|apply Hb|].
  exists m'. split; [exact Hrun|exact Hjobs].
Defined.

(** ** A revived worker that starves *)

(** The worker of the second chunk, revived by the timer of the redirect
    after [finishChunk] took it from the table of busy workers, reports
    progress fifteen times while the speed calculator answers starving. *)
Definition ex_starved : DownloadManager :=
  Nat.iter 15 (after (makeProgressCB (0%nat, 1%nat) (Some true) 1000)) ex_revived.

(** C7: the sixteenth starving tick of the revived worker, one second after
    the download started.  The counter of the worker is 15 and would exceed
    15, but the worker is not in the table of busy workers:
    [this.mBusyWorkers[job.workerId].restart()] throws, the worker is not
    restarted and the counter is not cleared.  The data that caused the
    tick is lost with it: [handleData] throws as well. *)
Theorem makeProgressCB_revived_worker :
  ∃ wk job dl,
    workers ex_starved !! 1%nat = Some wk ∧ mEnded wk = false
    ∧ mJob wk = (0%nat, 1%nat)
    ∧ jobAt ex_starved (0%nat, 1%nat) = Some job
    ∧ IDownloadJob.workerId job = Some 1%nat ∧ IDownloadJob.state job = Running
    ∧ downloads ex_starved !! 0%nat = Some dl ∧ IRunningDownload.started dl = Some 0
    ∧ mSlowWorkers ex_starved !! 1%nat = Some 15
    ∧ elements (mBusyWorkers ex_starved) = [0%nat]
    ∧ makeProgressCB (0%nat, 1%nat) (Some true) 1000 ex_starved = None
    ∧ handleData 1 BUFFER_SIZE 1000 (Some true) ex_starved = None.
Proof. vm_compute. eauto 20. Qed.

(** ** Errors *)

Lemma wp_forEach {A} (I : DownloadManager → Prop) (l : list A) (f : A → M unit) m :
  I m → (∀ a m, a ∈ l → I m → wp (f a) (λ _ m', I m') m) →
  wp (forEach l f) (λ _ m', I m') m.
Proof.
  revert m. induction l as [|a l IH]; intros m Hm Hf; simpl; [by wp_step|].
  wp_step. eapply wp_mono; [apply Hf; [by left|done]|]. cbv beta. intros _ m1 H1.
  apply IH; [done|]. intros a' m' Ha'. apply Hf. by right.
Qed.

(** [cancelDownload] ends the workers of the running chunks and pauses the
    chunks; the data of every job is kept. *)
Lemma cancelDownload_spec m d dl err :
  wf m → downloads m !! d = Some dl →
  wp (cancelDownload d err) (λ _ m', evolves m m') m.
Proof.
  intros Hwf Hd. unfold cancelDownload. wp_step. eapply wp_getDownload; [done|].
  wp_step. eapply wp_mono.
  { apply (wp_forEach (λ mi, evolves m mi)); [reflexivity|].
    intros j mi Hj Hev. apply elem_of_seq in Hj as [_ Hj]. simpl in Hj.
    destruct (lookup_lt_is_Some_2 (IRunningDownload.chunks dl) j) as [c Hc]; [lia|].
    destruct (evolves_jobAt _ _ (d, j) c Hev) as (c' & Hc' & _); [by eapply jobAt_Some|].
    wp_step. eapply wp_getJob; [done|].
    case_decide; [|by wp_step].
    wp_step. wp_step. wp_step.
    assert (Hwfi : wf mi) by (by eapply evolves_wf).
    assert (Hlast : ∀ mj, evolves m mj → is_Some (jobAt mj (d, j)) →
              evolves m (withJob (d, j) (IDownloadJob.set_state Paused) mj)).
    { intros mj Hmj _. etrans; [done|]. apply evolves_withJob. intros c0 _.
      exists Paused, (IDownloadJob.workerId c0). split_and!; try done. }
    destruct (busyWorker mi (IDownloadJob.workerId c')) as [w|] eqn:Hbw.
    - apply busyWorker_Some in Hbw as [_ Hbusy].
      destruct (wf_busy _ Hwfi w Hbusy) as (wk & dlw & Hwk & Hrest).
      eapply wp_mono.
      { apply cancel_spec with (wk := wk); [apply Hwfi| |done]. exists wk, dlw. done. }
      cbv beta. intros _ m2 H2. wp_step. apply Hlast; [|].
      + destruct (mEnded wk); [by subst|]. destruct H2 as [H2 _]. by etrans.
      + destruct (mEnded wk); [by subst; eauto|]. destruct H2 as [H2 _].
        destruct (evolves_jobAt _ _ _ _ H2 Hc') as (c2 & -> & _). eauto.
    - wp_steps. apply Hlast; [done|eauto]. }
  cbv beta. intros _ m1 H1. wp_step. etrans; [done|]. apply evolves_logged.
Qed.

(** C6 (as amended): an error on a worker that has not ended.  The error
    callback of the job runs first, if it has one (it cancels the download,
    which ends the worker when it is the worker of a running chunk).  When
    the error is a socket error, the worker has still not ended, and data
    was received in this attempt, the retry is scheduled: the url is
    resolved again and [assignJob] is called with the same job, whose
    counters are as the callback left them; a job without error callback
    is as before the error.  Every other error sets the ended flag and
    calls the finish callback with [false]. *)
Theorem handleError_retry m w wk job err :
  wf m → worker_ok m w → workers m !! w = Some wk → mEnded wk = false →
  jobAt m (mJob wk) = Some job →
  ∃ m1 wk1 m',
    handleError w err m = Some (tt, m')
    ∧ match IDownloadJob.errorCB job with
      | Some CancelDownload =>
          (emit (CallErrorCB w err);; cancelDownload (mJob wk).1 err) m = Some (tt, m1)
      | None => m1 = m
      end
    ∧ evolves m m1
    ∧ workers m1 !! w = Some wk1
    ∧ if isSocketError err && negb (mEnded wk1) && bool_decide (mDataHistory wk1 ≠ [])
      then m' = logged (DeferAssignJob w) (requestAborted w wk1 m1)
      else
        evolves m m'
        ∧ (∃ wk', workers m' !! w = Some wk' ∧ mEnded wk' = true)
        ∧ ∃ tr, trace m' = trace m ++ tr ∧ CallFinishCB w false ∈ tr.
Proof.
  intros Hwf Hok Hw Hended Hjob.
  destruct (jobAt_inv _ _ _ Hjob) as (dl & Hd & Hc).
  (* the error callback *)
  assert (∃ m1, match IDownloadJob.errorCB job with
      | Some CancelDownload =>
          (emit (CallErrorCB w err);; cancelDownload (mJob wk).1 err) m = Some (tt, m1)
      | None => m1 = m
      end ∧ evolves m m1) as (m1 & Hcb & Hev1).
  { destruct (IDownloadJob.errorCB job) as [[]|]; [|by exists m].
    destruct (cancelDownload_spec (logged (CallErrorCB w err) m) (mJob wk).1 dl err)
      as ([] & m1 & Hrun & He); [|done|].
    { eapply evolves_wf; [apply evolves_logged|done]. }
    exists m1. split; [done|]. etrans; [apply evolves_logged|done]. }
  pose proof (evolves_workers _ _ Hev1 w) as E. rewrite Hw in E.
  destruct (workers m1 !! w) as [wk1|] eqn:Hw1; [clear E|inversion E].
  exists m1, wk1.
  assert (Hrun1 : (match IDownloadJob.errorCB job with
                   | Some CancelDownload =>
                       emit (CallErrorCB w err);; cancelDownload (mJob wk).1 err
                   | None => mret tt
                   end) m = Some (tt, m1)).
  { destruct (IDownloadJob.errorCB job) as [[]|]; [done|by subst]. }
  set (ma := requestAborted w wk1 m1).
  assert (Hwa : workers ma !! w = Some (abortedWorker wk1)).
  { by apply workers_requestAborted. }
  assert (Hda : mDataHistory (abortedWorker wk1) = mDataHistory wk1
                ∧ mEnded (abortedWorker wk1) = mEnded wk1).
  { unfold abortedWorker. by destruct (mRequest wk1). }
  destruct Hda as [Hhist Hend].
  assert (Hhead :
    handleError w err m =
      (if isSocketError err && negb (mEnded wk1) && bool_decide (mDataHistory wk1 ≠ [])
       then emit (DeferAssignJob w)
       else updWorker w (set_mEnded true);; mFinishCB w false) ma).
  { unfold handleError.
    assert (Hgw : getWorker w m = Some (wk, m)) by (unfold getWorker; by rewrite Hw).
    assert (Hgj : getJob (mJob wk) m = Some (job, m)) by (unfold getJob; by rewrite Hjob).
    assert (Hga : getWorker w ma = Some (abortedWorker wk1, ma))
      by (unfold getWorker; by rewrite Hwa).
    rewrite (bind_run _ _ _ _ _ Hgw), Hended, (bind_run _ _ _ _ _ Hgj).
    rewrite (bind_run _ _ _ _ _ Hrun1).
    rewrite (bind_run _ _ _ _ _ (abortRequest_run _ _ _ Hw1)). fold ma.
    rewrite (bind_run _ _ _ _ _ Hga). by rewrite Hhist, Hend. }
  rewrite Hhead.
  destruct (isSocketError err && negb (mEnded wk1) && bool_decide (mDataHistory wk1 ≠ []))
    eqn:Hretry.
  - exists (logged (DeferAssignJob w) ma). split_and!; done.
  - assert (Heva : evolves m ma).
    { etrans; [done|]. apply evolves_requestAborted. }
    assert (wp (updWorker w (set_mEnded true);; mFinishCB w false)
              (λ _ m', evolves m m'
                 ∧ (∃ wk', workers m' !! w = Some wk' ∧ mEnded wk' = true)
                 ∧ ∃ tr, trace m' = trace m ++ tr ∧ CallFinishCB w false ∈ tr) ma) as H.
    { wp_steps. set (mb := withWorker w (set_mEnded true) ma).
      assert (Hevb : evolves m mb).
      { etrans; [done|]. by apply evolves_withWorker. }
      eapply wp_mono.
      { apply mFinishCB_spec with (wk := set_mEnded true (abortedWorker wk1)).
        - eapply evolves_queue_ok; [done|apply Hwf].
        - by eapply evolves_worker_ok.
        - unfold mb. by rewrite workers_withWorker_eq, Hwa. }
      cbv beta. intros _ m' (He & Hws & _ & _ & tr & Htr). split_and!.
      - by etrans.
      - exists (set_mEnded true (abortedWorker wk1)). split; [|done].
        rewrite Hws. unfold mb. by rewrite workers_withWorker_eq, Hwa.
      - destruct (evolves_trace _ _ Hevb) as [tr0 Htr0].
        exists (tr0 ++ CallFinishCB w false :: tr). rewrite Htr, Htr0.
        rewrite <- app_assoc. split; [done|]. apply elem_of_app. right. by left. }
    destruct H as ([] & m' & Hrun & H). exists m'. split_and!; try done; apply H.
Qed.

(** The worker of the first chunk has received data. *)
Definition ex_received : DownloadManager := after (handleData 0 1000 5 None) ex_chunked.

(** The error callback of the first chunk cancels the download, which ends
    the worker: the socket error is not retried, and the finish callback is
    called. *)
Lemma handleError_first_chunk_no_retry :
  ∃ wk m' wk',
    workers ex_received !! 0%nat = Some wk ∧ mEnded wk = false
    ∧ mDataHistory wk = [(5, 1000)] ∧ isSocketError ex_reset = true
    ∧ handleError 0 ex_reset ex_received = Some (tt, m')
    ∧ (DeferAssignJob 0 ∉ drop (length (trace ex_received)) (trace m'))
    ∧ CallFinishCB 0 false ∈ drop (length (trace ex_received)) (trace m')
    ∧ workers m' !! 0%nat = Some wk' ∧ mEnded wk' = true.
Proof.
  do 3 eexists. split_and!; try (vm_compute; reflexivity).
  - intros H. apply list_elem_of_In in H. vm_compute in H. intuition discriminate.
  - apply list_elem_of_In. vm_compute. auto 30.
Qed.

(** The worker of the second chunk, which has no error callback, has its
    response and has received data. *)
Definition ex_streaming : DownloadManager :=
  after (onResponse ex_resolve ex_disposition 1 ex_partial ex_url;;
         handleData 1 1000 5 None) ex_chunked.

Lemma handleError_retry_witness :
  ∃ wk job,
    workers ex_streaming !! 1%nat = Some wk ∧ jobAt ex_streaming (mJob wk) = Some job
    ∧ handleError 1 ex_reset ex_streaming
      = Some (tt, logged (DeferAssignJob 1) (requestAborted 1 wk ex_streaming))
    ∧ jobAt (logged (DeferAssignJob 1) (requestAborted 1 wk ex_streaming)) (mJob wk)
      = Some job.
Proof.
  assert (Hwf : wf ex_streaming) by (apply wfb_wf; vm_compute; reflexivity).
  assert (∃ wk job, workers ex_streaming !! 1%nat = Some wk ∧ mEnded wk = false
            ∧ jobAt ex_streaming (mJob wk) = Some job
            ∧ IDownloadJob.errorCB job = None
            ∧ mDataHistory wk = [(5, 1000)])
    as (wk & job & Hw & He & Hjob & Hcb & Hh) by (vm_compute; eauto 10).
  assert (Hok : worker_ok ex_streaming 1).
  { apply (wf_busy _ Hwf). apply elem_of_elements. vm_compute.
    apply list_elem_of_In. simpl. auto. }
  destruct (handleError_retry ex_streaming 1 wk job ex_reset Hwf Hok Hw He Hjob)
    as (m1 & wk1 & m' & Hrun & Hm1 & _ & Hw1 & Hres).
  rewrite Hcb in Hm1. subst m1.
  assert (wk1 = wk) as -> by congruence.
  rewrite He, Hh in Hres. simpl in Hres. subst m'.
  exists wk, job. split_and!; [exact Hw|exact Hjob|exact Hrun|].
  rewrite jobAt_logged, jobAt_requestAborted. exact Hjob.
Defined.


(** * Further properties of the worker *)

(** A method has one result: two facts about it hold of the same run. *)
Lemma wp_and {A} (c : M A) Q1 Q2 m :
  wp c Q1 m → wp c Q2 m → wp c (λ a m', Q1 a m' ∧ Q2 a m') m.
Proof.
  intros (a & m' & Hrun & H1) (a' & m'' & Hrun' & H2).
  assert (a' = a ∧ m'' = m') as [-> ->] by (split; congruence).
  by exists a, m'.
Qed.

Lemma getWorker_run m w wk : workers m !! w = Some wk → getWorker w m = Some (wk, m).
Proof. intros H. unfold getWorker. by rewrite H. Qed.

Lemma getJob_run m r job : jobAt m r = Some job → getJob r m = Some (job, m).
Proof. intros H. unfold getJob. by rewrite H. Qed.

Lemma getDownload_run m d dl : downloads m !! d = Some dl → getDownload d m = Some (dl, m).
Proof. intros H. unfold getDownload. by rewrite H. Qed.

Lemma modify_bind {B} f (k : unit → M B) m : (modify f ≫= k) m = k tt (f m).
Proof. done. Qed.

Lemma emit_bind {B} e (k : unit → M B) m : (emit e ≫= k) m = k tt (logged e m).
Proof. done. Qed.

(** ** Data *)

Lemma foldl_add_shift (l : list Z) (a b : Z) :
  foldl (λ prev iter, prev + iter) (a + b) l = foldl (λ prev iter, prev + iter) a l + b.
Proof.
  revert a. induction l as [|x l IH]; intros a; simpl; [done|].
  replace (a + b + x) with (a + x + b) by lia. apply IH.
Qed.

Lemma bufferLength_push wk len :
  bufferLength (set_mBuffers (mBuffers wk ++ [len]) wk) = bufferLength wk + len.
Proof. unfold bufferLength. simpl. by rewrite foldl_app. Qed.

(** The worker after [handleData] pushed a buffer of [len] bytes. *)
Definition pushed (now len : Z) (wk : DownloadWorker) : DownloadWorker :=
  set_mBuffers (mBuffers wk ++ [len])
    (set_mDataHistory (mDataHistory wk ++ [(now, len)]) wk).

(** The job after [doWriteBuffer] handed [len] bytes to the data callback. *)
Definition written (len : Z) (j : IDownloadJob.t) : IDownloadJob.t :=
  IDownloadJob.set_size (IDownloadJob.size j - len)
    (IDownloadJob.set_offset (IDownloadJob.offset j + len)
       (IDownloadJob.set_received (IDownloadJob.received j + len) j)).

(** The state after [writeBuffer] on a worker that has buffers. *)
Definition wrote (w : nat) (wk : DownloadWorker) (job : IDownloadJob.t)
    (m : DownloadManager) : DownloadManager :=
  withJob (mJob wk) (written (bufferLength wk))
    (logged (DeferAck w (bufferLength wk))
       (logged (DataCB (mJob wk).1 (IDownloadJob.offset job) (bufferLength wk))
          (withWorker w (set_mBuffers []) m))).

Lemma writeBuffer_run m w wk job :
  workers m !! w = Some wk → jobAt m (mJob wk) = Some job →
  writeBuffer w m = Some (tt, if decide (mBuffers wk = []) then m else wrote w wk job m).
Proof.
  intros Hw Hjob. unfold writeBuffer. rewrite (bind_run _ _ _ _ _ (getWorker_run _ _ _ Hw)).
  destruct (mBuffers wk) as [|b bs] eqn:Hb; [done|]. rewrite decide_False by done.
  unfold updWorker. rewrite modify_bind. unfold doWriteBuffer.
  assert (Hw' : workers (withWorker w (set_mBuffers []) m) !! w = Some (set_mBuffers [] wk)).
  { by rewrite workers_withWorker_eq, Hw. }
  rewrite (bind_run _ _ _ _ _ (getWorker_run _ _ _ Hw')).
  assert (Hj' : jobAt (withWorker w (set_mBuffers []) m) (mJob wk) = Some job) by done.
  simpl. rewrite (bind_run _ _ _ _ _ (getJob_run _ _ _ Hj')).
  rewrite !emit_bind. done.
Qed.

(** The state after [handleData] flushed the buffers of the worker. *)
Definition flushed (w : nat) (wk : DownloadWorker) (job : IDownloadJob.t) (now len : Z)
    (m : DownloadManager) : DownloadManager :=
  let total := bufferLength wk + len in
  logged (CallProgressCB w total)
    (logged (DeferWritten w)
       (withJob (mJob wk) (written total)
          (logged (DeferAck w total)
             (logged (DataCB (mJob wk).1 (IDownloadJob.offset job) total)
                (withWorker w (λ wk, set_mBuffers [] (set_mWriting true (pushed now len wk)))
                   m))))).

Lemma withWorker_withWorker w f g m :
  withWorker w f (withWorker w g m) = withWorker w (f ∘ g) m.
Proof.
  unfold withWorker, set_workers. destruct m; simpl. f_equal. by rewrite alter_alter_eq.
Qed.

(** X1: what [handleData] does with a buffer of [len] bytes on a worker that
    is running and was not redirected.  The buffer is kept until 256 KiB
    are there; then, unless a write is under way, everything that is
    buffered is handed to the data callback in one piece at the offset of
    the job, whose counters advance by that length, and the progress
    callback is called; while a write is under way the buffers grow, and
    from 4 MiB on the response is paused. *)
Theorem handleData_buffering m w wk job len now starving :
  workers m !! w = Some wk → jobAt m (mJob wk) = Some job →
  mEnded wk = false → terminal (IDownloadJob.state job) = false →
  mRedirected wk = false →
  let total := bufferLength wk + len in
  let buffered := withWorker w (pushed now len) m in
  (total < BUFFER_SIZE → handleData w len now starving m = Some (tt, buffered))
  ∧ (BUFFER_SIZE ≤ total → mWriting wk = false →
       handleData w len now starving m
       = makeProgressCB (mJob wk) starving now (flushed w wk job now len m))
  ∧ (BUFFER_SIZE ≤ total → total < BUFFER_SIZE_CAP → mWriting wk = true →
       handleData w len now starving m = Some (tt, buffered))
  ∧ (BUFFER_SIZE_CAP ≤ total → mWriting wk = true → is_Some (mResponse wk) →
       handleData w len now starving m
       = Some (tt, logged (ResponsePause w)
                     (withWorker w (set_mResponse (Some true)) buffered))).
Proof.
  intros Hw Hjob Hended Hterm Hred total buffered.
  assert (Hhead : handleData w len now starving m =
    (wk ← getWorker w;
     let bufferLength := bufferLength wk in
     if BUFFER_SIZE <=? bufferLength then
       if negb (mWriting wk) then
         updWorker w (set_mWriting true);;
         writeBuffer w;;
         emit (DeferWritten w);;
         emit (CallProgressCB w bufferLength);;
         makeProgressCB (mJob wk) starving now
       else if BUFFER_SIZE_CAP <=? bufferLength then
         match mResponse wk with
         | None => throw
         | Some _ => updWorker w (set_mResponse (Some true));; emit (ResponsePause w)
         end
       else mret tt
     else mret tt) buffered).
  { unfold handleData. rewrite (bind_run _ _ _ _ _ (getWorker_run _ _ _ Hw)).
    rewrite (bind_run _ _ _ _ _ (getJob_run _ _ _ Hjob)). rewrite Hended, Hterm, Hred.
    simpl. unfold updWorker. rewrite !modify_bind.
    unfold buffered, pushed. by rewrite withWorker_withWorker. }
  assert (Hwb : workers buffered !! w = Some (pushed now len wk)).
  { unfold buffered. by rewrite workers_withWorker_eq, Hw. }
  assert (Hbl : bufferLength (pushed now len wk) = total).
  { unfold bufferLength, pushed. simpl. by rewrite foldl_app. }
  rewrite Hhead, (bind_run _ _ _ _ _ (getWorker_run _ _ _ Hwb)). cbv zeta. rewrite Hbl.
  assert (Hwr : mWriting (pushed now len wk) = mWriting wk) by done.
  assert (Hrs : mResponse (pushed now len wk) = mResponse wk) by done.
  assert (Hjr : mJob (pushed now len wk) = mJob wk) by done.
  rewrite Hwr, Hrs, Hjr.
  split_and!.
  - intros Hlt. by rewrite (proj2 (Z.leb_gt _ _)) by lia.
  - intros Hge Hnw. rewrite (proj2 (Z.leb_le _ _)) by lia. rewrite Hnw. simpl.
    unfold updWorker. rewrite modify_bind.
    set (mw := withWorker w (set_mWriting true) buffered).
    assert (Hww : workers mw !! w = Some (set_mWriting true (pushed now len wk))).
    { unfold mw. by rewrite workers_withWorker_eq, Hwb. }
    rewrite (bind_run _ _ _ _ _ (writeBuffer_run mw w _ job Hww Hjob)).
    rewrite decide_False by (simpl; by intros ?%app_eq_nil%proj2).
    rewrite !emit_bind. unfold flushed, wrote, mw, buffered.
    assert (bufferLength (set_mWriting true (pushed now len wk)) = total) as -> by done.
    by rewrite !withWorker_withWorker.
  - intros Hge Hlt Hwriting. rewrite (proj2 (Z.leb_le _ _)) by lia. rewrite Hwriting.
    simpl. by rewrite (proj2 (Z.leb_gt _ _)) by lia.
  - intros Hge Hwriting [r Hr]. rewrite (proj2 (Z.leb_le _ _)).
    2:{ unfold BUFFER_SIZE, BUFFER_SIZE_CAP in *. lia. }
    rewrite Hwriting. simpl. rewrite (proj2 (Z.leb_le _ _)) by lia. by rewrite Hr.
Qed.

Lemma handleData_buffering_witness :
  handleData 0 1000 5 None ex_chunked
  = Some (tt, withWorker 0 (pushed 5 1000) ex_chunked).
Proof.
  assert (∃ wk job, workers ex_chunked !! 0%nat = Some wk
            ∧ jobAt ex_chunked (mJob wk) = Some job
            ∧ mEnded wk = false ∧ terminal (IDownloadJob.state job) = false
            ∧ mRedirected wk = false ∧ bufferLength wk + 1000 < BUFFER_SIZE)
    as (wk & job & Hw & Hjob & He & Ht & Hr & Hlt) by (vm_compute; eauto 10).
  destruct (handleData_buffering ex_chunked 0 wk job 1000 5 None Hw Hjob He Ht Hr)
    as (Hsmall & _).
  exact (Hsmall Hlt).
Defined.


(** ** Cancelling a download *)

(** A worker is as it was, or it was cancelled. *)
Definition worker_cancelled (wk wk' : DownloadWorker) : Prop :=
  wk' = wk ∨ (mEnded wk = false ∧ wk' = set_mEnded true (abortedWorker wk)).

#[global] Instance worker_cancelled_refl : Reflexive worker_cancelled.
Proof. intros wk. by left. Qed.

#[global] Instance worker_cancelled_trans : Transitive worker_cancelled.
Proof.
  intros a b c [->|[Ha ->]] [->|[Hb ->]]; [by left|by right|by right|].
  by destruct (mRequest a).
Qed.

(** A job that has come to an end stays there, and a running job runs or
    has come to an end. *)
Definition job_settles (c c' : IDownloadJob.t) : Prop :=
  (terminal (IDownloadJob.state c) = true → terminal (IDownloadJob.state c') = true)
  ∧ (IDownloadJob.state c = Running →
       IDownloadJob.state c' = Running ∨ terminal (IDownloadJob.state c') = true).

#[global] Instance job_settles_refl : Reflexive job_settles.
Proof. intros c. split; auto. Qed.

#[global] Instance job_settles_trans : Transitive job_settles.
Proof. intros a b c [H1 H2] [H3 H4]. split; [auto|]. intros Ha. destruct (H2 Ha); auto. Qed.

Lemma job_ticked_settles c c' : job_ticked c c' → job_settles c c'.
Proof.
  intros [->|[Hi [w ->]]]; [reflexivity|]. split; rewrite Hi; [done|done].
Qed.

Lemma job_finished_settles r paused r' c c' :
  job_finished r paused r' c c' → job_settles c c'.
Proof.
  unfold job_finished. intros H. case_decide; [|by apply job_ticked_settles].
  destruct H as [->|[Hi _]].
  - unfold markedState. split; intros _; simpl; [|right]; by destruct (paused || _).
  - simpl in Hi. unfold markedState in Hi. by destruct (paused || _).
Qed.

(** What holds after the chunks before [j] were visited by the loop of
    [cancelDownload]. *)
Definition cancelling (m0 : DownloadManager) (d : nat) (cs : list IDownloadJob.t)
    (j : nat) (m : DownloadManager) : Prop :=
  evolves m0 m
  ∧ (∀ w, option_Forall2 worker_cancelled (workers m0 !! w) (workers m !! w))
  ∧ ∀ k c, cs !! k = Some c →
      ∃ c', jobAt m (d, k) = Some c' ∧ job_settles c c'
        ∧ ((k < j)%nat → IDownloadJob.state c = Running →
             terminal (IDownloadJob.state c') = true).

Lemma wp_forEach_seq (I : nat → DownloadManager → Prop) (f : nat → M unit) n : ∀ i m,
  I i m →
  (∀ j m, (i ≤ j < i + n)%nat → I j m → wp (f j) (λ _ m', I (S j) m') m) →
  wp (forEach (seq i n) f) (λ _ m', I (i + n)%nat m') m.
Proof.
  induction n as [|n IH]; intros i m Hm Hf; simpl.
  { wp_step. by rewrite Nat.add_0_r. }
  wp_step. eapply wp_mono; [apply Hf; [lia|done]|]. cbv beta. intros _ m1 H1.
  replace (i + S n)%nat with (S i + n)%nat by lia.
  apply IH; [done|]. intros j m' Hj. apply Hf. lia.
Qed.

Lemma cancelDownload_settles m d dl err :
  wf m → downloads m !! d = Some dl →
  wp (cancelDownload d err) (λ _ m',
      (∃ m1, cancelling m d (IRunningDownload.chunks dl)
               (length (IRunningDownload.chunks dl)) m1
             ∧ m' = logged (FailedCB d err) m1)) m.
Proof.
  intros Hwf Hd. unfold cancelDownload. wp_step. eapply wp_getDownload; [done|].
  set (cs := IRunningDownload.chunks dl).
  wp_step. eapply wp_mono.
  { apply (wp_forEach_seq (cancelling m d cs)).
    - split_and!; [reflexivity| |].
      + intros w. destruct (workers m !! w); constructor. reflexivity.
      + intros k c Hc. exists c. split_and!; [by eapply jobAt_Some|reflexivity|lia].
    - intros j mi Hj (Hev & Hws & Hjobs).
      destruct (lookup_lt_is_Some_2 cs j) as [c Hc]; [lia|].
      destruct (Hjobs _ _ Hc) as (c' & Hc' & Hset & _).
      assert (Hwfi : wf mi) by (by eapply evolves_wf).
      wp_step. eapply wp_getJob; [done|].
      (* the last statement of the body *)
      assert (Hlast : ∀ mj,
        evolves mi mj →
        (∀ w, option_Forall2 worker_cancelled (workers mi !! w) (workers mj !! w)) →
        (∀ r c0, jobAt mi r = Some c0 → ∃ c1, jobAt mj r = Some c1 ∧ job_settles c0 c1) →
        cancelling m d cs (S j)
          (withJob (d, j) (IDownloadJob.set_state Paused) mj)).
      { intros mj Hmj Hwj Hjj. split_and!.
        - etrans; [done|]. etrans; [done|]. apply evolves_withJob. intros c0 _.
          exists Paused, (IDownloadJob.workerId c0). split_and!; done.
        - intros w.
          change (workers (withJob (d, j) (IDownloadJob.set_state Paused) mj))
            with (workers mj).
          pose proof (Hws w) as E1. pose proof (Hwj w) as E2.
          destruct (workers m !! w), (workers mi !! w), (workers mj !! w);
            inversion E1; inversion E2; subst; constructor. by etrans.
        - intros k c0 Hc0. destruct (Hjobs _ _ Hc0) as (c1 & Hc1 & Hs1 & Hdone).
          destruct (Hjj _ _ Hc1) as (c2 & Hc2 & Hs2).
          rewrite jobAt_withJob, Hc2. case_decide as Hk.
          + injection Hk as <-. eexists. split; [done|]. simpl. split; [|done].
            split; [done|]. intros _. by right.
          + exists c2. split; [done|]. split; [by etrans|].
            intros Hlt Hrun. assert (k < j)%nat as Hkj.
            { destruct (decide (k = j)) as [->|]; [by destruct Hk|lia]. }
            apply Hs2. by apply Hdone. }
      assert (Hskip : IDownloadJob.state c' ≠ Running → cancelling m d cs (S j) mi).
      { intros Hnr. split_and!; [done|done|]. intros k c0 Hc0.
        destruct (Hjobs _ _ Hc0) as (c1 & Hc1 & Hs1 & Hdone).
        exists c1. split_and!; [done|done|]. intros Hlt Hrun.
        destruct (decide (k = j)) as [->|Hne]; [|apply Hdone; [lia|done]].
        assert (c0 = c) as -> by congruence. assert (c1 = c') as -> by congruence.
        destruct Hs1 as [_ Hs1]. by destruct (Hs1 Hrun). }
      case_decide as Hrun; [|wp_step; by apply Hskip].
      wp_step. wp_step. wp_step.
      destruct (busyWorker mi (IDownloadJob.workerId c')) as [w|] eqn:Hbw.
      + apply busyWorker_Some in Hbw as [_ Hbusy].
        destruct (wf_busy _ Hwfi w Hbusy) as (wk & dlw & Hwk & Hrest).
        eapply wp_mono.
        { apply cancel_spec with (wk := wk); [apply Hwfi| |done]. exists wk, dlw. done. }
        cbv beta. intros _ m2 H2. wp_step. apply Hlast.
        * destruct (mEnded wk); [by subst|]. by destruct H2.
        * intros w'. destruct (mEnded wk) eqn:Hen.
          { subst. destruct (workers mi !! w'); constructor. reflexivity. }
          destruct H2 as (_ & Hw2 & Hne & _).
          destruct (decide (w' = w)) as [->|Hw'].
          -- rewrite Hwk, Hw2. constructor. by right.
          -- rewrite (Hne _ Hw'). destruct (workers mi !! w'); constructor. reflexivity.
        * intros r c0 Hc0. destruct (mEnded wk).
          { subst. exists c0. split; [done|reflexivity]. }
          destruct H2 as (_ & _ & _ & _ & Hj2 & _).
          destruct (Hj2 _ _ Hc0) as (c1 & Hc1 & Hf). exists c1. split; [done|].
          by eapply job_finished_settles.
      + wp_steps. apply Hlast; [reflexivity| |].
        * intros w. destruct (workers mi !! w); constructor. reflexivity.
        * intros r c0 Hc0. exists c0. split; [done|reflexivity]. }
  cbv beta. intros _ m1 H1. wp_step. exists m1. split; [|done]. exact H1.
Qed.

Lemma job_evolves_data c c' :
  job_evolves c c' →
  ∃ s w, c' = IDownloadJob.set_workerId w (IDownloadJob.set_state s c).
Proof. intros (s & w & -> & _). eauto. Qed.

(** X2: [cancelDownload] returns on a well-formed store, and its last call
    is the failed callback of the download with the error.  Every chunk
    keeps its url, its counters and its callbacks; a chunk that was running
    is paused or finished afterwards and a paused or finished chunk stays
    so; a worker is as before or it was cancelled; the queue is kept. *)
Theorem cancelDownload_result m d dl err :
  wf m → downloads m !! d = Some dl →
  ∃ m',
    cancelDownload d err m = Some (tt, m')
    ∧ last (trace m') = Some (FailedCB d err)
    ∧ mQueue m' = mQueue m
    ∧ (∀ j c, IRunningDownload.chunks dl !! j = Some c →
         ∃ s w,
           jobAt m' (d, j)
           = Some (IDownloadJob.set_workerId w (IDownloadJob.set_state s c))
           ∧ (IDownloadJob.state c = Running → terminal s = true)
           ∧ (terminal (IDownloadJob.state c) = true → terminal s = true))
    ∧ (∀ w wk, workers m !! w = Some wk →
         workers m' !! w = Some wk
         ∨ (mEnded wk = false
            ∧ workers m' !! w = Some (set_mEnded true (abortedWorker wk)))).
Proof.
  intros Hwf Hd.
  destruct (cancelDownload_settles m d dl err Hwf Hd)
    as ([] & m' & Hrun & m1 & (Hev & Hws & Hjobs) & ->).
  exists (logged (FailedCB d err) m1). split_and!; [done| | | |].
  - simpl. apply last_snoc.
  - simpl. apply (evolves_queue _ _ Hev).
  - intros j c Hc. destruct (Hjobs _ _ Hc) as (c' & Hc' & [Ht Hr] & Hdone).
    destruct (evolves_jobAt _ _ (d, j) c Hev) as (c'' & Hc'' & Hje); [by eapply jobAt_Some|].
    assert (c'' = c') as -> by congruence.
    destruct (job_evolves_data _ _ Hje) as (s & w & ->). exists s, w.
    rewrite jobAt_logged. split_and!; [done| |done].
    intros Hrunning. apply Hdone; [|done]. by eapply lookup_lt_Some.
  - intros w wk Hw. pose proof (Hws w) as E. rewrite Hw in E.
    inversion E as [? wk' [->|[He ->]] |]; subst; [by left|by right].
Qed.

Lemma cancelDownload_result_witness :
  ∃ m', cancelDownload 0 UserCanceled ex_chunked = Some (tt, m')
    ∧ last (trace m') = Some (FailedCB 0 UserCanceled).
Proof.
  assert (Hwf : wf ex_chunked) by (apply wfb_wf; vm_compute; reflexivity).
  assert (∃ dl, downloads ex_chunked !! 0%nat = Some dl) as [dl Hd] by (vm_compute; eauto).
  destruct (cancelDownload_result ex_chunked 0 dl UserCanceled Hwf Hd)
    as (m' & Hrun & Hlast & _).
  exists m'. split; [exact Hrun|exact Hlast].
Defined.

(** ** An error without progress *)

(** An error on a worker that has not ended ends it, unless it is a socket
    error after data was received. *)
Lemma handleError_ends m w wk job err :
  wf m → worker_ok m w → workers m !! w = Some wk → mEnded wk = false →
  jobAt m (mJob wk) = Some job →
  isSocketError err && bool_decide (mDataHistory wk ≠ []) = false →
  wp (handleError w err) (λ _ m',
      evolves m m'
      ∧ (∃ wk', workers m' !! w = Some wk' ∧ mEnded wk' = true)
      ∧ (∃ tr, trace m' = trace m ++ tr ∧ CallFinishCB w false ∈ tr
           ∧ (IDownloadJob.errorCB job = Some CancelDownload →
                FailedCB (mJob wk).1 err ∈ tr))) m.
Proof.
  intros Hwf Hok Hw Hended Hjob Hcond.
  destruct (jobAt_inv _ _ _ Hjob) as (dl & Hd & Hc).
  unfold handleError. wp_step. eapply wp_getWorker; [done|]. rewrite Hended.
  wp_step. eapply wp_getJob; [done|]. wp_step.
  eapply (wp_mono _ (λ _ m1,
    evolves m m1
    ∧ (∃ wk1, workers m1 !! w = Some wk1 ∧ worker_cancelled wk wk1)
    ∧ ∃ tr, trace m1 = trace m ++ tr
        ∧ (IDownloadJob.errorCB job = Some CancelDownload →
             FailedCB (mJob wk).1 err ∈ tr))).
  { destruct (IDownloadJob.errorCB job) as [[]|].
    - wp_steps. eapply wp_mono.
      { eapply cancelDownload_settles with (m := logged (CallErrorCB w err) m); [|done].
        eapply evolves_wf; [apply evolves_logged|done]. }
      cbv beta. intros _ m' (m1 & (Hev & Hws & _) & ->). split_and!.
      + etrans; [apply evolves_logged|]. etrans; [done|]. apply evolves_logged.
      + pose proof (Hws w) as E. simpl in E. rewrite Hw in E.
        inversion E as [? wk1 Hc1 |]; subst. exists wk1. by split.
      + destruct (evolves_trace _ _ Hev) as [tr Htr]. simpl in Htr.
        exists ([CallErrorCB w err] ++ tr ++ [FailedCB (mJob wk).1 err]). simpl.
        rewrite Htr. rewrite <- !app_assoc. split; [done|]. intros _.
        right. apply elem_of_app. right. by left.
    - wp_step. split_and!; [reflexivity| |].
      + exists wk. split; [done|reflexivity].
      + exists []. rewrite app_nil_r. split; [done|]. done. }
  cbv beta. intros _ m1 (Hev1 & (wk1 & Hw1 & Hc1) & tr1 & Htr1 & Hfailed).
  wp_step. eapply wp_run; [by apply abortRequest_run|].
  set (ma := requestAborted w wk1 m1).
  assert (Hwa : workers ma !! w = Some (abortedWorker wk1)).
  { by apply workers_requestAborted. }
  wp_step. eapply wp_getWorker; [done|].
  assert (Hhist : mDataHistory (abortedWorker wk1) = mDataHistory wk).
  { destruct Hc1 as [->|[_ ->]]; unfold abortedWorker; simpl;
      repeat (destruct (mRequest _); simpl); done. }
  rewrite Hhist.
  assert (isSocketError err && negb (mEnded (abortedWorker wk1))
            && bool_decide (mDataHistory wk ≠ []) = false) as ->.
  { destruct (isSocketError err); [|done]. simpl in *. rewrite Hcond. apply andb_false_r. }
  wp_steps. set (mb := withWorker w (set_mEnded true) ma).
  assert (Hevb : evolves m mb).
  { etrans; [done|]. etrans; [apply evolves_requestAborted|]. by apply evolves_withWorker. }
  eapply wp_mono.
  { apply mFinishCB_spec with (wk := set_mEnded true (abortedWorker wk1)).
    - eapply evolves_queue_ok; [done|apply Hwf].
    - by eapply evolves_worker_ok.
    - unfold mb. by rewrite workers_withWorker_eq, Hwa. }
  cbv beta. intros _ m' (He & Hws & _ & _ & tr & Htr). split_and!.
  - by etrans.
  - exists (set_mEnded true (abortedWorker wk1)). split; [|done].
    rewrite Hws. unfold mb. by rewrite workers_withWorker_eq, Hwa.
  - assert (∃ tr0, trace mb = trace m1 ++ tr0) as [tr0 Htr0].
    { unfold mb, ma. simpl. rewrite trace_requestAborted. eauto. }
    exists (tr1 ++ tr0 ++ CallFinishCB w false :: tr). rewrite Htr, Htr0, Htr1.
    rewrite <- !app_assoc. split_and!; [done| |].
    + apply elem_of_app. right. apply elem_of_app. right. by left.
    + intros Hcb. apply elem_of_app. left. by apply Hfailed.
Qed.

Lemma assignJob_run m w wk job jobUrl :
  workers m !! w = Some wk → jobAt m (mJob wk) = Some job → 0 < IDownloadJob.size job →
  assignJob w (Some jobUrl) m
  = Some (tt, logged (DeferStartDownload w jobUrl) (withWorker w (set_mDataHistory []) m)).
Proof.
  intros Hw Hjob Hsize. unfold assignJob, updWorker. rewrite modify_bind.
  assert (Hw1 : workers (withWorker w (set_mDataHistory []) m) !! w
                = Some (set_mDataHistory [] wk)).
  { by rewrite workers_withWorker_eq, Hw. }
  rewrite (bind_run _ _ _ _ _ (getWorker_run _ _ _ Hw1)). simpl.
  assert (Hj1 : jobAt (withWorker w (set_mDataHistory []) m) (mJob wk) = Some job) by done.
  rewrite (bind_run _ _ _ _ _ (getJob_run _ _ _ Hj1)).
  by rewrite (proj2 (Z.leb_gt _ _)) by lia.
Qed.

Section RetryFacts.
Variable url_parse_throws : string → bool.
Variable http_request_throws : string → option string → option Err.

Lemma startDownload_run m w wk job jobUrl :
  workers m !! w = Some wk → jobAt m (mJob wk) = Some job →
  startDownload url_parse_throws http_request_throws w jobUrl m
  = match requestError url_parse_throws http_request_throws jobUrl with
    | Some err => handleError w err m
    | None =>
        Some (tt, logged (Request w (beforeLt jobUrl) (afterLt jobUrl)
                            (IDownloadJob.offset job)
                            (IDownloadJob.offset job + IDownloadJob.size job))
                    (withWorker w (set_mRequest (Some false)) m))
    end.
Proof.
  intros Hw Hjob. unfold startDownload, requestError.
  destruct (url_parse_throws (beforeLt jobUrl)); [done|].
  rewrite (bind_run _ _ _ _ _ (getWorker_run _ _ _ Hw)).
  rewrite (bind_run _ _ _ _ _ (getJob_run _ _ _ Hjob)).
  by destruct (http_request_throws _ _).
Qed.

(** X3: a retry needs progress.  [assignJob] forgets the data that was
    received, so when the request that it starts cannot be sent, or is sent
    and fails before data arrived, whatever the error, the worker is not
    started again: its ended flag is set and the finish callback is called
    with [false].  A request that the libraries accept is sent for the
    range of the job; when [url.parse] or [lib.request] throws, the error
    callback of the job, if it has one, hands that error to the failed
    callback of the download. *)
Theorem retry_without_progress m w wk job jobUrl err :
  wf m → worker_ok m w → workers m !! w = Some wk → mEnded wk = false →
  jobAt m (mJob wk) = Some job → 0 < IDownloadJob.size job →
  ∃ m' wk' tr,
    (assignJob w (Some jobUrl);;
     startDownload url_parse_throws http_request_throws w jobUrl;;
     handleError w err) m
    = Some (tt, m')
    ∧ workers m' !! w = Some wk' ∧ mEnded wk' = true
    ∧ trace m' = trace m ++ DeferStartDownload w jobUrl :: tr
    ∧ CallFinishCB w false ∈ tr
    ∧ match requestError url_parse_throws http_request_throws jobUrl with
      | None =>
          ∃ tr', tr = Request w (beforeLt jobUrl) (afterLt jobUrl)
                        (IDownloadJob.offset job)
                        (IDownloadJob.offset job + IDownloadJob.size job) :: tr'
      | Some refused =>
          IDownloadJob.errorCB job = Some CancelDownload →
          FailedCB (mJob wk).1 refused ∈ tr
      end.
Proof.
  intros Hwf Hok Hw Hended Hjob Hsize.
  set (m1 := logged (DeferStartDownload w jobUrl) (withWorker w (set_mDataHistory []) m)).
  pose proof (assignJob_run m w wk job jobUrl Hw Hjob Hsize) as Hrun1. fold m1 in Hrun1.
  assert (Hw1 : workers m1 !! w = Some (set_mDataHistory [] wk)).
  { unfold m1. simpl. by rewrite lookup_alter_eq, Hw. }
  assert (Hev1 : evolves m m1).
  { unfold m1. etrans; [|apply evolves_logged]. by apply evolves_withWorker. }
  pose proof (startDownload_run m1 w _ job jobUrl Hw1 Hjob) as Hrun2.
  destruct (requestError url_parse_throws http_request_throws jobUrl) as [refused|].
  - (* the request is not sent *)
    destruct (handleError_ends m1 w (set_mDataHistory [] wk) job refused)
      as ([] & m2 & Hrun & _ & (wk2 & Hw2 & He2) & tr & Htr & Hin & Hfail).
    + by eapply evolves_wf.
    + by eapply evolves_worker_ok.
    + done.
    + done.
    + done.
    + simpl. apply andb_false_r.
    + exists m2, wk2, tr.
      rewrite (bind_run _ _ _ _ _ Hrun1). rewrite Hrun in Hrun2.
      rewrite (bind_run _ _ _ _ _ Hrun2).
      split_and!; [|done|done| |done|done].
      * unfold handleError. rewrite (bind_run _ _ _ _ _ (getWorker_run _ _ _ Hw2)).
        by rewrite He2.
      * rewrite Htr. unfold m1. simpl. by rewrite <- !app_assoc.
  - (* the request is sent and fails *)
    set (m2 := logged _ (withWorker w (set_mRequest (Some false)) m1)) in Hrun2.
    assert (Hev2 : evolves m m2).
    { transitivity m1; [done|].
      unfold m2. etrans; [|apply evolves_logged]. by apply evolves_withWorker. }
    destruct (handleError_ends m2 w (set_mRequest (Some false) (set_mDataHistory [] wk))
                job err)
      as ([] & m' & Hrun & _ & (wk' & Hw' & He') & tr & Htr & Hin & _).
    + by eapply evolves_wf.
    + by eapply evolves_worker_ok.
    + change (workers m2) with (workers (withWorker w (set_mRequest (Some false)) m1)).
      by rewrite workers_withWorker_eq, Hw1.
    + done.
    + done.
    + simpl. apply andb_false_r.
    + eexists m', wk', (_ :: tr).
      rewrite (bind_run _ _ _ _ _ Hrun1), (bind_run _ _ _ _ _ Hrun2).
      split_and!; [done|done|done| | |by eexists].
      * rewrite Htr. unfold m2, m1. simpl. by rewrite <- !app_assoc.
      * by right.
Qed.
End RetryFacts.

(** The second worker of the example asks again and the connection is
    reset before data arrives. *)
Lemma retry_without_progress_witness :
  ∃ m' wk' tr,
    (assignJob 1 (Some ex_url);;
     startDownload ex_parse_throws ex_request_throws 1 ex_url;;
     handleError 1 ex_reset) ex_streaming = Some (tt, m')
    ∧ workers m' !! 1%nat = Some wk' ∧ mEnded wk' = true
    ∧ trace m'
      = trace ex_streaming
        ++ DeferStartDownload 1 ex_url :: Request 1 ex_url None 20971521 52428801 :: tr.
Proof.
  assert (Hwf : wf ex_streaming) by (apply wfb_wf; vm_compute; reflexivity).
  assert (∃ wk job, workers ex_streaming !! 1%nat = Some wk ∧ mEnded wk = false
            ∧ jobAt ex_streaming (mJob wk) = Some job ∧ 0 < IDownloadJob.size job
            ∧ IDownloadJob.offset job = 20971521 ∧ IDownloadJob.size job = 31457280)
    as (wk & job & Hw & He & Hjob & Hsz & Ho & Hs) by (vm_compute; eauto 10).
  assert (Hok : worker_ok ex_streaming 1).
  { apply (wf_busy _ Hwf). apply elem_of_elements. vm_compute.
    apply list_elem_of_In. simpl. auto. }
  destruct (retry_without_progress ex_parse_throws ex_request_throws ex_streaming 1 wk job
              ex_url ex_reset Hwf Hok Hw He Hjob Hsz)
    as (m' & wk' & tr & Hrun & Hw' & He' & Htr & _ & Hreq).
  assert (requestError ex_parse_throws ex_request_throws ex_url = None) as Hacc
    by (vm_compute; reflexivity).
  rewrite Hacc in Hreq. destruct Hreq as [tr' ->].
  exists m', wk', tr'. split_and!; [exact Hrun|exact Hw'|exact He'|].
  rewrite Htr, Ho, Hs. reflexivity.
Defined.

(** A url that [http.request] refuses: no request is sent (the one of the
    attempt before is aborted), the worker ends at once, its slot goes to
    the next chunk, and a later error is ignored. *)
Lemma retry_refused_url :
  ∃ m' wk',
    (assignJob 1 (Some "ftp://host/file.zip"%string);;
     startDownload ex_parse_throws ex_request_throws 1 "ftp://host/file.zip";;
     handleError 1 ex_reset) ex_streaming = Some (tt, m')
    ∧ workers m' !! 1%nat = Some wk' ∧ mEnded wk' = true
    ∧ drop (length (trace ex_streaming)) (trace m')
      = [DeferStartDownload 1 "ftp://host/file.zip"; RequestAbort 1; CallFinishCB 1 false;
         SpeedStopCounter (Some 1%nat); SpeedInitCounter 2; DeferStartJob 0 2].
Proof. vm_compute. eauto 10. Qed.


(** ** Responses that end the attempt *)

Lemma worker_ok_withDownload d f m w :
  (∀ dl, IRunningDownload.chunks (f dl) = IRunningDownload.chunks dl
         ∧ IRunningDownload.assembler (f dl) = IRunningDownload.assembler dl) →
  worker_ok m w → worker_ok (withDownload d f m) w.
Proof.
  intros Hf (wk & dl & Hw & Hd & Hc & Ha). destruct (Hf dl) as [Hfc Hfa].
  destruct (decide (d = (mJob wk).1)) as [->|Hne].
  - exists wk, (f dl). rewrite downloads_withDownload_eq, Hd. by rewrite Hfc, Hfa.
  - exists wk, dl. by rewrite downloads_withDownload_ne.
Qed.

Lemma wf_withDownload d f m :
  (∀ dl, IRunningDownload.chunks (f dl) = IRunningDownload.chunks dl
         ∧ IRunningDownload.assembler (f dl) = IRunningDownload.assembler dl) →
  wf m → wf (withDownload d f m).
Proof.
  intros Hf [Hq Hb Hi]. split.
  - intros r Hr. destruct (Hq r Hr) as [dl Hd]. destruct (decide (d = r)) as [->|Hne].
    + rewrite downloads_withDownload_eq, Hd. eauto.
    + rewrite downloads_withDownload_ne by done. eauto.
  - intros w Hw. apply worker_ok_withDownload; [done|]. by apply Hb.
  - intros w Hw. destruct (Hi w Hw) as (wk & job & Hwk & Hj & Hrest).
    exists wk, job. split; [done|]. split; [|done].
    rewrite jobAt_withDownload; [done|]. intros dl. apply Hf.
Qed.

Section ResponseEnds.
Variable url_resolve : string → string → string.
Variable contentDisposition_parse : string → option (option string).

(** X4: a response with a status from 300 on that is not a redirect to
    follow (another status, or two redirects were followed already) ends
    the attempt of a worker that had not ended: the ended flag is set, the
    finish callback is called with [false], and the error callback of the
    job, if it has one, hands [HTTPError(status, message, url)] to the
    failed callback of the download.  The chunks keep their counters. *)
Theorem handleResponse_http_error m w wk job response jobUrl :
  wf m → worker_ok m w → workers m !! w = Some wk → mEnded wk = false →
  jobAt m (mJob wk) = Some job → 300 ≤ statusCode response →
  isRedirect (statusCode response) = false
  ∨ MAX_REDIRECT_FOLLOW ≤ mRedirectsFollowed wk →
  let err := HTTPError (statusCode response) (statusMessage response) jobUrl in
  ∃ m' wk' tr,
    handleResponse url_resolve contentDisposition_parse w response jobUrl m = Some (tt, m')
    ∧ workers m' !! w = Some wk' ∧ mEnded wk' = true
    ∧ trace m' = trace m ++ tr ∧ CallFinishCB w false ∈ tr
    ∧ (IDownloadJob.errorCB job = Some CancelDownload → FailedCB (mJob wk).1 err ∈ tr)
    ∧ ∀ r c, jobAt m r = Some c →
        ∃ s id, jobAt m' r
                = Some (IDownloadJob.set_workerId id (IDownloadJob.set_state s c)).
Proof.
  intros Hwf Hok Hw Hended Hjob Hstatus Hnot err.
  rewrite (handleResponse_redirect url_resolve contentDisposition_parse m w wk response jobUrl
             Hw Hstatus).
  assert (isRedirect (statusCode response)
          && (mRedirectsFollowed wk <? MAX_REDIRECT_FOLLOW) = false) as ->.
  { destruct Hnot as [->|Hmax]; [done|]. rewrite (proj2 (Z.ltb_ge _ _)) by done.
    apply andb_false_r. }
  destruct (handleError_ends m w wk job err Hwf Hok Hw Hended Hjob)
    as ([] & m' & Hrun & Hev & (wk' & Hw' & He') & tr & Htr & Hin & Hfail); [done|].
  exists m', wk', tr. split_and!; try done.
  intros r c Hc. destruct (evolves_jobAt _ _ _ _ Hev Hc) as (c' & Hc' & Hje).
  destruct (job_evolves_data _ _ Hje) as (s & id & ->). eauto.
Qed.

(** X5: a response with a status below 300 whose content type starts with
    [text/html], on a worker that has not ended: the headers are kept with
    the download, the worker is ended through [abort(false)], and the error
    callback of the job, if it has one, hands [DownloadIsHTML(url)] to the
    failed callback of the download, which is the last call.  The size of
    the download and the counters of the chunks are not touched. *)
Theorem handleResponse_html m w wk job dl response jobUrl :
  wf m → worker_ok m w → workers m !! w = Some wk → mEnded wk = false →
  jobAt m (mJob wk) = Some job → downloads m !! (mJob wk).1 = Some dl →
  statusCode response < 300 → isHTMLHeader (headers response) = true →
  ∃ m' wk' dl' tr,
    handleResponse url_resolve contentDisposition_parse w response jobUrl m = Some (tt, m')
    ∧ workers m' !! w = Some wk' ∧ mEnded wk' = true
    ∧ downloads m' !! (mJob wk).1 = Some dl'
    ∧ IRunningDownload.headers dl' = Some (headers response)
    ∧ IRunningDownload.size dl' = IRunningDownload.size dl
    ∧ trace m' = trace m ++ CallHeadersCB w :: tr ∧ CallFinishCB w false ∈ tr
    ∧ (IDownloadJob.errorCB job = Some CancelDownload →
         last tr = Some (FailedCB (mJob wk).1 (DownloadIsHTML jobUrl)))
    ∧ ∀ r c, jobAt m r = Some c →
        ∃ s id, jobAt m' r
                = Some (IDownloadJob.set_workerId id (IDownloadJob.set_state s c)).
Proof.
  intros Hwf Hok Hw Hended Hjob Hd Hstatus Hhtml.
  set (m1 := withDownload (mJob wk).1 (IRunningDownload.set_headers (Some (headers response)))
               (logged (CallHeadersCB w) m)).
  assert (Hd1 : downloads m1 !! (mJob wk).1
                = Some (IRunningDownload.set_headers (Some (headers response)) dl)).
  { unfold m1. rewrite downloads_withDownload_eq. simpl. by rewrite Hd. }
  assert (Hj1 : ∀ r, jobAt m1 r = jobAt m r).
  { intros r. unfold m1. by rewrite jobAt_withDownload. }
  assert (Hwf1 : wf m1).
  { apply wf_withDownload; [done|]. eapply evolves_wf; [apply evolves_logged|done]. }
  assert (Hok1 : worker_ok m1 w).
  { apply worker_ok_withDownload; [done|].
    eapply evolves_worker_ok; [apply evolves_logged|done]. }
  assert (Hw1 : workers m1 !! w = Some wk) by done.
  assert (wp (handleHTML w jobUrl) (λ _ m',
    ∃ wk' tr, evolves m1 m'
      ∧ workers m' !! w = Some wk' ∧ mEnded wk' = true
      ∧ trace m' = trace m1 ++ tr ∧ CallFinishCB w false ∈ tr
      ∧ (IDownloadJob.errorCB job = Some CancelDownload →
           last tr = Some (FailedCB (mJob wk).1 (DownloadIsHTML jobUrl)))) m1) as H.
  { unfold handleHTML. wp_step. eapply wp_mono; [apply abort_spec with (wk := wk); [apply Hwf1|done|done]|].
    cbv beta.
    intros b m2 [_ H2]. rewrite Hended in H2.
    destruct H2 as (Hev2 & Hw2 & _ & _ & Hjobs2 & tr2 & Htr2 & Hin2).
    assert (mJob (set_mEnded true (abortedWorker wk)) = mJob wk) as Hmj.
    { unfold abortedWorker. by destruct (mRequest wk). }
    wp_step. eapply wp_getWorker; [done|]. rewrite Hmj.
    destruct (evolves_jobAt _ _ (mJob wk) job Hev2) as (job2 & Hjob2 & Hje2);
      [by rewrite Hj1|].
    wp_step. eapply wp_getJob; [done|].
    assert (IDownloadJob.errorCB job2 = IDownloadJob.errorCB job) as ->.
    { by destruct (job_evolves_data _ _ Hje2) as (s & id & ->). }
    destruct (IDownloadJob.errorCB job) as [[]|].
    - destruct (evolves_download _ _ _ _ Hev2 Hd1) as (dl2 & Hd2 & _).
      wp_steps. eapply wp_mono.
      { eapply cancelDownload_settles with (m := logged _ m2); [|done].
        eapply evolves_wf; [apply evolves_logged|]. by eapply evolves_wf. }
      cbv beta. intros _ m' (m3 & (Hev3 & Hws3 & _) & ->).
      pose proof (Hws3 w) as E. simpl in E. rewrite Hw2 in E.
      inversion E as [? wk3 Hc3 |]; subst.
      destruct (evolves_trace _ _ Hev3) as [tr3 Htr3]. simpl in Htr3.
      exists wk3, (tr2 ++ CallErrorCB w (DownloadIsHTML jobUrl)
                           :: tr3 ++ [FailedCB (mJob wk).1 (DownloadIsHTML jobUrl)]).
      split_and!.
      + etrans; [done|]. etrans; [apply evolves_logged|]. etrans; [done|].
        apply evolves_logged.
      + done.
      + by destruct Hc3 as [->|[_ ->]].
      + change (trace (logged (FailedCB (mJob wk).1 (DownloadIsHTML jobUrl)) m3))
          with (trace m3 ++ [FailedCB (mJob wk).1 (DownloadIsHTML jobUrl)]).
        rewrite Htr3, Htr2. by rewrite <- !app_assoc.
      + apply elem_of_app. by left.
      + intros _. rewrite app_comm_cons, app_assoc. apply last_snoc.
    - wp_step. exists (set_mEnded true (abortedWorker wk)), tr2. split_and!; done. }
  destruct H as ([] & m' & Hrun & wk' & tr & Hev & Hw' & He' & Htr & Hin & Hlast).
  destruct (evolves_download _ _ _ _ Hev Hd1) as (dl' & Hd' & (e & ap & cs' & Hdl' & _)).
  exists m', wk', dl', tr. split_and!; try done; try (by rewrite Hdl').
  - unfold handleResponse. rewrite (bind_run _ _ _ _ _ (getWorker_run _ _ _ Hw)).
    rewrite (proj2 (Z.leb_gt _ _)) by lia. rewrite emit_bind. unfold updDownload.
    rewrite modify_bind. by rewrite Hhtml.
  - rewrite Htr. unfold m1. simpl. by rewrite <- app_assoc.
  - intros r c Hc. rewrite <- Hj1 in Hc.
    destruct (evolves_jobAt _ _ _ _ Hev Hc) as (c' & Hc' & Hje).
    destruct (job_evolves_data _ _ Hje) as (s & id & ->). eauto.
Qed.
End ResponseEnds.

Definition ex_notFound : IncomingMessage :=
  {| statusCode := 404; statusMessage := "Not Found";
     headers := {| content_type := None; content_length := None; content_range := None;
                   content_disposition := None; location := None |} |}.

(** The first worker of the example is answered with 404: the download fails
    with the HTTP error. *)
Lemma handleResponse_http_error_witness :
  ∃ m' wk' tr,
    handleResponse ex_resolve ex_disposition 0 ex_notFound ex_url ex_requested = Some (tt, m')
    ∧ workers m' !! 0%nat = Some wk' ∧ mEnded wk' = true
    ∧ trace m' = trace ex_requested ++ tr ∧ CallFinishCB 0 false ∈ tr
    ∧ FailedCB 0 (HTTPError 404 "Not Found" ex_url) ∈ tr.
Proof.
  assert (Hwf : wf ex_requested) by (apply wfb_wf; vm_compute; reflexivity).
  assert (∃ wk job, workers ex_requested !! 0%nat = Some wk ∧ mEnded wk = false
            ∧ mJob wk = (0%nat, 0%nat)
            ∧ jobAt ex_requested (mJob wk) = Some job
            ∧ IDownloadJob.errorCB job = Some CancelDownload)
    as (wk & job & Hw & He & Hr & Hjob & Hcb) by (vm_compute; eauto 10).
  assert (Hok : worker_ok ex_requested 0).
  { apply (wf_busy _ Hwf). apply elem_of_elements. vm_compute.
    apply list_elem_of_In. simpl. auto. }
  destruct (handleResponse_http_error ex_resolve ex_disposition ex_requested 0 wk job
              ex_notFound ex_url Hwf Hok Hw He Hjob)
    as (m' & wk' & tr & Hrun & Hw' & He' & Htr & Hin & Hfail & _);
    [vm_compute; discriminate|left; reflexivity|].
  exists m', wk', tr. split_and!; [exact Hrun|exact Hw'|exact He'|exact Htr|exact Hin|].
  specialize (Hfail Hcb). rewrite Hr in Hfail. exact Hfail.
Defined.

Definition ex_page : IncomingMessage :=
  {| statusCode := 200; statusMessage := "OK";
     headers := {| content_type := Some "text/html; charset=utf-8"%string;
                   content_length := Some 512; content_range := None;
                   content_disposition := None; location := None |} |}.

(** The first worker of the example is answered with a page. *)
Lemma handleResponse_html_witness :
  ∃ m' wk' dl' tr,
    handleResponse ex_resolve ex_disposition 0 ex_page ex_url ex_requested = Some (tt, m')
    ∧ workers m' !! 0%nat = Some wk' ∧ mEnded wk' = true
    ∧ downloads m' !! 0%nat = Some dl'
    ∧ IRunningDownload.headers dl' = Some (headers ex_page)
    ∧ IRunningDownload.size dl' = None
    ∧ trace m' = trace ex_requested ++ CallHeadersCB 0 :: tr
    ∧ last tr = Some (FailedCB 0 (DownloadIsHTML ex_url)).
Proof.
  assert (Hwf : wf ex_requested) by (apply wfb_wf; vm_compute; reflexivity).
  assert (∃ wk job dl, workers ex_requested !! 0%nat = Some wk ∧ mEnded wk = false
            ∧ mJob wk = (0%nat, 0%nat)
            ∧ jobAt ex_requested (mJob wk) = Some job
            ∧ IDownloadJob.errorCB job = Some CancelDownload
            ∧ downloads ex_requested !! (mJob wk).1 = Some dl
            ∧ IRunningDownload.size dl = None)
    as (wk & job & dl & Hw & He & Hr & Hjob & Hcb & Hd & Hs) by (vm_compute; eauto 10).
  assert (Hok : worker_ok ex_requested 0).
  { apply (wf_busy _ Hwf). apply elem_of_elements. vm_compute.
    apply list_elem_of_In. simpl. auto. }
  destruct (handleResponse_html ex_resolve ex_disposition ex_requested 0 wk job dl
              ex_page ex_url Hwf Hok Hw He Hjob Hd)
    as (m' & wk' & dl' & tr & Hrun & Hw' & He' & Hd' & Hh & Hsize & Htr & _ & Hlast & _);
    [vm_compute; reflexivity|vm_compute; reflexivity|].
  exists m', wk', dl', tr. rewrite Hr in Hd', Hlast. rewrite Hs in Hsize.
  split_and!; [exact Hrun|exact Hw'|exact He'|exact Hd'|exact Hh|exact Hsize|exact Htr|].
  exact (Hlast Hcb).
Defined.


(** ** Restarting a slow worker *)

Lemma mRequest_abort_run m w wk :
  workers m !! w = Some wk → is_Some (mRequest wk) →
  mRequest_abort w m
  = Some (tt, logged (RequestAbort w) (withWorker w (set_mRequest (Some true)) m)).
Proof.
  intros Hw [r Hr]. unfold mRequest_abort.
  rewrite (bind_run _ _ _ _ _ (getWorker_run _ _ _ Hw)). by rewrite Hr.
Qed.

Lemma wp_worker (w : nat) (wk : DownloadWorker) {A} (k : DownloadWorker → M A) Q m :
  workers m !! w = Some wk → wp (k wk) Q m → wp (getWorker w ≫= k) Q m.
Proof. intros Hw H. wp_step. by eapply wp_getWorker. Qed.

(** The job after [writeBuffer] on the worker [wk]. *)
Definition drained (wk : DownloadWorker) (job : IDownloadJob.t) : IDownloadJob.t :=
  if decide (mBuffers wk = []) then job else written (bufferLength wk) job.

(** The job after the write of [len] bytes was acknowledged. *)
Definition acknowledged (len : Z) (j : IDownloadJob.t) : IDownloadJob.t :=
  IDownloadJob.set_confirmedSize (IDownloadJob.confirmedSize j - len)
    (IDownloadJob.set_confirmedOffset (IDownloadJob.confirmedOffset j + len)
       (IDownloadJob.set_confirmedReceived (IDownloadJob.confirmedReceived j + len) j)).

(** The acknowledgement of the write that [writeBuffer] started on the
    worker [wk], if it had buffers: the promise of [doWriteBuffer] is
    settled before the continuation of [handleComplete] runs. *)
Definition acknowledge (w : nat) (wk : DownloadWorker) : M unit :=
  if decide (mBuffers wk = []) then mret tt else doWriteBuffer_then w (bufferLength wk).

(** The job after [writeBuffer] on the worker [wk] and the acknowledgement
    of the write. *)
Definition drainedAck (wk : DownloadWorker) (job : IDownloadJob.t) : IDownloadJob.t :=
  if decide (mBuffers wk = []) then job
  else acknowledged (bufferLength wk) (written (bufferLength wk) job).

Lemma drainedAck_counters wk job :
  IDownloadJob.offset (drainedAck wk job) = IDownloadJob.offset (drained wk job)
  ∧ IDownloadJob.size (drainedAck wk job) = IDownloadJob.size (drained wk job)
  ∧ IDownloadJob.received (drainedAck wk job) = IDownloadJob.received (drained wk job).
Proof. unfold drainedAck, drained. by case_decide. Qed.

Lemma acknowledge_run m w wk0 wk :
  workers m !! w = Some wk → mJob wk = mJob wk0 →
  acknowledge w wk0 m
  = Some (tt, if decide (mBuffers wk0 = []) then m
              else withJob (mJob wk0) (acknowledged (bufferLength wk0)) m).
Proof.
  intros Hw Hr. unfold acknowledge. case_decide; [done|]. unfold doWriteBuffer_then.
  rewrite (bind_run _ _ _ _ _ (getWorker_run _ _ _ Hw)). by rewrite Hr.
Qed.

Section RestartFacts.
Variable url_parse_throws : string → bool.
Variable http_request_throws : string → option string → option Err.

(** X6: a slow worker is restarted without losing data.  After [restart()],
    the end of the aborted response, the acknowledgement of the write and
    the continuation of [handleComplete], a worker whose chunk has bytes
    left beyond what is buffered has written its buffers at the offset of
    the job, is not ended, and asks for its url again; for a url that the
    libraries accept, the request that [assignJob] and [startDownload] then
    send starts at the first byte that was not written. *)
Theorem restart_resumes m w wk job jobUrl :
  workers m !! w = Some wk → jobAt m (mJob wk) = Some job →
  mEnded wk = false → mRedirected wk = false →
  is_Some (mRequest wk) → is_Some (mResponse wk) →
  0 < IDownloadJob.size (drained wk job) →
  requestError url_parse_throws http_request_throws jobUrl = None →
  ∃ m' wk',
    (restart w;; onEnd w;; acknowledge w wk;; handleComplete_then w;;
     assignJob w (Some jobUrl);;
     startDownload url_parse_throws http_request_throws w jobUrl) m = Some (tt, m')
    ∧ workers m' !! w = Some wk'
    ∧ mEnded wk' = false ∧ mRestart wk' = false ∧ mBuffers wk' = []
    ∧ jobAt m' (mJob wk) = Some (drainedAck wk job)
    ∧ trace m'
      = trace m ++ [RemoveErrorListeners w; RequestAbort w]
          ++ (if decide (mBuffers wk = []) then []
              else [DataCB (mJob wk).1 (IDownloadJob.offset job) (bufferLength wk);
                    DeferAck w (bufferLength wk)])
          ++ [DeferCompleted w; RequestAbort w; DeferAssignJob w;
              DeferStartDownload w jobUrl;
              Request w (beforeLt jobUrl) (afterLt jobUrl)
                (IDownloadJob.offset (drained wk job))
                (IDownloadJob.offset (drained wk job)
                 + IDownloadJob.size (drained wk job))].
Proof.
  intros Hw Hjob Hended Hred Hreq [rs Hrs] Hsize Hacc.
  destruct (drainedAck_counters wk job) as (Hoff & Hsz & _).
  assert (wp (restart w;; onEnd w;; acknowledge w wk;; handleComplete_then w;;
              assignJob w (Some jobUrl);;
              startDownload url_parse_throws http_request_throws w jobUrl)
    (λ _ m', ∃ wk', workers m' !! w = Some wk'
      ∧ mEnded wk' = false ∧ mRestart wk' = false ∧ mBuffers wk' = []
      ∧ jobAt m' (mJob wk) = Some (drainedAck wk job)
      ∧ trace m'
        = trace m ++ [RemoveErrorListeners w; RequestAbort w]
            ++ (if decide (mBuffers wk = []) then []
                else [DataCB (mJob wk).1 (IDownloadJob.offset job) (bufferLength wk);
                      DeferAck w (bufferLength wk)])
            ++ [DeferCompleted w; RequestAbort w; DeferAssignJob w;
                DeferStartDownload w jobUrl;
                Request w (beforeLt jobUrl) (afterLt jobUrl)
                  (IDownloadJob.offset (drained wk job))
                  (IDownloadJob.offset (drained wk job)
                   + IDownloadJob.size (drained wk job))]) m) as H.
  2:{ destruct H as ([] & m' & Hrun & wk' & H). exists m', wk'. by split. }
  (* restart *)
  wp_step. unfold restart. wp_step. eapply wp_getWorker; [done|]. rewrite Hrs.
  wp_steps. eapply wp_run.
  { apply mRequest_abort_run with (wk := wk); done. }
  wp_steps.
  set (wk1 := set_mRestart true (set_mRequest (Some true) wk)).
  set (m1 := withWorker w (set_mRestart true) _).
  assert (Hw1 : workers m1 !! w = Some wk1).
  { unfold m1. rewrite workers_withWorker_eq. simpl. by rewrite lookup_alter_eq, Hw. }
  assert (Hj1 : jobAt m1 (mJob wk) = Some job) by done.
  assert (Ht1 : trace m1 = trace m ++ [RemoveErrorListeners w; RequestAbort w]).
  { unfold m1. simpl. by rewrite <- app_assoc. }
  clearbody m1.
  (* the end of the response *)
  cbv beta. unfold onEnd. wp_step. eapply wp_getWorker; [done|].
  assert (mRedirected wk1 = false) as -> by done.
  wp_step. unfold handleComplete. wp_step. eapply wp_getWorker; [done|].
  assert (mEnded wk1 = false) as -> by done.
  wp_step. eapply wp_run; [by eapply (writeBuffer_run m1 w wk1 job)|]. wp_steps.
  eapply wp_run.
  { eapply mRequest_abort_run with (wk := if decide (mBuffers wk = [])
                                          then wk1 else set_mBuffers [] wk1).
    - change (mBuffers wk1) with (mBuffers wk). case_decide; [done|].
      simpl. unfold wrote. simpl. by rewrite lookup_alter_eq, Hw1.
    - by case_decide. }
  set (wk2 := set_mRequest (Some true) (set_mBuffers [] wk1)).
  set (m2 := logged (RequestAbort w) _).
  assert (Hw2 : workers m2 !! w = Some wk2).
  { transitivity (set_mRequest (Some true)
                    <$> workers (if decide (mBuffers wk = []) then m1
                                 else wrote w wk1 job m1) !! w).
    { apply (workers_withWorker_eq w (set_mRequest (Some true))
               (logged (DeferCompleted w)
                  (if decide (mBuffers wk = []) then m1 else wrote w wk1 job m1))). }
    case_decide as Hb.
    - rewrite Hw1. simpl. f_equal. unfold wk2, wk1, set_mRequest, set_mBuffers. simpl.
      by rewrite Hb.
    - transitivity (set_mRequest (Some true)
                      <$> workers (withWorker w (set_mBuffers []) m1) !! w); [done|].
      by rewrite workers_withWorker_eq, Hw1. }
  assert (Hj2 : jobAt m2 (mJob wk) = Some (drained wk job)).
  { transitivity (jobAt (if decide (mBuffers wk = []) then m1 else wrote w wk1 job m1)
                    (mJob wk)); [done|].
    unfold drained. case_decide; [done|]. unfold wrote.
    change (mJob wk1) with (mJob wk). change (bufferLength wk1) with (bufferLength wk).
    rewrite jobAt_withJob_eq. by rewrite !jobAt_logged, jobAt_withWorker, Hj1. }
  assert (Ht2 : trace m2
    = trace m1 ++ (if decide (mBuffers wk = []) then []
                   else [DataCB (mJob wk).1 (IDownloadJob.offset job) (bufferLength wk);
                         DeferAck w (bufferLength wk)])
        ++ [DeferCompleted w; RequestAbort w]).
  { unfold m2. change (mBuffers wk1) with (mBuffers wk). simpl.
    case_decide; simpl; [by rewrite <- !app_assoc|].
    unfold wrote. simpl. by rewrite <- !app_assoc. }
  clearbody m2.
  (* the acknowledgement of the write *)
  wp_step. eapply wp_run; [by eapply (acknowledge_run m2 w wk wk2)|].
  set (m2a := if decide (mBuffers wk = []) then m2 else _).
  assert (Hw2a : workers m2a !! w = Some wk2).
  { unfold m2a. by case_decide. }
  assert (Hj2a : jobAt m2a (mJob wk) = Some (drainedAck wk job)).
  { unfold m2a, drainedAck. unfold drained in Hj2. case_decide; [done|].
    by rewrite jobAt_withJob_eq, Hj2. }
  assert (Ht2a : trace m2a = trace m2).
  { unfold m2a. by case_decide. }
  clearbody m2a.
  (* the continuation of handleComplete *)
  wp_step. unfold handleComplete_then. wp_step. eapply wp_getWorker; [done|].
  wp_step. eapply wp_getJob; [done|].
  assert (mRestart wk2 = true) as -> by done.
  rewrite Hsz. rewrite (proj2 (Z.ltb_lt _ _)) by done. simpl. wp_steps.
  set (wk3 := set_mRestart false wk2).
  set (m3 := logged (DeferAssignJob w) _).
  assert (Hw3 : workers m3 !! w = Some wk3).
  { unfold m3. simpl. by rewrite lookup_alter_eq, Hw2a. }
  assert (Hj3 : jobAt m3 (mJob wk) = Some (drainedAck wk job)) by done.
  assert (Ht3 : trace m3 = trace m2a ++ [DeferAssignJob w]) by done.
  clearbody m3.
  eapply wp_run.
  { eapply (assignJob_run m3 w wk3); [done|done|]. by rewrite Hsz. }
  eapply wp_run.
  { rewrite (startDownload_run url_parse_throws http_request_throws _ w
               (set_mDataHistory [] wk3) (drainedAck wk job) jobUrl); [by rewrite Hacc| |done].
    simpl. by rewrite lookup_alter_eq, Hw3. }
  eexists. split_and!.
  - simpl. rewrite lookup_alter_eq. simpl. rewrite lookup_alter_eq, Hw3. done.
  - done.
  - done.
  - done.
  - done.
  - simpl. rewrite Ht3, Ht2a, Ht2, Ht1, Hoff, Hsz. rewrite <- !app_assoc. simpl.
    case_decide; simpl; done.
Qed.
End RestartFacts.

(** The second worker of the example is restarted with 1000 bytes in its
    buffer: they are written and the next request starts after them. *)
Lemma restart_resumes_witness :
  ∃ m' wk' job',
    (restart 1;; onEnd 1;; doWriteBuffer_then 1 1000;; handleComplete_then 1;;
     assignJob 1 (Some ex_url);;
     startDownload ex_parse_throws ex_request_throws 1 ex_url) ex_streaming
    = Some (tt, m')
    ∧ workers m' !! 1%nat = Some wk'
    ∧ mEnded wk' = false ∧ mBuffers wk' = []
    ∧ jobAt m' (0%nat, 1%nat) = Some job'
    ∧ IDownloadJob.confirmedOffset job' = 20972521
    ∧ trace m'
      = trace ex_streaming
        ++ [RemoveErrorListeners 1; RequestAbort 1; DataCB 0 20971521 1000; DeferAck 1 1000;
            DeferCompleted 1; RequestAbort 1; DeferAssignJob 1; DeferStartDownload 1 ex_url;
            Request 1 (beforeLt ex_url) (afterLt ex_url) 20972521 52428801].
Proof.
  assert (∃ wk job, workers ex_streaming !! 1%nat = Some wk
            ∧ jobAt ex_streaming (mJob wk) = Some job
            ∧ mEnded wk = false ∧ mRedirected wk = false
            ∧ is_Some (mRequest wk) ∧ is_Some (mResponse wk)
            ∧ mJob wk = (0%nat, 1%nat)
            ∧ mBuffers wk = [1000]
            ∧ IDownloadJob.offset job = 20971521 ∧ IDownloadJob.size job = 31457280
            ∧ IDownloadJob.confirmedOffset job = 20971521)
    as (wk & job & Hw & Hjob & He & Hred & Hreq & Hres & Hr & Hb & Ho & Hs & Hco)
    by (vm_compute; eauto 20).
  assert (Hd : drained wk job = written 1000 job).
  { unfold drained, bufferLength. rewrite Hb. reflexivity. }
  assert (Hda : drainedAck wk job = acknowledged 1000 (written 1000 job)).
  { unfold drainedAck, bufferLength. rewrite Hb. reflexivity. }
  assert (Hack : acknowledge 1 wk = doWriteBuffer_then 1 1000).
  { unfold acknowledge, bufferLength. rewrite Hb. reflexivity. }
  destruct (restart_resumes ex_parse_throws ex_request_throws ex_streaming 1 wk job ex_url
              Hw Hjob He Hred Hreq Hres)
    as (m' & wk' & Hrun & Hw' & He' & _ & Hb' & Hj' & Htr).
  { rewrite Hd. simpl. rewrite Hs. lia. }
  { vm_compute. reflexivity. }
  rewrite Hack in Hrun. rewrite Hr, Hda in Hj'.
  exists m', wk', (acknowledged 1000 (written 1000 job)).
  split_and!; [exact Hrun|exact Hw'|exact He'|exact Hb'|exact Hj'| |].
  - simpl. rewrite Hco. reflexivity.
  - rewrite Htr, Hd, Hr, Hb. unfold bufferLength. rewrite Hb. simpl. rewrite Ho, Hs.
    reflexivity.
Defined.


(** * Further methods of the manager *)

(** ** stop *)

(** The first [forEach] of [stop], on one chunk. *)
Definition stopInit (chunk : IDownloadJob.t) : IDownloadJob.t :=
  if decide (IDownloadJob.state chunk = Init)
  then IDownloadJob.set_state Finished chunk else chunk.

(** [stop(id)] *)
Definition stop (id : string) : M unit :=
  m ← get;
  match list_find (λ value, downloadId m value = Some id) (mQueue m) with
  | None => mret tt
  | Some (_, d) =>
      updDownload d (λ download,
        IRunningDownload.set_chunks
          (map stopInit (IRunningDownload.chunks download)) download);;
      download ← getDownload d;
      match list_find (λ chunk, IDownloadJob.state chunk ≠ Finished)
                      (IRunningDownload.chunks download) with
      | Some _ =>
          forEach (seq 0 (length (IRunningDownload.chunks download))) (λ j,
            chunk ← getJob (d, j);
            m ← get;
            if decide (IDownloadJob.state chunk = Running) then
              match busyWorker m (IDownloadJob.workerId chunk) with
              | Some w => cancel w
              | None => mret tt
              end
            else mret tt)
      | None => emit (FailedCB d UserCanceled)
      end;;
      modify (λ m, set_mQueue
                     (filter (λ value, downloadId m value ≠ Some id) (mQueue m)) m)
  end.

(** Marking the chunks of a download keeps a store well formed when the
    worker ids are kept and no chunk is put back to init. *)
Lemma wf_chunks_map d f m :
  (∀ c, IDownloadJob.workerId (f c) = IDownloadJob.workerId c
        ∧ (IDownloadJob.state (f c) = Init → IDownloadJob.state c = Init)) →
  wf m →
  wf (withDownload d (λ dl,
        IRunningDownload.set_chunks (map f (IRunningDownload.chunks dl)) dl) m).
Proof.
  intros Hf [Hq Hb Hi].
  set (g := λ dl, IRunningDownload.set_chunks (map f (IRunningDownload.chunks dl)) dl).
  assert (Hd : ∀ r dl, downloads m !! r = Some dl →
            ∃ dl', downloads (withDownload d g m) !! r = Some dl'
              ∧ IRunningDownload.assembler dl' = IRunningDownload.assembler dl
              ∧ ∀ j c, IRunningDownload.chunks dl !! j = Some c →
                  ∃ c', IRunningDownload.chunks dl' !! j = Some c'
                    ∧ IDownloadJob.workerId c' = IDownloadJob.workerId c
                    ∧ (IDownloadJob.state c' = Init → IDownloadJob.state c = Init)).
  { intros r dl Hr. destruct (decide (d = r)) as [->|Hne].
    - exists (g dl). rewrite downloads_withDownload_eq, Hr. split_and!; [done|done|].
      intros j c Hc. exists (f c). simpl. rewrite list_lookup_fmap, Hc. split; [done|apply Hf].
    - exists dl. rewrite downloads_withDownload_ne by done. split_and!; [done|done|].
      intros j c Hc. exists c. done. }
  split.
  - intros r Hr. destruct (Hq r Hr) as [dl Hr']. destruct (Hd _ _ Hr') as (dl' & -> & _).
    eauto.
  - intros w Hw. destruct (Hb w Hw) as (wk & dl & Hwk & Hdl & [c Hc] & Ha).
    destruct (Hd _ _ Hdl) as (dl' & Hdl' & Ha' & Hcs).
    destruct (Hcs _ _ Hc) as (c' & Hc' & _).
    exists wk, dl'. split_and!; [done|done|by eexists|by rewrite Ha'].
  - intros w Hw. destruct (Hi w Hw) as (wk & job & Hwk & Hj & Hid & Hst).
    apply jobAt_inv in Hj as (dl & Hdl & Hc).
    destruct (Hd _ _ Hdl) as (dl' & Hdl' & _ & Hcs).
    destruct (Hcs _ _ Hc) as (c' & Hc' & Hid' & Hst').
    exists wk, c'. split_and!; [done| |congruence|auto].
    unfold jobAt. change (workers (withDownload d g m)) with (workers m) in *.
    by rewrite Hdl'.
Qed.

(** What holds between two chunks of the second [forEach] of [stop]: [m1]
    is the state after the chunks in state init were marked.  A job that is
    not the job of a busy worker and is not in state init is left alone. *)
Definition stopping (m1 : DownloadManager) (m : DownloadManager) : Prop :=
  evolves m1 m
  ∧ (∀ w, option_Forall2 worker_cancelled (workers m1 !! w) (workers m !! w))
  ∧ ∀ r c, jobAt m1 r = Some c →
      ∃ c', jobAt m r = Some c' ∧ job_settles c c'
        ∧ (IDownloadJob.state c ≠ Init →
           (∀ w wk, w ∈ mBusyWorkers m1 → workers m1 !! w = Some wk → mJob wk ≠ r) →
           c' = c).

Lemma stopping_refl m1 : stopping m1 m1.
Proof.
  split_and!; [reflexivity| |].
  - intros w. destruct (workers m1 !! w); constructor. reflexivity.
  - intros r c Hc. exists c. split_and!; [done|reflexivity|done].
Qed.

Lemma stop_loop m1 d n :
  wf m1 → (∀ j, (j < n)%nat → is_Some (jobAt m1 (d, j))) →
  wp (forEach (seq 0 n) (λ j,
        chunk ← getJob (d, j);
        m ← get;
        if decide (IDownloadJob.state chunk = Running) then
          match busyWorker m (IDownloadJob.workerId chunk) with
          | Some w => cancel w
          | None => mret tt
          end
        else mret tt))
     (λ _ m', stopping m1 m') m1.
Proof.
  intros Hwf Hall.
  eapply wp_mono.
  { apply (wp_forEach_seq (λ _ mi, stopping m1 mi)); [apply stopping_refl|].
    intros j mi Hj (Hev & Hws & Hjobs).
    destruct (Hall j) as [c Hc]; [lia|].
    destruct (Hjobs _ _ Hc) as (c' & Hc' & _).
    assert (Hwfi : wf mi) by (by eapply evolves_wf).
    wp_step. eapply wp_getJob; [done|]. wp_step. wp_step.
    case_decide as Hrun; [|by wp_step].
    destruct (busyWorker mi (IDownloadJob.workerId c')) as [w|] eqn:Hbw; [|by wp_step].
    apply busyWorker_Some in Hbw as [_ Hbusy].
    destruct (wf_busy _ Hwfi w Hbusy) as (wk & dlw & Hwk & Hrest).
    eapply wp_mono.
    { apply cancel_spec with (wk := wk); [apply Hwfi| |done]. exists wk, dlw. done. }
    cbv beta. intros _ m2 H2.
    destruct (mEnded wk) eqn:Hen; [by subst|].
    destruct H2 as (Hev2 & Hw2 & Hne2 & _ & Hj2 & _).
    (* the worker in [m1] *)
    pose proof (evolves_workers _ _ Hev w) as E. rewrite Hwk in E.
    inversion E as [wk1 ? [Hmj _] Hwk1 |]; subst. symmetry in Hwk1.
    assert (Hb1 : w ∈ mBusyWorkers m1) by (by apply (evolves_busy _ _ Hev)).
    split_and!.
    - by etrans.
    - intros w'. pose proof (Hws w') as E1.
      destruct (decide (w' = w)) as [->|Hw'].
      + rewrite Hw2. rewrite Hwk in E1. inversion E1 as [a ? Hc1 |]; subst. constructor.
        etrans; [done|]. by right.
      + by rewrite (Hne2 _ Hw').
    - intros r c0 Hc0. destruct (Hjobs _ _ Hc0) as (c1 & Hc1 & Hs1 & Hfix).
      destruct (Hj2 _ _ Hc1) as (c2 & Hc2 & Hf). exists c2. split_and!; [done| |].
      + etrans; [done|]. by eapply job_finished_settles.
      + intros Hni Hnb. specialize (Hfix Hni Hnb). subst c1.
        unfold job_finished in Hf. rewrite decide_False in Hf.
        * by destruct Hf as [->|[Hi _]].
        * rewrite Hmj. by eapply Hnb. }
  done.
Qed.

Lemma stopInit_data c :
  stopInit c
  = IDownloadJob.set_workerId (IDownloadJob.workerId c)
      (IDownloadJob.set_state (IDownloadJob.state (stopInit c)) c).
Proof. unfold stopInit. case_decide; by destruct c. Qed.

Lemma downloadId_withDownload d f m r :
  (∀ dl, IRunningDownload.id (f dl) = IRunningDownload.id dl) →
  downloadId (withDownload d f m) r = downloadId m r.
Proof.
  intros Hf. unfold downloadId, withDownload. simpl. rewrite lookup_alter.
  case_decide; [subst|done]. destruct (downloads m !! r); simpl; [|done]. by rewrite Hf.
Qed.

(** X7: [stop(id)].  For an id that is not queued nothing is done.
    Otherwise the download leaves the queue; its chunks in state init are
    finished (not paused) and stay so; every chunk keeps its url, counters
    and callbacks, and a chunk that was paused or finished stays paused or
    finished; a worker is as before or was cancelled.  When no chunk was
    ever started (all are in state init or finished), no worker is touched
    and the only call is the failed callback with [UserCanceled]. *)
Theorem stop_result m id :
  wf m →
  match list_find (λ value, downloadId m value = Some id) (mQueue m) with
  | None => stop id m = Some (tt, m)
  | Some (_, d) =>
      ∃ dl m',
        downloads m !! d = Some dl ∧ stop id m = Some (tt, m')
        ∧ mQueue m' = filter (λ value, downloadId m value ≠ Some id) (mQueue m)
        ∧ (∀ j c, IRunningDownload.chunks dl !! j = Some c →
             ∃ s w,
               jobAt m' (d, j)
               = Some (IDownloadJob.set_workerId w (IDownloadJob.set_state s c))
               ∧ (IDownloadJob.state c = Init → s = Finished)
               ∧ (terminal (IDownloadJob.state c) = true → terminal s = true))
        ∧ (∀ w wk, workers m !! w = Some wk →
             workers m' !! w = Some wk
             ∨ (mEnded wk = false
                ∧ workers m' !! w = Some (set_mEnded true (abortedWorker wk))))
        ∧ (Forall (λ c, IDownloadJob.state c = Init ∨ IDownloadJob.state c = Finished)
                  (IRunningDownload.chunks dl) →
           workers m' = workers m ∧ mBusyWorkers m' = mBusyWorkers m
           ∧ trace m' = trace m ++ [FailedCB d UserCanceled])
  end.
Proof.
  intros Hwf.
  destruct (list_find _ (mQueue m)) as [[i d]|] eqn:Hfind.
  2:{ unfold stop. unfold mbind, M_bind, get. by rewrite Hfind. }
  pose proof Hfind as Hin. apply list_find_Some in Hin as (Hi & _ & _).
  destruct (wf_queue _ Hwf d) as [dl Hd]; [by eapply list_elem_of_lookup_2|].
  set (mark := λ download : IRunningDownload.t,
         IRunningDownload.set_chunks (map stopInit (IRunningDownload.chunks download))
           download).
  set (m1 := withDownload d mark m).
  assert (Hwf1 : wf m1).
  { apply wf_chunks_map; [|done]. intros c. unfold stopInit. case_decide; done. }
  assert (Hd1 : downloads m1 !! d = Some (mark dl)).
  { unfold m1. by rewrite downloads_withDownload_eq, Hd. }
  assert (Hj1 : ∀ j c, IRunningDownload.chunks dl !! j = Some c →
                 jobAt m1 (d, j) = Some (stopInit c)).
  { intros j c Hc. eapply jobAt_Some; [done|]. simpl. by rewrite list_lookup_fmap, Hc. }
  assert (Hid1 : ∀ r, downloadId m1 r = downloadId m r).
  { intros r. by apply downloadId_withDownload. }
  (* the calls between the two changes of the store *)
  assert (wp (match list_find (λ chunk, IDownloadJob.state chunk ≠ Finished)
                      (IRunningDownload.chunks (mark dl)) with
      | Some _ =>
          forEach (seq 0 (length (IRunningDownload.chunks (mark dl)))) (λ j,
            chunk ← getJob (d, j);
            m ← get;
            if decide (IDownloadJob.state chunk = Running) then
              match busyWorker m (IDownloadJob.workerId chunk) with
              | Some w => cancel w
              | None => mret tt
              end
            else mret tt)
      | None => emit (FailedCB d UserCanceled)
      end)
    (λ _ m2, stopping m1 m2
       ∧ (Forall (λ c, IDownloadJob.state c = Init ∨ IDownloadJob.state c = Finished)
                 (IRunningDownload.chunks dl) →
          m2 = logged (FailedCB d UserCanceled) m1)) m1) as Hmid.
  { destruct (list_find _ (IRunningDownload.chunks (mark dl))) as [[j c]|] eqn:Hf.
    - eapply wp_mono.
      { apply stop_loop; [done|]. intros j' Hj'. simpl in Hj'. rewrite length_map in Hj'.
        destruct (lookup_lt_is_Some_2 (IRunningDownload.chunks dl) j') as [c' Hc']; [done|].
        rewrite (Hj1 _ _ Hc'). eauto. }
      cbv beta. intros _ m2 H2. split; [done|]. intros Hall. exfalso.
      apply list_find_Some in Hf as (Hj & Hnf & _). simpl in Hj.
      rewrite list_lookup_fmap in Hj.
      destruct (IRunningDownload.chunks dl !! j) as [c0|] eqn:Hc0; [|done].
      injection Hj as <-. apply Hnf.
      pose proof (proj1 (Forall_lookup _ _) Hall _ _ Hc0) as Hs. unfold stopInit.
      case_decide; [done|]. by destruct Hs.
    - wp_step. split; [|done]. destruct (stopping_refl m1) as (_ & Hws & Hjobs).
      split_and!; [apply evolves_logged|exact Hws|exact Hjobs]. }
  destruct Hmid as ([] & m2 & Hrun2 & (Hev & Hws & Hjobs) & Hnone).
  exists dl. eexists. split; [done|]. split.
  { unfold stop. unfold mbind at 1, M_bind at 1, get. rewrite Hfind.
    unfold updDownload. rewrite modify_bind. fold mark. fold m1.
    rewrite (bind_run _ _ _ _ _ (getDownload_run _ _ _ Hd1)).
    rewrite (bind_run _ _ _ _ _ Hrun2). reflexivity. }
  split_and!.
  - simpl. rewrite (evolves_queue _ _ Hev). change (mQueue m1) with (mQueue m).
    apply list_filter_iff. intros r.
    by rewrite (evolves_downloadId _ _ _ Hev), Hid1.
  - intros j c Hc. destruct (Hjobs _ _ (Hj1 _ _ Hc)) as (c' & Hc' & [Hterm _] & Hfix).
    destruct (evolves_jobAt _ _ _ _ Hev (Hj1 _ _ Hc)) as (c'' & Hc'' & Hje).
    assert (c'' = c') as -> by congruence.
    destruct (job_evolves_data _ _ Hje) as (s & w & Heq).
    exists s, w. split_and!.
    + transitivity (jobAt m2 (d, j)); [done|].
      rewrite Hc'. f_equal. rewrite Heq. unfold stopInit. by case_decide.
    + intros Hinit. rewrite Hfix in Heq.
      * assert (IDownloadJob.state (stopInit c) = s) as <- by (by rewrite Heq).
        unfold stopInit. by rewrite decide_True.
      * unfold stopInit. by rewrite decide_True.
      * intros w0 wk0 Hb0 Hw0 Hmj. destruct (wf_ids _ Hwf w0 Hb0) as (wk' & job & Hwk' & Hjob & _ & Hst).
        change (workers m1) with (workers m) in Hw0.
        assert (wk' = wk0) as -> by congruence. rewrite Hmj in Hjob.
        erewrite jobAt_Some in Hjob by done. congruence.
    + intros Ht. assert (IDownloadJob.state c' = s) as <- by (by rewrite Heq).
      apply Hterm. unfold stopInit. case_decide as Hi'; [by rewrite Hi' in Ht|done].
  - intros w wk Hw. pose proof (Hws w) as E. change (workers m1) with (workers m) in E.
    rewrite Hw in E. inversion E as [? wk' [->|[He ->]] |]; subst; [by left|by right].
  - intros Hall. rewrite (Hnone Hall). done.
Qed.

(** The example download is stopped while two of its chunks run. *)
Lemma stop_result_witness :
  ∃ dl m',
    downloads ex_chunked !! 0%nat = Some dl ∧ stop "a" ex_chunked = Some (tt, m')
    ∧ mQueue m' = []
    ∧ ∀ j c, IRunningDownload.chunks dl !! j = Some c →
        ∃ s w,
          jobAt m' (0%nat, j)
          = Some (IDownloadJob.set_workerId w (IDownloadJob.set_state s c))
          ∧ (IDownloadJob.state c = Init → s = Finished).
Proof.
  assert (Hwf : wf ex_chunked) by (apply wfb_wf; vm_compute; reflexivity).
  pose proof (stop_result ex_chunked "a" Hwf) as H.
  assert (list_find (λ value, downloadId ex_chunked value = Some "a"%string)
            (mQueue ex_chunked) = Some (0%nat, 0%nat)) as Hfind by (vm_compute; reflexivity).
  rewrite Hfind in H. destruct H as (dl & m' & Hd & Hrun & Hq & Hjobs & _).
  exists dl, m'. split_and!; [exact Hd|exact Hrun|rewrite Hq; vm_compute; reflexivity|].
  intros j c Hc. destruct (Hjobs j c Hc) as (s & w & Hj & Hi & _). eauto.
Defined.


(** ** resume *)

(** [toJob(download, chunk, first)]; [fileNameFromURL] is the value the
    variable of the closure takes when the url of the job is resolved. *)
Definition toJob (download : IRunningDownload.t) (fileNameFromURL : option string)
    (chunk : IChunk.t) (first : bool) : IDownloadJob.t :=
  {| IDownloadJob.url := FirstResolved;
     IDownloadJob.confirmedOffset := IChunk.offset chunk;
     IDownloadJob.confirmedSize := IChunk.size chunk;
     IDownloadJob.confirmedReceived := IChunk.received chunk;
     IDownloadJob.offset := IChunk.offset chunk;
     IDownloadJob.state := Init;
     IDownloadJob.size := IChunk.size chunk;
     IDownloadJob.received := IChunk.received chunk;
     IDownloadJob.workerId := None;
     IDownloadJob.errorCB := None;
     IDownloadJob.responseCB :=
       Some (match IRunningDownload.size download with
             | None => UpdateDownload None
             | Some _ => if first then UpdateDownload fileNameFromURL
                         else UpdateDownloadSize
             end) |}.

(** [job.errorCB = ...] *)
Definition set_errorCB (v : option ErrorCB) (j : IDownloadJob.t) : IDownloadJob.t :=
  {| IDownloadJob.url := IDownloadJob.url j;
     IDownloadJob.confirmedOffset := IDownloadJob.confirmedOffset j;
     IDownloadJob.confirmedSize := IDownloadJob.confirmedSize j;
     IDownloadJob.confirmedReceived := IDownloadJob.confirmedReceived j;
     IDownloadJob.offset := IDownloadJob.offset j;
     IDownloadJob.state := IDownloadJob.state j;
     IDownloadJob.size := IDownloadJob.size j;
     IDownloadJob.received := IDownloadJob.received j;
     IDownloadJob.workerId := IDownloadJob.workerId j;
     IDownloadJob.errorCB := v;
     IDownloadJob.responseCB := IDownloadJob.responseCB j |}.

(** What [resume] has done when it returns: its promise is rejected, or
    the download is queued under a reference. *)
Inductive Resumed :=
| ResumeRejected (err : Err)
| ResumePending (d : nat).

Section Resume.
(** Of the libraries: [path.basename(p)]. *)
Variable path_basename1 : string → string.

(** [resume(id, filePath, urls, received, size, started, chunks,
    progressCB)]; [chunks] may be [undefined]. *)
Definition resume (id filePath : string) (urls : list string) (received : Z)
    (size : option Z) (started : Z) (chunks : option (list IChunk.t))
    (fileNameFromURL : option string) : M Resumed :=
  let download :=
    {| IRunningDownload.id := id;
       IRunningDownload.origName := path_basename1 filePath;
       IRunningDownload.tempName := filePath;
       IRunningDownload.finalName := None;
       IRunningDownload.error := false;
       IRunningDownload.urls := urls;
       IRunningDownload.redownload := Always;
       IRunningDownload.started := Some started;
       IRunningDownload.received := received;
       IRunningDownload.size := size;
       IRunningDownload.headers := None;
       IRunningDownload.assembler := None;
       IRunningDownload.assemblerProm := false;
       IRunningDownload.chunks := [];
       IRunningDownload.chunkable := None |} in
  let isPending := bool_decide (received = 0) in
  let jobs :=
    imap (λ idx chunk,
            toJob download fileNameFromURL chunk (isPending && bool_decide (idx = 0%nat)))
         (default [] chunks) in
  match jobs with
  | [] => mret (ResumeRejected (ProcessCanceled "No unfinished chunks"))
  | first :: rest =>
      m ← get;
      let d := fresh (dom (downloads m)) in
      modify (λ m, set_downloads
                     (<[d := IRunningDownload.set_chunks
                               (set_errorCB (Some CancelDownload) first :: rest)
                               download]> (downloads m)) m);;
      modify (λ m, set_mQueue (mQueue m ++ [d]) m);;
      tickQueue;;
      mret (ResumePending d)
  end.
End Resume.

Lemma job_ticked_stored c c' : job_ticked c c' → toStoredChunk c' = toStoredChunk c.
Proof. by intros [->|[_ [w ->]]]. Qed.

Lemma queue_ok_insert m d dl :
  queue_ok m →
  queue_ok (set_mQueue (mQueue m ++ [d]) (set_downloads (<[d := dl]> (downloads m)) m)).
Proof.
  intros Hq r Hr. simpl in *. apply elem_of_app in Hr as [Hr|Hr].
  - destruct (decide (d = r)) as [->|Hne]; [by rewrite lookup_insert_eq; eauto|].
    rewrite lookup_insert_ne by done. by apply Hq.
  - apply list_elem_of_singleton in Hr as ->. rewrite lookup_insert_eq. eauto.
Qed.

(** The jobs that [resume] makes of the chunks. *)
Definition resumedJob (chunk : IChunk.t) (job : IDownloadJob.t) : Prop :=
  toStoredChunk job = {| IChunk.url := FirstResolved; IChunk.size := IChunk.size chunk;
                         IChunk.offset := IChunk.offset chunk;
                         IChunk.received := IChunk.received chunk |}
  ∧ IDownloadJob.offset job = IChunk.offset chunk
  ∧ IDownloadJob.size job = IChunk.size chunk
  ∧ IDownloadJob.received job = IChunk.received chunk
  ∧ is_Some (IDownloadJob.responseCB job).

Lemma imap_toJob download fileNameFromURL (first : nat → bool) (l : list IChunk.t) :
  Forall2 (λ chunk job, resumedJob chunk job ∧ IDownloadJob.state job = Init
                        ∧ IDownloadJob.errorCB job = None)
    l (imap (λ idx chunk, toJob download fileNameFromURL chunk (first idx)) l).
Proof.
  revert first. induction l as [|c l IH]; intros first; simpl; constructor.
  - unfold resumedJob. simpl. split_and!; done.
  - apply (IH (first ∘ S)).
Qed.

Lemma job_ticked_resumed chunk c c' :
  resumedJob chunk c → job_ticked c c' → resumedJob chunk c'.
Proof. intros H [->|[_ [w ->]]]; [done|]. exact H. Qed.

Section ResumeFacts.
Variable path_basename1 : string → string.

(** The checkpoint that [toStoredChunk] takes of the job that [toJob]
    makes of a checkpoint. *)
Definition restored (chunk : IChunk.t) : IChunk.t :=
  {| IChunk.url := FirstResolved; IChunk.size := IChunk.size chunk;
     IChunk.offset := IChunk.offset chunk; IChunk.received := IChunk.received chunk |}.

(** X8: [resume].  Without chunks the promise is rejected with
    [ProcessCanceled('No unfinished chunks')] and nothing is stored.  With
    chunks the download is stored under a fresh reference at the end of the
    queue; its jobs are those that [toJob] makes of the chunks, the first
    with the error callback, up to the ones the scheduler starts at once;
    so the checkpoints of the jobs are the given chunks (with the url of
    the download), and every job has a response callback.  The other
    downloads are as before, up to the chunks that the scheduler starts. *)
Theorem resume_result m id filePath urls received size started chunks fileNameFromURL :
  queue_ok m →
  match default [] chunks with
  | [] =>
      resume path_basename1 id filePath urls received size started chunks fileNameFromURL m
      = Some (ResumeRejected (ProcessCanceled "No unfinished chunks"), m)
  | chunk0 :: chunks' =>
      let d := fresh (dom (downloads m)) in
      ∃ m' dl' job0,
        resume path_basename1 id filePath urls received size started chunks
          fileNameFromURL m = Some (ResumePending d, m')
        ∧ downloads m !! d = None
        ∧ mQueue m' = mQueue m ++ [d]
        ∧ downloads m' !! d = Some dl'
        ∧ IRunningDownload.id dl' = id ∧ IRunningDownload.tempName dl' = filePath
        ∧ IRunningDownload.received dl' = received ∧ IRunningDownload.size dl' = size
        ∧ IRunningDownload.redownload dl' = Always
        ∧ map toStoredChunk (IRunningDownload.chunks dl') = map restored (chunk0 :: chunks')
        ∧ Forall2 (λ chunk job,
                     IDownloadJob.offset job = IChunk.offset chunk
                     ∧ IDownloadJob.size job = IChunk.size chunk
                     ∧ IDownloadJob.received job = IChunk.received chunk
                     ∧ is_Some (IDownloadJob.responseCB job)
                     ∧ (IDownloadJob.state job = Init ∨ IDownloadJob.state job = Running))
            (chunk0 :: chunks') (IRunningDownload.chunks dl')
        ∧ IRunningDownload.chunks dl' !! 0%nat = Some job0
        ∧ IDownloadJob.errorCB job0 = Some CancelDownload
        ∧ (∀ j job, (0 < j)%nat → IRunningDownload.chunks dl' !! j = Some job →
             IDownloadJob.errorCB job = None)
        ∧ ∀ r, r ≠ d →
            option_Forall2 download_ticked (downloads m !! r) (downloads m' !! r)
  end.
Proof.
  intros Hq. unfold resume.
  set (download := IRunningDownload.mk _ _ _ _ _ _ _ _ _ _ _ _ _ _ _).
  pose proof (imap_toJob download fileNameFromURL
                (λ idx, bool_decide (received = 0) && bool_decide (idx = 0%nat))
                (default [] chunks)) as Hjobs.
  destruct (default [] chunks) as [|chunk0 chunks'] eqn:Hchunks; [done|].
  simpl in Hjobs. apply Forall2_cons_1 in Hjobs as [(Hr0 & Hs0 & He0) Hrest].
  simpl. set (d := fresh (dom (downloads m))).
  set (job0 := toJob download fileNameFromURL chunk0 _) in *.
  set (rest := imap _ chunks') in *.
  set (dl0 := IRunningDownload.set_chunks (set_errorCB (Some CancelDownload) job0 :: rest)
                download).
  set (m2 := set_mQueue (mQueue m ++ [d]) (set_downloads (<[d := dl0]> (downloads m)) m)).
  assert (Hfresh : downloads m !! d = None).
  { apply not_elem_of_dom. apply is_fresh. }
  destruct (tickQueue_spec m2) as ([] & m' & Hrun & Ht).
  { apply queue_ok_insert. exact Hq. }
  pose proof (ticked_downloads _ _ Ht d) as E. unfold m2 in E. simpl in E.
  rewrite lookup_insert_eq in E. inversion E as [? dl' (ap & cs' & Hdl' & Hcs) Heq Hd' |].
  symmetry in Hd'. simpl in Hcs.
  apply Forall2_cons_inv_l in Hcs as (j0 & cs'' & Hj0 & Hcs'' & ->).
  exists m', dl', j0. split_and!.
  - unfold mbind at 1, M_bind at 1, get. rewrite !modify_bind. fold d dl0 m2.
    by rewrite (bind_run _ _ _ _ _ Hrun).
  - done.
  - by rewrite (ticked_queue _ _ Ht).
  - done.
  - by rewrite Hdl'.
  - by rewrite Hdl'.
  - by rewrite Hdl'.
  - by rewrite Hdl'.
  - by rewrite Hdl'.
  - rewrite Hdl'. simpl. f_equal.
    + rewrite (job_ticked_stored _ _ Hj0). apply Hr0.
    + clear -Hrest Hcs''. revert cs'' Hcs''.
      induction Hrest as [|c j l l' (Hr & _) _ IH]; intros cs Hcs.
      * by apply Forall2_nil_inv_l in Hcs as ->.
      * apply Forall2_cons_inv_l in Hcs as (j' & cs' & Hj' & Hcs' & ->). simpl.
        f_equal; [|by apply IH]. rewrite (job_ticked_stored _ _ Hj'). apply Hr.
  - rewrite Hdl'. simpl. constructor.
    + assert (resumedJob chunk0 j0) as (_ & ? & ? & ? & ?).
      { eapply job_ticked_resumed; [|done]. exact Hr0. }
      split_and!; try done.
      destruct Hj0 as [->|[_ [w ->]]]; simpl; [by left|by right].
    + clear -Hrest Hcs''. revert cs'' Hcs''.
      induction Hrest as [|c j l l' (Hr & Hs & _) _ IH]; intros cs Hcs.
      * apply Forall2_nil_inv_l in Hcs as ->. constructor.
      * apply Forall2_cons_inv_l in Hcs as (j' & cs' & Hj' & Hcs' & ->).
        constructor; [|by apply IH].
        assert (resumedJob c j') as (_ & ? & ? & ? & ?).
        { by eapply job_ticked_resumed. }
        split_and!; try done.
        destruct Hj' as [->|[_ [w ->]]]; simpl; [by left|by right].
  - by rewrite Hdl'.
  - by destruct Hj0 as [->|[_ [w ->]]].
  - intros j job Hpos Hjob. rewrite Hdl' in Hjob. simpl in Hjob.
    destruct j as [|j]; [lia|]. simpl in Hjob.
    destruct (Forall2_lookup_r _ _ _ _ _ Hcs'' Hjob) as (c0 & Hc0 & Hjt).
    destruct (Forall2_lookup_r _ _ _ _ _ Hrest Hc0) as (ck & _ & _ & _ & Herr).
    by destruct Hjt as [->|[_ [w ->]]].
  - intros r Hne. pose proof (ticked_downloads _ _ Ht r) as E'. unfold m2 in E'.
    simpl in E'. by rewrite lookup_insert_ne in E'.
Qed.
End ResumeFacts.

Definition ex_chunks : list IChunk.t :=
  [{| IChunk.url := FirstResolved; IChunk.received := 1000; IChunk.offset := 1000;
      IChunk.size := 4000 |};
   {| IChunk.url := FirstResolved; IChunk.received := 0; IChunk.offset := 5000;
      IChunk.size := 5000 |}].

(** A download with two chunks left is resumed on a new manager. *)
Lemma resume_result_witness :
  ∃ m' dl',
    resume (λ p, p) "a" "/dl/file.zip" [ex_url] 1000 (Some 10000) 0 (Some ex_chunks) None
      (newDownloadManager "/dl" 2 4) = Some (ResumePending 0, m')
    ∧ mQueue m' = [0%nat]
    ∧ downloads m' !! 0%nat = Some dl'
    ∧ map toStoredChunk (IRunningDownload.chunks dl') = ex_chunks.
Proof.
  assert (Hq : queue_ok (newDownloadManager "/dl" 2 4)).
  { intros r Hr. vm_compute in Hr. inversion Hr. }
  pose proof (resume_result (λ p, p) (newDownloadManager "/dl" 2 4) "a" "/dl/file.zip"
                [ex_url] 1000 (Some 10000) 0 (Some ex_chunks) None Hq) as H.
  simpl in H. destruct H as (m' & dl' & job0 & Hrun & _ & Hqueue & Hd & _ & _ & _ & _ & _
                             & Hstored & _).
  exists m', dl'. split_and!; [exact Hrun|exact Hqueue|exact Hd|exact Hstored].
Defined.

(** ** enqueue *)

Section EnqueueThenFacts.
Variable path_join : string → string → string.
Variable path_basename1 : string → string.

(** X9: the continuation of [enqueue] stores the download under a fresh
    reference at the end of the queue, with one chunk: the first 20 MiB,
    with the error and response callbacks, which the scheduler may start at
    once.  The progress callback is called first, with 0 bytes received, no
    total size and the checkpoint of that chunk.  The download has a final
    name only when a file name was given.  The other downloads are as
    before, up to the chunks that the scheduler starts. *)
Theorem enqueue_then_result m id urls fileName destPath nameTemplate redownload now
    fileNameFromURL filePath :
  queue_ok m →
  let d := fresh (dom (downloads m)) in
  ∃ m' dl' job tr,
    enqueue_then path_join path_basename1 id urls fileName destPath nameTemplate
      redownload now fileNameFromURL filePath m = Some (d, m')
    ∧ downloads m !! d = None
    ∧ mQueue m' = mQueue m ++ [d]
    ∧ downloads m' !! d = Some dl'
    ∧ IRunningDownload.chunks dl' = [job]
    ∧ job_ticked (initChunk fileNameFromURL) job
    ∧ IRunningDownload.id dl' = id ∧ IRunningDownload.tempName dl' = filePath
    ∧ IRunningDownload.origName dl' = nameTemplate
    ∧ IRunningDownload.size dl' = None ∧ IRunningDownload.received dl' = 0
    ∧ IRunningDownload.finalName dl'
      = match fileName with
        | Some _ => Some (path_join destPath (path_basename1 filePath))
        | None => None
        end
    ∧ trace m'
      = trace m
        ++ ProgressCB d 0 None
             (Some [{| IChunk.url := FirstResolved; IChunk.size := mMinChunkSize;
                       IChunk.offset := 0; IChunk.received := 0 |}])
             None (Some filePath) :: tr
    ∧ ∀ r, r ≠ d → option_Forall2 download_ticked (downloads m !! r) (downloads m' !! r).
Proof.
  intros Hq d. unfold enqueue_then.
  set (download := IRunningDownload.mk _ _ _ _ _ _ _ _ _ _ _ _ _ _ _).
  set (m2 := logged (ProgressCB d 0 None
                       (Some (map toStoredChunk (IRunningDownload.chunks download)))
                       None (Some filePath))
               (set_mQueue (mQueue m ++ [d])
                  (set_downloads (<[d := download]> (downloads m)) m))).
  assert (Hfresh : downloads m !! d = None).
  { apply not_elem_of_dom. apply is_fresh. }
  destruct (tickQueue_spec m2) as ([] & m' & Hrun & Ht).
  { eapply evolves_queue_ok; [apply evolves_logged|]. by apply queue_ok_insert. }
  pose proof (ticked_downloads _ _ Ht d) as E. unfold m2 in E. simpl in E.
  rewrite lookup_insert_eq in E. inversion E as [? dl' (ap & cs' & Hdl' & Hcs) Heq Hd' |].
  symmetry in Hd'. simpl in Hcs.
  apply Forall2_cons_inv_l in Hcs as (j0 & cs'' & Hj0 & Hcs'' & ->).
  apply Forall2_nil_inv_l in Hcs'' as ->.
  destruct (ticked_trace _ _ Ht) as [tr Htr].
  exists m', dl', j0, tr. split_and!; try (by rewrite Hdl').
  - unfold mbind at 1, M_bind at 1, get. rewrite !modify_bind, emit_bind. fold d m2.
    by rewrite (bind_run _ _ _ _ _ Hrun).
  - done.
  - by rewrite (ticked_queue _ _ Ht).
  - done.
  - done.
  - rewrite Htr. unfold m2. simpl. by rewrite <- app_assoc.
  - intros r Hne. pose proof (ticked_downloads _ _ Ht r) as E'. unfold m2 in E'.
    simpl in E'. by rewrite lookup_insert_ne in E'.
Qed.
End EnqueueThenFacts.

(** The download of the example is queued on a new manager. *)
Lemma enqueue_then_result_witness :
  ∃ m' dl' job,
    enqueue_then ex_join (λ p, p) "a" [ex_url] None "/dl" "file.zip" Ask 0 None
      "/dl/file.zip" (newDownloadManager "/dl" 2 4) = Some (0%nat, m')
    ∧ mQueue m' = [0%nat]
    ∧ downloads m' !! 0%nat = Some dl'
    ∧ IRunningDownload.chunks dl' = [job]
    ∧ job_ticked (initChunk None) job
    ∧ IRunningDownload.finalName dl' = None.
Proof.
  assert (Hq : queue_ok (newDownloadManager "/dl" 2 4)).
  { intros r Hr. vm_compute in Hr. inversion Hr. }
  destruct (enqueue_then_result ex_join (λ p, p) (newDownloadManager "/dl" 2 4) "a"
              [ex_url] None "/dl" "file.zip" Ask 0 None "/dl/file.zip" Hq)
    as (m' & dl' & job & tr & Hrun & _ & Hqueue & Hd & Hc & Hj & _ & _ & _ & _ & _ & Hf & _).
  exists m', dl', job. split_and!; [exact Hrun|exact Hqueue|exact Hd|exact Hc|exact Hj|exact Hf].
Defined.


(** ** The scheduler *)

(** The job [r] was in state init in [m] and runs under the worker id [id]
    in [m']. *)
Definition newId (m m' : DownloadManager) (r : JobRef) (id : nat) : Prop :=
  ∃ c, jobAt m r = Some c ∧ IDownloadJob.state c = Init
    ∧ jobAt m' r
      = Some (IDownloadJob.set_workerId (Some id) (IDownloadJob.set_state Running c)).

(** Between [m] and [m'] the scheduler has started jobs under the worker
    ids from [lo] up to [hi], one job for each id, and has left the other
    jobs alone. *)
Record started (lo hi : nat) (m m' : DownloadManager) : Prop := {
  started_ticked : ticked m m';
  started_jobs :
    ∀ r c, jobAt m r = Some c →
      jobAt m' r = Some c ∨ ∃ id, (lo ≤ id < hi)%nat ∧ newId m m' r id;
  started_inj : ∀ r1 r2 id, newId m m' r1 id → newId m m' r2 id → r1 = r2;
  started_surj : ∀ id, (lo ≤ id < hi)%nat → ∃ r, newId m m' r id;
}.

Lemma newId_fun m m' r id id' : newId m m' r id → newId m m' r id' → id = id'.
Proof.
  intros (c & Hc & _ & Hc') (c0 & Hc0 & _ & Hc0'). assert (c0 = c) as -> by congruence.
  rewrite Hc' in Hc0'. by injection Hc0'.
Qed.

Lemma newId_changed m m' r id c : newId m m' r id → jobAt m r = Some c → jobAt m' r ≠ Some c.
Proof.
  intros (c0 & Hc0 & Hi & Hc') Hc Heq. assert (c0 = c) as -> by congruence.
  rewrite Hc' in Heq. injection Heq as Heq. rewrite <- Heq in Hi. done.
Qed.

Lemma started_refl lo m : started lo lo m m.
Proof.
  split; [reflexivity|by left| |intros; lia].
  intros r1 r2 id H1. destruct H1 as (c & Hc & ? & ?). by destruct (newId_changed m m r1 id c); [exists c|..].
Qed.

Lemma ticked_jobAt_inv m m' r c' :
  ticked m m' → jobAt m' r = Some c' → ∃ c, jobAt m r = Some c.
Proof.
  intros H Hj. apply jobAt_inv in Hj as (dl' & Hd' & Hc').
  pose proof (ticked_downloads _ _ H r.1) as E. rewrite Hd' in E.
  inversion E as [dl ? (ap & cs' & -> & Hcs) Hd|]; subst. simpl in Hc'.
  destruct (Forall2_lookup_r _ _ _ _ _ Hcs Hc') as (c & Hc & _).
  exists c. unfold jobAt. by rewrite <- Hd.
Qed.

(** How a job that was started between [m] and [m2] was started when the
    scheduler went through [m1]. *)
Lemma newId_split lo mid hi m m1 m2 r id :
  started lo mid m m1 → started mid hi m1 m2 →
  newId m m2 r id ↔
    (newId m m1 r id ∧ jobAt m2 r = jobAt m1 r)
    ∨ (jobAt m1 r = jobAt m r ∧ newId m1 m2 r id).
Proof.
  intros H1 H2. split.
  - intros (c & Hc & Hi & Hc2).
    destruct (started_jobs _ _ _ _ H1 r c Hc) as [Hc1|(id1 & _ & Hn1)].
    + right. split; [congruence|]. exists c. done.
    + left. pose proof Hn1 as (c0 & Hc0 & _ & Hc1). assert (c0 = c) as -> by congruence.
      destruct (started_jobs _ _ _ _ H2 r _ Hc1) as [Hu|(id2 & _ & c1 & Hc1' & Hi1 & _)].
      * rewrite Hu in Hc2. injection Hc2 as ->. split; [done|congruence].
      * rewrite Hc1 in Hc1'. injection Hc1' as <-. done.
  - intros [[(c & Hc & Hi & Hc1) Heq]|[Heq (c & Hc & Hi & Hc2)]].
    + exists c. split_and!; [done|done|congruence].
    + exists c. split_and!; [congruence|done|done].
Qed.

Lemma newId_range lo hi m m' r id :
  started lo hi m m' → newId m m' r id → (lo ≤ id < hi)%nat.
Proof.
  intros H Hn. pose proof Hn as (c & Hc & _).
  destruct (started_jobs _ _ _ _ H r c Hc) as [Hu|(id' & Hr & Hn')].
  - by destruct (newId_changed _ _ _ _ _ Hn Hc).
  - by rewrite (newId_fun _ _ _ _ _ Hn Hn').
Qed.

Lemma started_trans lo mid hi m m1 m2 :
  (lo ≤ mid ≤ hi)%nat → started lo mid m m1 → started mid hi m1 m2 → started lo hi m m2.
Proof.
  intros Hle H1 H2. split.
  - etrans; [apply H1|apply H2].
  - intros r c Hc. destruct (started_jobs _ _ _ _ H1 r c Hc) as [Hc1|(id1 & Hr1 & Hn1)].
    + destruct (started_jobs _ _ _ _ H2 r c Hc1) as [Hc2|(id2 & Hr2 & Hn2)]; [by left|].
      right. exists id2. split; [lia|]. apply (newId_split lo mid hi m m1 m2); [done..|].
      right. split; [congruence|done].
    + right. exists id1. split; [lia|]. apply (newId_split lo mid hi m m1 m2); [done..|].
      left. split; [done|]. pose proof Hn1 as (c0 & Hc0 & _ & Hc1).
      destruct (started_jobs _ _ _ _ H2 r _ Hc1) as [Hu|(id2 & _ & Hn2)]; [congruence|].
      destruct Hn2 as (c1 & Hc1' & Hi1 & _). rewrite Hc1 in Hc1'. by injection Hc1' as <-.
  - intros r1 r2 id Ha Hb.
    apply (newId_split lo mid hi m m1 m2) in Ha; [|done..].
    apply (newId_split lo mid hi m m1 m2) in Hb; [|done..].
    destruct Ha as [[Ha _]|[_ Ha]], Hb as [[Hb _]|[_ Hb]].
    + by eapply (started_inj _ _ _ _ H1).
    + pose proof (newId_range _ _ _ _ _ _ H1 Ha). pose proof (newId_range _ _ _ _ _ _ H2 Hb).
      lia.
    + pose proof (newId_range _ _ _ _ _ _ H2 Ha). pose proof (newId_range _ _ _ _ _ _ H1 Hb).
      lia.
    + by eapply (started_inj _ _ _ _ H2).
  - intros id Hid. destruct (decide (id < mid)%nat) as [Hlt|Hge].
    + destruct (started_surj _ _ _ _ H1 id) as [r Hn]; [lia|]. exists r.
      apply (newId_split lo mid hi m m1 m2); [done..|]. left. split; [done|].
      pose proof Hn as (c0 & Hc0 & _ & Hc1).
      destruct (started_jobs _ _ _ _ H2 r _ Hc1) as [Hu|(id2 & _ & Hn2)]; [congruence|].
      destruct Hn2 as (c1 & Hc1' & Hi1 & _). rewrite Hc1 in Hc1'. by injection Hc1' as <-.
    + destruct (started_surj _ _ _ _ H2 id) as [r Hn]; [lia|]. exists r.
      apply (newId_split lo mid hi m m1 m2); [done..|]. right. split; [|done].
      pose proof Hn as (c1 & Hc1 & Hi1 & _).
      destruct (ticked_jobAt_inv _ _ _ _ (started_ticked _ _ _ _ H1) Hc1) as [c Hc].
      destruct (started_jobs _ _ _ _ H1 r c Hc) as [Hu|(id1 & _ & c0 & Hc0 & _ & Hc1')];
        [congruence|].
      rewrite Hc1 in Hc1'. injection Hc1' as ->. done.
Qed.

Lemma startJob_keeps m d j dl :
  downloads m !! d = Some dl →
  wp (startJob d j) (λ _ m', (∀ r, jobAt m' r = jobAt m r) ∧ mNextId m' = mNextId m) m.
Proof.
  intros Hd. unfold startJob. wp_step. eapply wp_getDownload; [done|].
  destruct (IRunningDownload.assemblerProm dl); wp_steps; [done|].
  split; [|done]. intros r. rewrite jobAt_logged. by rewrite jobAt_withDownload.
Qed.

Lemma startWorker_started m d dl :
  downloads m !! d = Some dl → (0 < unstarted dl)%nat →
  wp (startWorker d) (λ _ m',
      started (mNextId m) (S (mNextId m)) m m'
      ∧ mNextId m' = S (mNextId m)
      ∧ ∃ dl', downloads m' !! d = Some dl' ∧ S (unstarted dl') = unstarted dl) m.
Proof.
  intros Hd Hpos.
  assert (wp (startWorker d) (λ _ m',
      mNextId m' = S (mNextId m)
      ∧ ∃ j c, IRunningDownload.chunks dl !! j = Some c ∧ IDownloadJob.state c = Init
          ∧ ∀ r, jobAt m' r
                 = if decide ((d, j) = r)
                   then Some (IDownloadJob.set_workerId (Some (mNextId m))
                                (IDownloadJob.set_state Running c))
                   else jobAt m r) m) as Hjobs.
  { unfold startWorker.
    destruct (list_find_filter_pos _ _ Hpos) as [[j c] Hf].
    pose proof Hf as Hf'. apply list_find_Some in Hf' as (Hj & Hc & _).
    wp_steps. eapply wp_getDownload; [done|]. rewrite Hf. wp_steps.
    rewrite withJob_withJob. set (m1 := withJob _ _ _).
    eapply wp_mono.
    { eapply startJob_keeps with (dl := IRunningDownload.set_chunks _ dl).
      unfold m1, withJob, withDownload. simpl. by rewrite lookup_alter_eq, Hd. }
    cbv beta. intros _ m' [Hsame Hnext]. split; [by rewrite Hnext|].
    exists j, c. split_and!; [done|done|]. intros r. rewrite Hsame. unfold m1.
    destruct (decide ((d, j) = r)) as [<-|Hne];
      [rewrite jobAt_withJob_eq|by rewrite jobAt_withJob_ne by done].
    rewrite jobAt_logged.
    change (jobAt (set_mNextId (S (mNextId m)) m) (d, j)) with (jobAt m (d, j)).
    by erewrite jobAt_Some by done. }
  eapply wp_mono; [apply wp_and; [by apply startWorker_spec|exact Hjobs]|].
  cbv beta. intros _ m' [[Ht Hun] [Hnext (j & c & Hc & Hi & Hj)]].
  split_and!; [|done|done].
  assert (Hnew : newId m m' (d, j) (mNextId m)).
  { exists c. split_and!; [by eapply jobAt_Some|done|]. rewrite Hj. by rewrite decide_True. }
  assert (Honly : ∀ r id, newId m m' r id → r = (d, j)).
  { intros r id Hn. destruct (decide ((d, j) = r)) as [<-|Hne]; [done|].
    destruct Hn as (c0 & Hc0 & Hi0 & Hc0'). rewrite Hj, decide_False in Hc0' by done.
    rewrite Hc0 in Hc0'. apply (f_equal (fmap IDownloadJob.state)) in Hc0'.
    simpl in Hc0'. congruence. }
  split.
  - done.
  - intros r c0 Hc0. rewrite Hj. case_decide as Hr; [|by left]. subst r.
    right. exists (mNextId m). split; [lia|done].
  - intros r1 r2 id H1 H2. by rewrite (Honly _ _ H1), (Honly _ _ H2).
  - intros id Hid. assert (id = mNextId m) as -> by lia. eauto.
Qed.

Lemma tickQueue_download_started n : ∀ m d dl freeSpots,
  downloads m !! d = Some dl → (n ≤ unstarted dl)%nat →
  wp (tickQueue_download d n freeSpots) (λ freeSpots' m',
      ∃ k : nat,
        started (mNextId m) (mNextId m + k) m m'
        ∧ mNextId m' = (mNextId m + k)%nat
        ∧ freeSpots' = freeSpots - Z.of_nat k
        ∧ (k ≤ n)%nat
        ∧ (k = 0%nat ∨ 0 ≤ freeSpots')
        ∧ (0 < freeSpots' → k = n)
        ∧ ∃ dl', downloads m' !! d = Some dl'
            ∧ (unstarted dl' + k)%nat = unstarted dl) m.
Proof.
  induction n as [|n IH]; intros m d dl freeSpots Hd Hn; simpl.
  - wp_step. exists 0%nat. rewrite Nat.add_0_r.
    split_and!; [apply started_refl|done|lia|lia|by left|lia|exists dl; split; [done|lia]].
  - case_decide as Hfree.
    2:{ wp_step. exists 0%nat. rewrite Nat.add_0_r.
        split_and!;
          [apply started_refl|done|lia|lia|by left|lia|exists dl; split; [done|lia]]. }
    wp_step. eapply wp_mono; [apply startWorker_started; [done|lia]|]. cbv beta.
    intros _ m1 (Hs1 & Hn1 & dl1 & Hd1 & Hu1).
    eapply wp_mono; [eapply IH; [done|lia]|]. cbv beta.
    intros f' m2 (k & Hs2 & Hn2 & Hf' & Hk & Hz & Hp & dl2 & Hd2 & Hu2).
    exists (S k). rewrite Hn1 in *. split_and!.
    + eapply started_trans; [|exact Hs1|]; [lia|].
      by replace (mNextId m + S k)%nat with (S (mNextId m) + k)%nat by lia.
    + lia.
    + lia.
    + lia.
    + right. lia.
    + intros Hpos. specialize (Hp Hpos). lia.
    + exists dl2. split; [done|lia].
Qed.

Lemma unstarted_ticked dl dl' : download_ticked dl dl' → (unstarted dl' ≤ unstarted dl)%nat.
Proof.
  intros (ap & cs' & -> & Hcs). unfold unstarted. simpl.
  induction Hcs as [|c c' l l' Hc _ IH]; [done|].
  destruct (decide (IDownloadJob.state c' = Init)) as [Hi|Hi].
  - rewrite filter_cons_True by done.
    assert (IDownloadJob.state c = Init) by (by destruct Hc as [->|[? _]]).
    rewrite (filter_cons_True _ c) by done. simpl. lia.
  - rewrite filter_cons_False by done.
    destruct (decide (IDownloadJob.state c = Init)).
    + rewrite (filter_cons_True _ c) by done. simpl. lia.
    + by rewrite (filter_cons_False _ c) by done.
Qed.

Lemma tickQueue_loop_started queue : ∀ m freeSpots,
  (∀ r, r ∈ queue → is_Some (downloads m !! r)) →
  wp (tickQueue_loop queue freeSpots) (λ _ m',
      ∃ k : nat,
        started (mNextId m) (mNextId m + k) m m'
        ∧ mNextId m' = (mNextId m + k)%nat
        ∧ (k = 0%nat ∨ Z.of_nat k ≤ freeSpots)
        ∧ (Z.of_nat k < freeSpots →
           ∀ d dl', d ∈ queue → downloads m' !! d = Some dl' → unstarted dl' = 0%nat)) m.
Proof.
  induction queue as [|d queue IH]; intros m freeSpots Hq; simpl.
  - wp_step. exists 0%nat. rewrite Nat.add_0_r.
    split_and!; [apply started_refl|done|by left|]. intros _ d dl' Hd. inversion Hd.
  - case_decide as Hfree.
    2:{ wp_step. exists 0%nat. rewrite Nat.add_0_r.
        split_and!; [apply started_refl|done|by left|]. lia. }
    wp_step. destruct (Hq d) as [dl Hd]; [by left|].
    eapply wp_getDownload; [done|]. wp_step.
    eapply wp_mono; [by eapply tickQueue_download_started|]. cbv beta.
    intros f' m1 (k1 & Hs1 & Hn1 & Hf' & Hk1 & Hz1 & Hp1 & dl1 & Hd1 & Hu1).
    eapply wp_mono; [apply IH|].
    { intros r Hr. destruct (Hq r) as [dlr Hdr]; [by right|].
      pose proof (ticked_downloads _ _ (started_ticked _ _ _ _ Hs1) r) as E.
      rewrite Hdr in E. inversion E; eauto. }
    cbv beta. intros _ m2 (k2 & Hs2 & Hn2 & Hz2 & Hp2).
    exists (k1 + k2)%nat. rewrite Hn1 in *. split_and!.
    + eapply started_trans; [|exact Hs1|]; [lia|].
      by replace (mNextId m + (k1 + k2))%nat with (mNextId m + k1 + k2)%nat by lia.
    + lia.
    + destruct Hz2 as [->|Hz2]; [|right; lia].
      destruct Hz1 as [->|Hz1]; [by left|right; lia].
    + intros Hlt d0 dl0 Hd0 Hdl0. apply elem_of_cons in Hd0 as [->|Hd0].
      * assert (k1 = unstarted dl) as -> by (apply Hp1; lia).
        pose proof (ticked_downloads _ _ (started_ticked _ _ _ _ Hs2) d) as E.
        rewrite Hd1, Hdl0 in E. inversion E as [? ? Ht |]; subst.
        apply unstarted_ticked in Ht. lia.
      * eapply Hp2; [lia|done|done].
Qed.

Lemma unstarted_0 dl :
  unstarted dl = 0%nat →
  Forall (λ c, IDownloadJob.state c ≠ Init) (IRunningDownload.chunks dl).
Proof.
  unfold unstarted. intros H. apply length_zero_iff_nil in H.
  apply Forall_forall. intros c Hc Hi.
  assert (c ∈ filter (λ value, IDownloadJob.state value = Init) (IRunningDownload.chunks dl))
    as Hin by (by apply list_elem_of_filter).
  rewrite H in Hin. inversion Hin.
Qed.

(** X10: the scheduler.  On a store whose queue names downloads, [tickQueue]
    returns; it changes neither the queue nor the workers nor the table of
    busy workers.  It starts [k] jobs, where [k] is at most the number of
    free slots ([mMaxWorkers] less the size of the table), and when slots
    are left no chunk of a queued download is in state init.  The jobs it
    starts were in state init and run under the next [k] worker ids, one
    job for each id; every other job is as before. *)
Theorem tickQueue_starts m :
  queue_ok m →
  let freeSpots := mMaxWorkers m - Z.of_nat (size (mBusyWorkers m)) in
  ∃ m' (k : nat),
    tickQueue m = Some (tt, m')
    ∧ mNextId m' = (mNextId m + k)%nat
    ∧ (k = 0%nat ∨ Z.of_nat k ≤ freeSpots)
    ∧ (Z.of_nat k < freeSpots →
       ∀ d dl', d ∈ mQueue m → downloads m' !! d = Some dl' →
         Forall (λ c, IDownloadJob.state c ≠ Init) (IRunningDownload.chunks dl'))
    ∧ mQueue m' = mQueue m ∧ workers m' = workers m
    ∧ mBusyWorkers m' = mBusyWorkers m
    ∧ (∀ r c, jobAt m r = Some c →
         jobAt m' r = Some c
         ∨ ∃ id, (mNextId m ≤ id < mNextId m + k)%nat ∧ IDownloadJob.state c = Init
             ∧ jobAt m' r = Some (IDownloadJob.set_workerId (Some id)
                                    (IDownloadJob.set_state Running c)))
    ∧ (∀ id, (mNextId m ≤ id < mNextId m + k)%nat → ∃ r, newId m m' r id)
    ∧ (∀ r1 r2 id, newId m m' r1 id → newId m m' r2 id → r1 = r2).
Proof.
  intros Hq freeSpots.
  destruct (tickQueue_loop_started (mQueue m) m freeSpots Hq)
    as ([] & m' & Hrun & k & Hs & Hn & Hz & Hp).
  exists m', k. split_and!; try done.
  - intros Hlt d dl' Hd Hdl'. apply unstarted_0. by eapply Hp.
  - apply (ticked_queue _ _ (started_ticked _ _ _ _ Hs)).
  - apply (ticked_workers _ _ (started_ticked _ _ _ _ Hs)).
  - apply (ticked_busy _ _ (started_ticked _ _ _ _ Hs)).
  - intros r c Hc. destruct (started_jobs _ _ _ _ Hs r c Hc) as [Hu|(id & Hr & Hnew)];
      [by left|right].
    exists id. split; [done|]. destruct Hnew as (c0 & Hc0 & Hi & Hc'). 
    assert (c0 = c) as -> by congruence. done.
  - apply (started_surj _ _ _ _ Hs).
  - apply (started_inj _ _ _ _ Hs).
Qed.

(** The second worker of the example has stopped with bytes left: the
    state in which [finishChunk] calls the scheduler, with one slot free
    and the third chunk waiting. *)
Definition ex_freed : DownloadManager :=
  after (stopWorker (Some 1%nat);; updJob (0%nat, 1%nat) (IDownloadJob.set_state Paused))
    ex_chunked.

(** The scheduler starts the third chunk under the next worker id. *)
Lemma tickQueue_starts_witness :
  ∃ m' r c,
    tickQueue ex_freed = Some (tt, m')
    ∧ mNextId ex_freed = 2%nat ∧ mNextId m' = 3%nat
    ∧ jobAt ex_freed r = Some c ∧ IDownloadJob.state c = Init
    ∧ jobAt m' r
      = Some (IDownloadJob.set_workerId (Some 2%nat) (IDownloadJob.set_state Running c))
    ∧ workers m' = workers ex_freed
    ∧ mBusyWorkers m' = mBusyWorkers ex_freed.
Proof.
  assert (Hq : queue_ok ex_freed).
  { apply wf_queue, wfb_wf. vm_compute. reflexivity. }
  destruct (tickQueue_starts ex_freed Hq)
    as (m' & k & Hrun & Hn & _ & _ & _ & Hw & Hb & _ & Hsurj & _).
  assert (Hn0 : mNextId ex_freed = 2%nat) by (vm_compute; reflexivity).
  assert (Hn' : mNextId m' = 3%nat).
  { assert (Hc : (λ p, mNextId p.2) <$> tickQueue ex_freed = Some 3%nat)
      by (vm_compute; reflexivity).
    rewrite Hrun in Hc. simpl in Hc. by injection Hc. }
  destruct (Hsurj 2%nat) as (r & c & Hc & Hi & Hc'); [lia|].
  exists m', r, c.
  split_and!; [exact Hrun|exact Hn0|exact Hn'|exact Hc|exact Hi|exact Hc'|exact Hw|exact Hb].
Defined.


(** ** Reserved names *)

Section ReserveFacts.
Variable sanitizeFilename : string → string.
Variable path_extname : string → string.
Variable path_basename : string → string → string.
Variable path_join : string → string → string.
Variable openFault : string → option Err.
Variable closeFault : string → option Err.

Lemma reserve_grows files p err files' :
  reserve openFault closeFault files p = (err, files') →
  files ⊆ files' ∧ (err = None → (p ∉ files) ∧ p ∈ files').
Proof.
  unfold reserve. destruct (openFault p); [by intros [= <- <-]|].
  case_decide as Hin; [by intros [= <- <-]|].
  assert (files ⊆ {[p]} ∪ files) by apply union_subseteq_r.
  assert (p ∈ {[p]} ∪ files) by (apply elem_of_union_l; by apply elem_of_singleton).
  destruct (closeFault p); [case_bool_decide|]; intros [= <- <-]; done.
Qed.

Lemma unusedName_loop_fresh cb destination fileName base ext redownload fuel :
  ∀ files counter first fullPath res files',
    unusedName_loop path_join openFault closeFault fuel cb destination fileName base ext
      redownload files counter first fullPath = Some (res, files') →
    files ⊆ files'
    ∧ ∀ p, res = Resolved p → redownload ≠ Replace ∨ cb = None ∨ first = false →
        (p ∉ files) ∧ p ∈ files'.
Proof.
  induction fuel as [|fuel IH]; intros files counter first fullPath res files' Hrun;
    [done|]. simpl in Hrun.
  destruct (reserve openFault closeFault files fullPath) as [err files1] eqn:Hres.
  destruct (reserve_grows _ _ _ _ Hres) as [Hsub Hnew].
  destruct err as [err|].
  2:{ injection Hrun as <- <-. split; [done|]. intros p [= <-] _. by apply Hnew. }
  assert (Hloop : ∀ first',
    unusedName_loop path_join openFault closeFault fuel cb destination fileName base ext
      redownload files1 (S counter) first'
      (path_join destination (tryName base ext (S counter))) = Some (res, files') →
    files ⊆ files'
    ∧ ∀ p, res = Resolved p → redownload ≠ Replace ∨ cb = None ∨ first' = false →
        (p ∉ files) ∧ p ∈ files').
  { intros first' Hrun'. destruct (IH _ _ _ _ _ _ Hrun') as [Hsub' Hfresh'].
    split; [by etrans|]. intros p Hp Hpol. destruct (Hfresh' p Hp Hpol) as [Hn Hi].
    split; [|done]. intros Hin. apply Hn. by apply Hsub. }
  case_bool_decide as Hcode.
  2:{ injection Hrun as <- <-. split; [done|]. by intros p [=]. }
  destruct first, cb as [fileExistsCB|].
  - destruct redownload.
    + destruct (Hloop false Hrun) as [Hs Hf]. split; [done|]. intros p Hp _.
      apply (Hf p Hp). by right; right.
    + injection Hrun as <- <-. split; [done|]. by intros p [=].
    + destruct (fileExistsCB fileName) as [[]|].
      * destruct (Hloop false Hrun) as [Hs Hf]. split; [done|]. intros p Hp _.
        apply (Hf p Hp). by right; right.
      * injection Hrun as <- <-. split; [done|]. by intros p [=].
      * injection Hrun as <- <-. split; [done|]. by intros p [=].
    + injection Hrun as <- <-. split; [done|]. intros p _ [Hne|[Hcb|Hf]]; done.
  - destruct (Hloop true Hrun) as [Hs Hf]. split; [done|]. intros p Hp _.
    apply (Hf p Hp). by right; left.
  - destruct (Hloop false Hrun) as [Hs Hf]. split; [done|]. intros p Hp _.
    apply (Hf p Hp). by right; right.
  - destruct (Hloop false Hrun) as [Hs Hf]. split; [done|]. intros p Hp _.
    apply (Hf p Hp). by right; right.
Qed.

(** X11: the name that [unusedName] resolves to is reserved.  Whatever the
    outcome, no path that existed is removed.  Unless the policy is replace
    with a registered callback, a path that is resolved did not exist
    before and exists afterwards; so a later call, under whatever name and
    policy other than that, does not resolve to the same path. *)
Theorem unusedName_reserves fuel cb destination fileName redownload files res files' :
  unusedName sanitizeFilename path_extname path_basename path_join openFault closeFault
    fuel cb destination fileName redownload files = Some (res, files') →
  files ⊆ files'
  ∧ ∀ p, res = Resolved p → redownload ≠ Replace ∨ cb = None →
      (p ∉ files) ∧ p ∈ files'
      ∧ ∀ fuel2 cb2 destination2 fileName2 redownload2 p2 files2,
          unusedName sanitizeFilename path_extname path_basename path_join openFault
            closeFault fuel2 cb2 destination2 fileName2 redownload2 files'
          = Some (Resolved p2, files2) →
          redownload2 ≠ Replace ∨ cb2 = None → p2 ≠ p.
Proof.
  unfold unusedName. intros Hrun.
  destruct (unusedName_loop_fresh _ _ _ _ _ _ _ _ _ _ _ _ _ Hrun) as [Hsub Hfresh].
  split; [done|]. intros p Hp Hpol.
  destruct (Hfresh p Hp) as [Hn Hi]; [destruct Hpol; auto|]. split_and!; [done|done|].
  intros fuel2 cb2 destination2 fileName2 redownload2 p2 files2 Hrun2 Hpol2 ->.
  destruct (unusedName_loop_fresh _ _ _ _ _ _ _ _ _ _ _ _ _ Hrun2) as [_ Hfresh2].
  destruct (Hfresh2 p eq_refl) as [Hn2 _]; [destruct Hpol2; auto|]. done.
Qed.
End ReserveFacts.

Lemma unusedName_reserves_witness :
  ∃ files',
    unusedName (λ s, s) ex_extname ex_basename ex_join ex_noFault ex_noFault 5 None
      "/dl" "file.zip" Always ex_files = Some (Resolved "/dl/file.2.zip"%string, files')
    ∧ ex_files ⊆ files' ∧ "/dl/file.2.zip"%string ∉ ex_files.
Proof.
  assert (∃ files',
    unusedName (λ s, s) ex_extname ex_basename ex_join ex_noFault ex_noFault 5 None
      "/dl" "file.zip" Always ex_files = Some (Resolved "/dl/file.2.zip"%string, files'))
    as [files' Hrun] by (vm_compute; eauto).
  exists files'. split; [exact Hrun|].
  destruct (unusedName_reserves (λ s, s) ex_extname ex_basename ex_join ex_noFault ex_noFault
              5 None "/dl" "file.zip" Always ex_files _ files' Hrun) as [Hsub Hfresh].
  split; [exact Hsub|]. destruct (Hfresh _ eq_refl) as [Hn _]; [by left|exact Hn].
Defined.


(** ** A download that is not queued *)

Lemma wf_set_mQueue m queue : wf m → queue ⊆ mQueue m → wf (set_mQueue queue m).
Proof.
  intros [Hq Hb Hi] Hsub. split; [|exact Hb|exact Hi].
  intros r Hr. apply Hq. by apply Hsub.
Qed.

Lemma list_find_filtered m m' id :
  (∀ r, downloadId m' r = downloadId m r) →
  list_find (λ value, downloadId m' value = Some id)
    (filter (λ value, downloadId m value ≠ Some id) (mQueue m)) = None.
Proof.
  intros Hid. apply list_find_None, Forall_forall. intros r Hr.
  apply list_elem_of_filter in Hr as [Hne _]. by rewrite Hid.
Qed.

(** X12: [pause(id)] for an id that is not queued returns [undefined] and
    does nothing.  After [pause(id)] of a queued download, on a well-formed
    store where finished chunks have no bytes left, the store is well
    formed and the id is not queued: another [pause(id)] returns
    [undefined] and a [stop(id)] returns, both without any effect. *)
Theorem pause_again m id :
  wf m →
  (∀ r dl, r ∈ mQueue m → downloads m !! r = Some dl →
     Forall (λ c, IDownloadJob.state c = Finished → IDownloadJob.size c ≤ 0)
            (IRunningDownload.chunks dl)) →
  match list_find (λ value, downloadId m value = Some id) (mQueue m) with
  | None => pause id m = Some (None, m)
  | Some _ =>
      ∃ unfinishedChunks m',
        pause id m = Some (Some unfinishedChunks, m')
        ∧ wf m'
        ∧ pause id m' = Some (None, m')
        ∧ stop id m' = Some (tt, m')
  end.
Proof.
  intros Hwf Hfinished.
  destruct (list_find _ (mQueue m)) as [[i d]|] eqn:Hfind.
  2:{ unfold pause. unfold mbind, M_bind, get. by rewrite Hfind. }
  pose proof Hfind as Hin. apply list_find_Some in Hin as (Hi & _ & _).
  apply list_elem_of_lookup_2 in Hi.
  destruct (wf_queue _ Hwf d Hi) as [dl Hd]. specialize (Hfinished d dl Hi Hd).
  set (cs1 := map pauseInit (IRunningDownload.chunks dl)).
  set (m1 := withDownload d (λ download,
        IRunningDownload.set_chunks
          (map (λ chunk, if decide (IDownloadJob.state chunk = Init)
                         then IDownloadJob.set_state Paused chunk else chunk)
               (IRunningDownload.chunks download)) download) m).
  assert (Hev1 : evolves m m1).
  { apply evolves_chunks_map. intros c. apply job_evolves_pauseInit. }
  assert (Hd1 : downloads m1 !! d = Some (IRunningDownload.set_chunks cs1 dl)).
  { unfold m1, withDownload. simpl. by rewrite lookup_alter_eq, Hd. }
  assert (Hstarted : Forall (λ c, IDownloadJob.state c ≠ Init) cs1).
  { apply Forall_fmap, Forall_forall. intros c _. simpl. unfold pauseInit.
    by case_decide. }
  assert (Hfin1 : Forall (λ c, IDownloadJob.state c = Finished → IDownloadJob.size c ≤ 0) cs1).
  { apply Forall_fmap. eapply Forall_impl; [done|]. intros c Hc. simpl. unfold pauseInit.
    case_decide; [done|auto]. }
  assert (Hinv : pausing_inv d cs1 m1 m1).
  { split_and!.
    - by eapply evolves_wf.
    - reflexivity.
    - intros j c Hc. exists c. split; [|reflexivity]. eapply jobAt_Some; eauto.
    - done. }
  destruct (pause_chunks_spec d cs1 m1 Hstarted Hfin1 cs1 [] [] m1 eq_refl Hinv)
    as (res & m2 & Hrun & _ & (Hwf2 & Hev2 & _) & _).
  assert (Hev : evolves m m2) by (by etrans).
  set (m' := set_mQueue (filter (λ value, downloadId m2 value ≠ Some id) (mQueue m2)) m2).
  assert (Hnone : list_find (λ value, downloadId m' value = Some id) (mQueue m') = None).
  { apply (list_find_filtered m2 m' id). done. }
  exists res, m'. split_and!.
  - unfold pause. unfold mbind at 1, M_bind at 1, get. rewrite Hfind.
    unfold updDownload. rewrite modify_bind. fold m1.
    rewrite (bind_run _ _ _ _ _ (getDownload_run _ _ _ Hd1)).
    simpl in Hrun. simpl. by rewrite (bind_run _ _ _ _ _ Hrun).
  - apply wf_set_mQueue; [done|]. intros r Hr. by apply list_elem_of_filter in Hr as [_ ?].
  - unfold pause. unfold mbind, M_bind, get. by rewrite Hnone.
  - unfold stop. unfold mbind, M_bind, get. by rewrite Hnone.
Qed.

Lemma pause_again_witness :
  ∃ unfinishedChunks m',
    pause "a" ex_chunked = Some (Some unfinishedChunks, m')
    ∧ pause "a" m' = Some (None, m') ∧ stop "a" m' = Some (tt, m').
Proof.
  assert (Hwf : wf ex_chunked) by (apply wfb_wf; vm_compute; reflexivity).
  assert (Hfin : ∀ r dl, r ∈ mQueue ex_chunked → downloads ex_chunked !! r = Some dl →
     Forall (λ c, IDownloadJob.state c = Finished → IDownloadJob.size c ≤ 0)
            (IRunningDownload.chunks dl)).
  { intros r dl Hr Hdl. apply list_elem_of_In in Hr. vm_compute in Hr.
    destruct Hr as [<-|[]]. vm_compute in Hdl. injection Hdl as <-.
    repeat constructor; simpl; discriminate. }
  pose proof (pause_again ex_chunked "a" Hwf Hfin) as H.
  assert (is_Some (list_find (λ value, downloadId ex_chunked value = Some "a"%string)
                     (mQueue ex_chunked))) as [x Hx] by (vm_compute; eauto).
  rewrite Hx in H. destruct H as (res & m' & Hrun & _ & Hp & Hs).
  exists res, m'. split_and!; [exact Hrun|exact Hp|exact Hs].
Defined.


(** ** Writes and their acknowledgement *)


(** X13: a write and its acknowledgement.  [doWriteBuffer] hands the buffer
    to the data callback at the offset of the job and advances the counters
    of the job at once: the end of the range, [offset + size], and its
    start, [offset - received], stay where they are.  The checkpoint of the
    job does not move before the write is acknowledged; then it has
    advanced by the same length. *)
Theorem doWriteBuffer_acknowledged m w wk job len :
  workers m !! w = Some wk → jobAt m (mJob wk) = Some job →
  ∃ m1 m2,
    doWriteBuffer w len m = Some (tt, m1)
    ∧ doWriteBuffer_then w len m1 = Some (tt, m2)
    ∧ trace m1 = trace m ++ [DataCB (mJob wk).1 (IDownloadJob.offset job) len; DeferAck w len]
    ∧ trace m2 = trace m1
    ∧ jobAt m1 (mJob wk) = Some (written len job)
    ∧ jobAt m2 (mJob wk) = Some (acknowledged len (written len job))
    ∧ IDownloadJob.offset (written len job) + IDownloadJob.size (written len job)
      = IDownloadJob.offset job + IDownloadJob.size job
    ∧ IDownloadJob.offset (written len job) - IDownloadJob.received (written len job)
      = IDownloadJob.offset job - IDownloadJob.received job
    ∧ toStoredChunk (written len job) = toStoredChunk job
    ∧ toStoredChunk (acknowledged len (written len job))
      = {| IChunk.url := IDownloadJob.url job;
           IChunk.size := IDownloadJob.confirmedSize job - len;
           IChunk.offset := IDownloadJob.confirmedOffset job + len;
           IChunk.received := IDownloadJob.confirmedReceived job + len |}
    ∧ ∀ r, r ≠ mJob wk → jobAt m2 r = jobAt m r.
Proof.
  intros Hw Hjob.
  set (m1 := withJob (mJob wk) (written len)
               (logged (DeferAck w len)
                  (logged (DataCB (mJob wk).1 (IDownloadJob.offset job) len) m))).
  set (m2 := withJob (mJob wk) (acknowledged len) m1).
  assert (Hj1 : jobAt m1 (mJob wk) = Some (written len job)).
  { unfold m1. rewrite jobAt_withJob_eq. by rewrite !jobAt_logged, Hjob. }
  exists m1, m2. split_and!.
  - unfold doWriteBuffer. rewrite (bind_run _ _ _ _ _ (getWorker_run _ _ _ Hw)).
    rewrite (bind_run _ _ _ _ _ (getJob_run _ _ _ Hjob)). by rewrite !emit_bind.
  - unfold doWriteBuffer_then.
    assert (Hw1 : workers m1 !! w = Some wk) by done.
    by rewrite (bind_run _ _ _ _ _ (getWorker_run _ _ _ Hw1)).
  - unfold m1. simpl. by rewrite <- app_assoc.
  - done.
  - done.
  - unfold m2. by rewrite jobAt_withJob_eq, Hj1.
  - simpl. lia.
  - simpl. lia.
  - done.
  - done.
  - intros r Hne. unfold m2, m1. rewrite !jobAt_withJob_ne by done. done.
Qed.

Lemma doWriteBuffer_acknowledged_witness :
  ∃ m1 m2 job2,
    doWriteBuffer 0 1000 ex_chunked = Some (tt, m1)
    ∧ doWriteBuffer_then 0 1000 m1 = Some (tt, m2)
    ∧ jobAt m2 (0%nat, 0%nat) = Some job2
    ∧ IDownloadJob.confirmedReceived job2 = 1000.
Proof.
  assert (∃ wk job, workers ex_chunked !! 0%nat = Some wk
            ∧ mJob wk = (0%nat, 0%nat)
            ∧ jobAt ex_chunked (mJob wk) = Some job
            ∧ IDownloadJob.confirmedReceived job = 0)
    as (wk & job & Hw & Hr & Hjob & Hc) by (vm_compute; eauto 10).
  destruct (doWriteBuffer_acknowledged ex_chunked 0 wk job 1000 Hw Hjob)
    as (m1 & m2 & Hrun1 & Hrun2 & _ & _ & _ & Hj2 & _).
  exists m1, m2, (acknowledged 1000 (written 1000 job)). rewrite <- Hr.
  split_and!; [exact Hrun1|exact Hrun2|exact Hj2|]. simpl. rewrite Hc. reflexivity.
Defined.

(** ** The url and the referer of a request *)

(** No character of [s] is ['<']. *)
Fixpoint lacksLt (s : string) : bool :=
  match s with
  | EmptyString => true
  | String c s' => negb (bool_decide (c = "<"%char)) && lacksLt s'
  end.

Lemma beforeLt_lacks s : lacksLt s = true → beforeLt s = s ∧ afterLt s = None.
Proof.
  induction s as [|c s IH]; [done|]. simpl. case_bool_decide; [done|]. simpl.
  intros Hs. destruct (IH Hs) as [-> ->]. done.
Qed.

Lemma beforeLt_app u r :
  lacksLt u = true →
  beforeLt (u ++ "<" ++ r) = u ∧ afterLt (u ++ "<" ++ r) = Some (beforeLt r).
Proof.
  induction u as [|c u IH]; [done|]. simpl. case_bool_decide; [done|]. simpl.
  intros Hu. destruct (IH Hu) as [-> ->]. done.
Qed.

Section RequestFacts.
Variable url_parse_throws : string → bool.
Variable http_request_throws : string → option string → option Err.

(** X14: [startDownload] takes the url of a request and its referer from a
    job url of the form [url<referer]: the url is the part before the first
    ['<'], the referer is the part between the first and the second, and
    there is none when the job url has no ['<'].  When [url.parse] and
    [lib.request] accept them, the request is sent for the range from the
    offset of the job to [offset + size], both included, and kept as
    [mRequest].  When [url.parse] throws, the error [No valid URL for this
    download] goes to [handleError], and when [lib.request] throws its
    error does: no request is sent then and [mRequest] is not assigned. *)
Theorem startDownload_request m w wk job url referer :
  workers m !! w = Some wk → jobAt m (mJob wk) = Some job →
  lacksLt url = true → lacksLt referer = true →
  let first := IDownloadJob.offset job in
  let last := IDownloadJob.offset job + IDownloadJob.size job in
  let send := startDownload url_parse_throws http_request_throws w in
  (url_parse_throws url = false →
     (http_request_throws url None = None →
        send url m
        = Some (tt, logged (Request w url None first last)
                      (withWorker w (set_mRequest (Some false)) m)))
     ∧ (http_request_throws url (Some referer) = None →
          send (url ++ "<" ++ referer)%string m
          = Some (tt, logged (Request w url (Some referer) first last)
                        (withWorker w (set_mRequest (Some false)) m)))
     ∧ (∀ err, http_request_throws url None = Some err →
          send url m = handleError w err m)
     ∧ (∀ err, http_request_throws url (Some referer) = Some err →
          send (url ++ "<" ++ referer)%string m = handleError w err m))
  ∧ (url_parse_throws url = true →
       send url m = handleError w (JsError "No valid URL for this download" None) m
       ∧ send (url ++ "<" ++ referer)%string m
         = handleError w (JsError "No valid URL for this download" None) m)
  ∧ ∀ more, send (url ++ "<" ++ referer ++ "<" ++ more)%string m
            = send (url ++ "<" ++ referer)%string m.
Proof.
  intros Hw Hjob Hurl Href first last send.
  destruct (beforeLt_lacks _ Hurl) as [Hb Ha].
  destruct (beforeLt_app url referer Hurl) as [Hb1 Ha1].
  destruct (beforeLt_lacks _ Href) as [Hbr _].
  assert (Hrun : ∀ jobUrl,
    send jobUrl m
    = if url_parse_throws (beforeLt jobUrl)
      then handleError w (JsError "No valid URL for this download" None) m
      else match http_request_throws (beforeLt jobUrl) (afterLt jobUrl) with
           | Some err => handleError w err m
           | None =>
               Some (tt, logged (Request w (beforeLt jobUrl) (afterLt jobUrl) first last)
                           (withWorker w (set_mRequest (Some false)) m))
           end).
  { intros jobUrl. unfold send.
    rewrite (startDownload_run url_parse_throws http_request_throws m w wk job jobUrl Hw Hjob).
    unfold requestError. by destruct (url_parse_throws (beforeLt jobUrl)). }
  split_and!.
  - intros Hparse. split_and!.
    + intros Hacc. by rewrite Hrun, Hb, Ha, Hparse, Hacc.
    + intros Hacc. by rewrite Hrun, Hb1, Ha1, Hbr, Hparse, Hacc.
    + intros err Herr. by rewrite Hrun, Hb, Ha, Hparse, Herr.
    + intros err Herr. by rewrite Hrun, Hb1, Ha1, Hbr, Hparse, Herr.
  - intros Hparse. split.
    + by rewrite Hrun, Hb, Hparse.
    + by rewrite Hrun, Hb1, Hparse.
  - intros more. rewrite !Hrun.
    destruct (beforeLt_app url (referer ++ "<" ++ more) Hurl) as [Hb2 Ha2].
    destruct (beforeLt_app referer more Href) as [Hb3 _].
    by rewrite Hb1, Ha1, Hb2, Ha2, Hb3, Hbr.
Qed.
End RequestFacts.

Lemma startDownload_request_witness :
  startDownload ex_parse_throws ex_request_throws 1 "http://host/file.zip<http://host/page"
    ex_chunked
  = Some (tt, logged (Request 1 "http://host/file.zip" (Some "http://host/page"%string)
                        20971521 52428801)
                (withWorker 1 (set_mRequest (Some false)) ex_chunked)).
Proof.
  assert (∃ wk job, workers ex_chunked !! 1%nat = Some wk
            ∧ jobAt ex_chunked (mJob wk) = Some job
            ∧ IDownloadJob.offset job = 20971521 ∧ IDownloadJob.size job = 31457280)
    as (wk & job & Hw & Hjob & Ho & Hs) by (vm_compute; eauto 10).
  destruct (startDownload_request ex_parse_throws ex_request_throws ex_chunked 1 wk job
              "http://host/file.zip" "http://host/page" Hw Hjob eq_refl eq_refl)
    as (H & _).
  destruct (H eq_refl) as (_ & H2 & _). rewrite Ho, Hs in H2. exact (H2 eq_refl).
Defined.

(** A url that [http.request] refuses: no request is sent, the request of
    the worker stays the one it had, and the worker ends. *)
Lemma startDownload_refused_url :
  ∃ m' wk wk',
    startDownload ex_parse_throws ex_request_throws 1 "ftp://host/file.zip" ex_chunked
    = Some (tt, m')
    ∧ handleError 1 (JsError "Protocol not supported" (Some "ERR_INVALID_PROTOCOL"%string))
        ex_chunked = Some (tt, m')
    ∧ workers ex_chunked !! 1%nat = Some wk ∧ mEnded wk = false
    ∧ workers m' !! 1%nat = Some wk' ∧ mEnded wk' = true
    ∧ drop (length (trace ex_chunked)) (trace m')
      = [RequestAbort 1; CallFinishCB 1 false; SpeedStopCounter (Some 1%nat);
         SpeedInitCounter 2; DeferStartJob 0 2].
Proof. vm_compute. eauto 10. Qed.


(** ** The data callback *)

(** [download.received = ...] *)
Definition set_download_received (v : Z) (d : IRunningDownload.t) : IRunningDownload.t :=
  {| IRunningDownload.id := IRunningDownload.id d;
     IRunningDownload.error := IRunningDownload.error d;
     IRunningDownload.urls := IRunningDownload.urls d;
     IRunningDownload.origName := IRunningDownload.origName d;
     IRunningDownload.tempName := IRunningDownload.tempName d;
     IRunningDownload.finalName := IRunningDownload.finalName d;
     IRunningDownload.received := v;
     IRunningDownload.started := IRunningDownload.started d;
     IRunningDownload.size := IRunningDownload.size d;
     IRunningDownload.headers := IRunningDownload.headers d;
     IRunningDownload.assembler := IRunningDownload.assembler d;
     IRunningDownload.assemblerProm := IRunningDownload.assemblerProm d;
     IRunningDownload.redownload := IRunningDownload.redownload d;
     IRunningDownload.chunks := IRunningDownload.chunks d;
     IRunningDownload.chunkable := IRunningDownload.chunkable d |}.

(** What the data callback has done when it returns: its promise is
    rejected, or it waits for [addChunk], with the value of
    [download.received] that it has read. *)
Inductive DataWritten :=
| DataRejected (err : Err)
| DataPending (receivedNow : Z).

(** [makeDataCB(download)(offset, data)], up to the promise of
    [download.assembler.addChunk(offset, data)].  [download.received] holds
    an integer here, so [isNaN] is false. *)
Definition dataCB (d : nat) : M DataWritten :=
  download ← getDownload d;
  match IRunningDownload.assembler download with
  | None => throw
  | Some assembler =>
      if isClosed assembler
      then mret (DataRejected (ProcessCanceled "file already closed"))
      else mret (DataPending (IRunningDownload.received download))
  end.

(** [download.received > download.size], false for a size that is
    [undefined]. *)
Definition exceeds (received : Z) (size : option Z) : bool :=
  match size with
  | Some s => s <? received
  | None => false
  end.

(** The handlers of the promise of [addChunk]: [result] is the flag
    [synced] it resolves to or the error it is rejected with, [len] is
    [data.byteLength].  The urls that are handed to the progress callback
    are not kept in the event.  A running chunk without a worker in the
    table makes the error handler throw. *)
Definition dataCB_then (d : nat) (receivedNow len : Z) (result : Err + bool)
    : M (Settled bool) :=
  match result with
  | inr synced =>
      updDownload d (λ download,
        set_download_received (IRunningDownload.received download + len) download);;
      download ← getDownload d;
      (if exceeds (IRunningDownload.received download) (IRunningDownload.size download)
       then updDownload d (IRunningDownload.set_size
                             (Some (IRunningDownload.received download)))
       else mret tt);;
      download ← getDownload d;
      emit (ProgressCB d receivedNow (IRunningDownload.size download)
              (if synced : bool
               then Some (map toStoredChunk (IRunningDownload.chunks download))
               else None)
              (IRunningDownload.chunkable download)
              (Some (IRunningDownload.tempName download)));;
      mret (Resolved synced)
  | inl err =>
      match err with
      | ProcessCanceled _ => mret tt
      | _ =>
          download ← getDownload d;
          forEach (seq 0 (length (IRunningDownload.chunks download))) (λ j,
            chunk ← getJob (d, j);
            if decide (IDownloadJob.state chunk = Running) then
              m ← get;
              match busyWorker m (IDownloadJob.workerId chunk) with
              | Some w => cancel w
              | None => throw
              end
            else mret tt);;
          emit (FailedCB d err)
      end;;
      mret (Rejected err)
  end.

(** X15: the data callback.  On a closed assembler it rejects with
    [ProcessCanceled('file already closed')].  When a chunk was added, the
    bytes received by the download grow by its length and a total size that
    is known is raised to them if they exceed it, so it is never below the
    bytes received; the progress callback is called once, with the bytes
    received as they were when the write began, and nothing else changes.
    A write that fails with [ProcessCanceled] is rejected without any
    effect. *)
Theorem dataCB_progress m d dl asm :
  downloads m !! d = Some dl → IRunningDownload.assembler dl = Some asm →
  dataCB d m
  = Some (if isClosed asm then DataRejected (ProcessCanceled "file already closed")
          else DataPending (IRunningDownload.received dl), m)
  ∧ (∀ message receivedNow len,
       dataCB_then d receivedNow len (inl (ProcessCanceled message)) m
       = Some (Rejected (ProcessCanceled message), m))
  ∧ ∀ receivedNow len synced,
      let received := IRunningDownload.received dl + len in
      let size := match IRunningDownload.size dl with
                  | Some s => Some (Z.max s received)
                  | None => None
                  end in
      ∃ m',
        dataCB_then d receivedNow len (inr synced) m = Some (Resolved synced, m')
        ∧ downloads m' !! d
          = Some (IRunningDownload.set_size size (set_download_received received dl))
        ∧ (∀ r, r ≠ d → downloads m' !! r = downloads m !! r)
        ∧ workers m' = workers m ∧ mQueue m' = mQueue m
        ∧ mBusyWorkers m' = mBusyWorkers m
        ∧ trace m'
          = trace m
            ++ [ProgressCB d receivedNow size
                  (if synced then Some (map toStoredChunk (IRunningDownload.chunks dl))
                   else None)
                  (IRunningDownload.chunkable dl)
                  (Some (IRunningDownload.tempName dl))]
        ∧ ∀ s, size = Some s → received ≤ s.
Proof.
  intros Hd Ha. split_and!.
  - unfold dataCB. rewrite (bind_run _ _ _ _ _ (getDownload_run _ _ _ Hd)), Ha.
    by destruct (isClosed asm).
  - done.
  - intros receivedNow len synced received size.
    assert (wp (dataCB_then d receivedNow len (inr synced)) (λ res m',
      res = Resolved synced
      ∧ downloads m' !! d
        = Some (IRunningDownload.set_size size (set_download_received received dl))
      ∧ (∀ r, r ≠ d → downloads m' !! r = downloads m !! r)
      ∧ workers m' = workers m ∧ mQueue m' = mQueue m
      ∧ mBusyWorkers m' = mBusyWorkers m
      ∧ trace m'
        = trace m
          ++ [ProgressCB d receivedNow size
                (if synced then Some (map toStoredChunk (IRunningDownload.chunks dl))
                 else None)
                (IRunningDownload.chunkable dl)
                (Some (IRunningDownload.tempName dl))]) m) as H.
    { unfold dataCB_then. wp_steps.
      set (m1 := withDownload d _ m).
      assert (Hd1 : downloads m1 !! d = Some (set_download_received received dl)).
      { unfold m1. by rewrite downloads_withDownload_eq, Hd. }
      eapply wp_getDownload; [done|]. wp_step.
      change (IRunningDownload.received (set_download_received received dl)) with received.
      change (IRunningDownload.size (set_download_received received dl))
        with (IRunningDownload.size dl).
      eapply (wp_mono _ (λ _ m2,
        downloads m2 !! d
        = Some (IRunningDownload.set_size size (set_download_received received dl))
        ∧ (∀ r, r ≠ d → downloads m2 !! r = downloads m !! r)
        ∧ workers m2 = workers m ∧ mQueue m2 = mQueue m
        ∧ mBusyWorkers m2 = mBusyWorkers m ∧ trace m2 = trace m)).
      { unfold exceeds, size. destruct (IRunningDownload.size dl) as [s|] eqn:Hs.
        - destruct (Z.ltb_spec s received) as [Hlt|Hge]; wp_step.
          + split_and!; try done.
            * rewrite downloads_withDownload_eq, Hd1. simpl. do 2 f_equal.
              by rewrite Z.max_r by lia.
            * intros r Hne. rewrite downloads_withDownload_ne by done.
              unfold m1. by rewrite downloads_withDownload_ne.
          + split_and!; try done.
            * rewrite Hd1. f_equal. rewrite Z.max_l by lia. rewrite <- Hs.
              by destruct dl.
            * intros r Hne. unfold m1. by rewrite downloads_withDownload_ne.
        - wp_step. split_and!; try done.
          + rewrite Hd1. f_equal. rewrite <- Hs. by destruct dl.
          + intros r Hne. unfold m1. by rewrite downloads_withDownload_ne. }
      cbv beta. intros _ m2 (Hd2 & Hne2 & Hw2 & Hq2 & Hb2 & Ht2).
      wp_step. eapply wp_getDownload; [done|]. wp_steps.
      split_and!; try done. simpl. by rewrite Ht2. }
    destruct H as (res & m' & Hrun & -> & H). exists m'. split; [done|].
    destruct H as (? & ? & ? & ? & ? & ?). split_and!; try done.
    unfold size. intros s Hs. destruct (IRunningDownload.size dl); [|done].
    injection Hs as <-. lia.
Qed.

Lemma dataCB_progress_witness :
  ∃ m' dl',
    dataCB_then 0 0 1000 (inr true) ex_chunked = Some (Resolved true, m')
    ∧ downloads m' !! 0%nat = Some dl'
    ∧ IRunningDownload.received dl' = 1000
    ∧ IRunningDownload.size dl' = Some (80 * 1024 * 1024).
Proof.
  assert (∃ dl asm, downloads ex_chunked !! 0%nat = Some dl
            ∧ IRunningDownload.assembler dl = Some asm
            ∧ IRunningDownload.received dl = 0
            ∧ IRunningDownload.size dl = Some (80 * 1024 * 1024))
    as (dl & asm & Hd & Ha & Hr & Hs) by (vm_compute; eauto 10).
  destruct (dataCB_progress ex_chunked 0 dl asm Hd Ha) as (_ & _ & H).
  destruct (H 0 1000 true) as (m' & Hrun & Hd' & _).
  exists m'. eexists. split_and!; [exact Hrun|exact Hd'| |].
  - simpl. rewrite Hr. reflexivity.
  - simpl. rewrite Hs, Hr. reflexivity.
Defined.

(** ** Resolving urls *)

(** [URL_RESOLVE_EXPIRE_MS]: urls are taken to be valid for five
    minutes. *)
Definition URL_RESOLVE_EXPIRE_MS : Z := 1000 * 60 * 5.

(** What [resolveUrl] does before it returns its promise: the promise is
    resolved with urls, or the handler of the protocol is called. *)
Inductive Resolution (H : Type) :=
| Known (urls : list string)
| AskHandler (handler : H).
Arguments Known {H} urls.
Arguments AskHandler {H} handler.

Section ResolveUrl.
(** The handlers of the protocols, and of the libraries:
    [url.parse(input).protocol]. *)
Context {H : Type}.
Variable url_protocol : string → option string.

(** [resolveUrl(input)]; [mResolveCache] maps an input to the time of its
    resolution and the urls, [now] is [Date.now()]. *)
Definition resolveUrl (mProtocolHandlers : gmap string H)
    (mResolveCache : gmap string (Z * list string)) (input : string) (now : Z)
    : Resolution H :=
  let uncached :=
    let protocol := url_protocol input in
    if negb (truthy protocol) then Known []
    else
      let protocol := default EmptyString protocol in
      match mProtocolHandlers !! String.substring 0 (String.length protocol - 1) protocol with
      | Some handler => AskHandler handler
      | None => Known [input]
      end in
  match mResolveCache !! input with
  | Some (time, urls) =>
      if now - time <? URL_RESOLVE_EXPIRE_MS then Known urls else uncached
  | None => uncached
  end.

(** The handlers of the promise of the protocol handler: [answer] is the
    list of urls it resolves to, [None] when it is rejected, and [now] is
    [Date.now()] then.  The result is the list of urls and the cache. *)
Definition resolveUrl_then (mResolveCache : gmap string (Z * list string))
    (input : string) (answer : option (list string)) (now : Z)
    : list string * gmap string (Z * list string) :=
  let urls := default [] answer in
  (urls, <[input := (now, urls)]> mResolveCache).

(** X16: the cache of resolved urls.  What a protocol handler has answered
    for an input at time [t] is what [resolveUrl] gives for that input
    during the next five minutes, without calling a handler; a handler that
    failed is remembered as the empty list.  From five minutes on the
    entry is ignored.  The entries of other inputs are not touched. *)
Theorem resolveUrl_cached handlers cache input answer t :
  let cache' := (resolveUrl_then cache input answer t).2 in
  (resolveUrl_then cache input answer t).1 = default [] answer
  ∧ (∀ now, now - t < URL_RESOLVE_EXPIRE_MS →
       resolveUrl handlers cache' input now = Known (default [] answer))
  ∧ (∀ now, URL_RESOLVE_EXPIRE_MS ≤ now - t →
       resolveUrl handlers cache' input now = resolveUrl handlers ∅ input now)
  ∧ (∀ input' now, input' ≠ input →
       resolveUrl handlers cache' input' now = resolveUrl handlers cache input' now).
Proof.
  intros cache'. unfold cache', resolveUrl_then, resolveUrl. simpl. split_and!.
  - done.
  - intros now Hnow. rewrite lookup_insert_eq. by rewrite (proj2 (Z.ltb_lt _ _)).
  - intros now Hnow. rewrite lookup_insert_eq, lookup_empty.
    by rewrite (proj2 (Z.ltb_ge _ _)).
  - intros input' now Hne. by rewrite lookup_insert_ne.
Qed.
End ResolveUrl.


(** ** The end of a response *)




(** ** A response without ranges *)

(** The download after [setChunkable] and [setSize]. *)
Definition resized (chunkable : bool) (size : Z) (dl : IRunningDownload.t)
    : IRunningDownload.t :=
  IRunningDownload.set_size (Some size)
    (if chunkable || bool_decide (IRunningDownload.chunkable dl = None)
     then IRunningDownload.set_chunkable (Some chunkable) dl else dl).

Lemma set_size_same dl size :
  IRunningDownload.size dl = Some size → IRunningDownload.set_size (Some size) dl = dl.
Proof. intros H. destruct dl; simpl in *; by subst. Qed.

Lemma setChunkable_download m d dl chunkable :
  downloads m !! d = Some dl →
  wp (setChunkable d chunkable) (λ _ m',
      downloads m' !! d
      = Some (if chunkable || bool_decide (IRunningDownload.chunkable dl = None)
              then IRunningDownload.set_chunkable (Some chunkable) dl else dl)
      ∧ trace m' = trace m) m.
Proof.
  intros Hd. unfold setChunkable. wp_step. eapply wp_getDownload; [done|].
  destruct (_ || _); wp_step; [|done]. by rewrite downloads_withDownload_eq, Hd.
Qed.

Lemma setSize_download m d dl size :
  downloads m !! d = Some dl → is_Some (IRunningDownload.assembler dl) →
  wp (setSize d size) (λ _ m',
      downloads m' !! d = Some (IRunningDownload.set_size (Some size) dl)
      ∧ trace m' = trace m ++ (if bool_decide (IRunningDownload.size dl = Some size)
                               then [] else [AssemblerSetTotalSize d size])) m.
Proof.
  intros Hd [asm Ha]. unfold setSize. wp_step. eapply wp_getDownload; [done|].
  case_bool_decide as Hs; wp_steps.
  - rewrite set_size_same by done. by rewrite app_nil_r.
  - rewrite Ha. wp_step. split; [|done]. simpl. by rewrite lookup_alter_eq, Hd.
Qed.

(** X18: the response callback of a response without Content-Range, on a
    download that has its assembler, whichever of the two closures it is.
    The size of the download becomes the size that is passed, and the
    assembler is told so when it differs; the chunks are kept, whatever the
    size; and [chunkable] is set to false only if it was not set before: a
    download that was found to support ranges keeps that. *)
Theorem callResponseCB_unchunked m cb d dl fileSize fileName :
  downloads m !! d = Some dl → is_Some (IRunningDownload.assembler dl) →
  ∃ m' dl' tr,
    callResponseCB cb d fileSize fileName false m = Some (tt, m')
    ∧ downloads m' !! d = Some dl'
    ∧ dl' = resized false fileSize dl
    ∧ IRunningDownload.chunks dl' = IRunningDownload.chunks dl
    ∧ IRunningDownload.size dl' = Some fileSize
    ∧ IRunningDownload.chunkable dl' = Some (default false (IRunningDownload.chunkable dl))
    ∧ trace m' = trace m ++ tr
    ∧ (AssemblerSetTotalSize d fileSize ∈ tr ↔ IRunningDownload.size dl ≠ Some fileSize).
Proof.
  intros Hd Ha.
  assert (Hfacts : IRunningDownload.chunks (resized false fileSize dl)
                   = IRunningDownload.chunks dl
                   ∧ IRunningDownload.size (resized false fileSize dl) = Some fileSize
                   ∧ IRunningDownload.chunkable (resized false fileSize dl)
                     = Some (default false (IRunningDownload.chunkable dl))).
  { unfold resized. simpl. case_bool_decide as Hc; simpl; [by rewrite Hc|].
    split_and!; try done. by destruct (IRunningDownload.chunkable dl). }
  destruct Hfacts as (Hf1 & Hf2 & Hf3).
  assert (wp (callResponseCB cb d fileSize fileName false) (λ _ m',
      downloads m' !! d = Some (resized false fileSize dl)
      ∧ ∃ tr, trace m' = trace m ++ tr
          ∧ (AssemblerSetTotalSize d fileSize ∈ tr
             ↔ IRunningDownload.size dl ≠ Some fileSize)) m) as H.
  { destruct cb as [fromUrl|]; simpl.
    - unfold updateDownload. wp_step. eapply wp_getDownload; [done|]. wp_step.
      set (rename := match (match fileName with Some _ => fileName | None => fromUrl end)
                     with Some _ => _ | None => _ end).
      eapply (wp_mono _ (λ _ m1, downloads m1 = downloads m
                ∧ ∃ tr, trace m1 = trace m ++ tr
                    ∧ ∀ size, AssemblerSetTotalSize d size ∉ tr)).
      { unfold rename. destruct (match fileName with Some _ => _ | None => _ end) as [name|];
          [destruct (_ && _)|]; wp_step; (split; [done|]).
        - exists [DeferRename d name]. split; [done|]. intros size Hin.
          apply list_elem_of_singleton in Hin. done.
        - exists []. rewrite app_nil_r. split; [done|]. intros size Hin. inversion Hin.
        - exists []. rewrite app_nil_r. split; [done|]. intros size Hin. inversion Hin. }
      cbv beta. intros _ m1 (Hds & tr1 & Htr1 & Hno).
      wp_step. eapply wp_mono; [eapply setChunkable_download; by rewrite Hds|]. cbv beta.
      intros _ m2 [Hd2 Ht2].
      wp_step. eapply wp_mono; [eapply setSize_download; [done|]|].
      { by destruct (_ || _). }
      cbv beta. intros _ m3 [Hd3 Ht3].
      wp_step. eapply wp_getDownload; [done|].
      assert (Hpost : downloads m3 !! d = Some (resized false fileSize dl)
        ∧ ∃ tr, trace m3 = trace m ++ tr
            ∧ (AssemblerSetTotalSize d fileSize ∈ tr
               ↔ IRunningDownload.size dl ≠ Some fileSize)).
      { split; [done|]. eexists. rewrite Ht3, Ht2, Htr1, <- app_assoc. split; [done|].
        assert (IRunningDownload.size
                  (if false || bool_decide (IRunningDownload.chunkable dl = None)
                   then IRunningDownload.set_chunkable (Some false) dl else dl)
                = IRunningDownload.size dl) as -> by (by destruct (_ || _)).
        rewrite elem_of_app. clear Ht3.
        destruct (decide (IRunningDownload.size dl = Some fileSize)) as [Hs|Hs];
          [rewrite bool_decide_eq_true_2 by done|rewrite bool_decide_eq_false_2 by done].
        - split; [intros [Hin|Hin]|intros Hne; by destruct Hne].
          + by apply Hno in Hin.
          + inversion Hin.
        - split; [done|]. intros _. right. by left. }
      cbv beta. destruct (decide (1 < length _)%nat); [wp_step; exact Hpost|].
      rewrite andb_false_r.
      wp_step. exact Hpost.
    - unfold updateDownloadSize. wp_step.
      eapply wp_mono; [by eapply setSize_download|]. cbv beta. intros _ m1 [Hd1 Ht1].
      eapply wp_mono; [by eapply setChunkable_download|]. cbv beta. intros _ m2 [Hd2 Ht2].
      split.
      + rewrite Hd2. f_equal. unfold resized. simpl.
        destruct (decide (IRunningDownload.chunkable dl = None)) as [Hc|Hc].
        * by rewrite !bool_decide_eq_true_2 by done.
        * by rewrite !bool_decide_eq_false_2 by done.
      + eexists. rewrite Ht2, Ht1. split; [done|]. clear Ht1.
        destruct (decide (IRunningDownload.size dl = Some fileSize)) as [Hs|Hs];
          [rewrite bool_decide_eq_true_2 by done|rewrite bool_decide_eq_false_2 by done].
        * split; [intros Hin; inversion Hin|intros Hne; by destruct Hne].
        * split; [done|]. intros _. by left. }
  destruct H as ([] & m' & Hrun & Hd' & tr & Htr & Hiff).
  exists m', (resized false fileSize dl), tr. split_and!; done.
Qed.

(** The example download, which is chunked, is told a size of 1000 bytes
    by a response without ranges. *)
Lemma callResponseCB_unchunked_witness :
  ∃ m' dl' tr,
    callResponseCB UpdateDownloadSize 0 1000 None false ex_chunked = Some (tt, m')
    ∧ downloads m' !! 0%nat = Some dl'
    ∧ IRunningDownload.size dl' = Some 1000
    ∧ length (IRunningDownload.chunks dl') = 3%nat
    ∧ IRunningDownload.chunkable dl' = Some true
    ∧ trace m' = trace ex_chunked ++ tr
    ∧ AssemblerSetTotalSize 0 1000 ∈ tr.
Proof.
  assert (∃ dl, downloads ex_chunked !! 0%nat = Some dl
            ∧ is_Some (IRunningDownload.assembler dl)
            ∧ length (IRunningDownload.chunks dl) = 3%nat
            ∧ IRunningDownload.chunkable dl = Some true
            ∧ IRunningDownload.size dl = Some 83886080)
    as (dl & Hd & Ha & Hlen & Hc & Hs) by (vm_compute; eauto 10).
  destruct (callResponseCB_unchunked ex_chunked UpdateDownloadSize 0 dl 1000 None Hd Ha)
    as (m' & dl' & tr & Hrun & Hd' & _ & Hchunks & Hsize & Hch & Htr & Hin).
  exists m', dl', tr. rewrite Hchunks, Hch, Hc.
  split_and!; [exact Hrun|exact Hd'|exact Hsize|exact Hlen|reflexivity|exact Htr|].
  apply Hin. rewrite Hs. discriminate.
Defined.
